(** * fontio3 backend walkers: a shallow embedding and its verified properties

  The development embeds the C back ends of the fontio3 walkers
  ([walkerbit.c], [walker.c], [utilities.c], [filewalkerbit.c]) and proves
  the properties their specification states about them.

  Conventions of the embedding.
  - C integers are [Z]; every conversion to a C type is written out
    ([ulong], [slong], [uint], [uchar], ...), so wrap-around is explicit.
  - A byte buffer is a [list Z] of values in [0, 256); [bytes_ok] checks it.
  - A C function that mutates a context and may set a Python exception is a
    function into [outcome]: it finishes ([Done]), raises with the context as
    the failed call leaves it ([Raised]), or has no defined behaviour
    ([Undefined]: a read outside the buffer, a division by zero).
  - Python allocation ([PyMem_Malloc], [PyTuple_New], [PyLong_From...],
    [PyCapsule_New]) is taken to succeed, and the arguments are the C values
    [PyArg_ParseTuple] delivers. *)

From Stdlib Require Import String Ascii ZArith List Bool Lia.
Import ListNotations.
Local Open Scope Z_scope.

(** ** C integer types *)

Module CInt.

Definition ulong (x : Z) : Z := x mod 2 ^ 64.
Definition slong (x : Z) : Z := (x + 2 ^ 63) mod 2 ^ 64 - 2 ^ 63.
Definition uint (x : Z) : Z := x mod 2 ^ 32.
Definition sint (x : Z) : Z := (x + 2 ^ 31) mod 2 ^ 32 - 2 ^ 31.
Definition ushort (x : Z) : Z := x mod 2 ^ 16.
Definition sshort (x : Z) : Z := (x + 2 ^ 15) mod 2 ^ 16 - 2 ^ 15.
Definition uchar (x : Z) : Z := x mod 2 ^ 8.
(** plain [char] is signed, as on the x86 and x86-64 ABIs *)
Definition schar (x : Z) : Z := (x + 2 ^ 7) mod 2 ^ 8 - 2 ^ 7.

Definition is_byte (b : Z) : bool := (0 <=? b) && (b <? 256).
Definition bytes_ok (l : list Z) : bool := forallb is_byte l.

End CInt.
Export CInt.

(** ** Outcomes of a call *)

Inductive PyExc : Type :=
| IndexError
| ValueError
| TypeError
| OverflowError
| SystemError.

Inductive outcome (S A : Type) : Type :=
| Done (a : A) (s : S)
| Raised (e : PyExc) (s : S)
| Undefined.

Arguments Done {S A} a s.
Arguments Raised {S A} e s.
Arguments Undefined {S A}.

(** [highMasks], the table shared by all the walkers. *)
Definition highMasks : list Z :=
[0xFF; 0xFE; 0xFC; 0xF8; 0xF0; 0xE0; 0xC0; 0x80].

Definition highMask (i : Z) : Z := nth (Z.to_nat i) highMasks 0.

(** ** Python objects

    The values the back ends build.  A float is kept as the bit pattern the
    C code reinterprets; a tuple slot that was never set is [None]. *)

#[local] Set Warnings "-register-all".

Inductive PyObj : Type :=
| PyNone
| PyLong (n : Z)
| PyFloat_FromFloat (bits : Z)
| PyFloat_FromDouble (bits : Z)
| PyBytes (s : list Z)
| PyTuple (items : list (option PyObj)).

Definition PyTuple_New (n : Z) : list (option PyObj) :=
  repeat None (Z.to_nat n).

(** [PyTuple_SetItem] fails with [IndexError] outside the tuple. *)
Definition PyTuple_SetItem (t : list (option PyObj)) (index : Z) (obj : PyObj)
  : option (list (option PyObj)) :=
  if (0 <=? index) && (index <? Z.of_nat (length t))
  then Some (firstn (Z.to_nat index) t
             ++ Some obj :: skipn (S (Z.to_nat index)) t)
  else None.

(** [PySequence_GetItem (t, 0)]; a slot that was never set is a null
    pointer. *)
Definition PySequence_GetItem0 (t : list (option PyObj)) : option PyObj :=
  match t with
  | Some obj :: _ => Some obj
  | _ => None
  end.

(** The tuple [t] after [PyTuple_SetItem (t, index++, obj)] for each [obj] of
    [objs] in turn. *)
Definition set_items (t : list (option PyObj)) (index : Z)
  (objs : list PyObj) : list (option PyObj) :=
  firstn (Z.to_nat index) t ++ map Some objs
  ++ skipn (Z.to_nat index + length objs) t.

(** ** Format strings

    [FormatByteSize] is the same function, character for character, in
    [walkerbit.c], [walker.c], [filewalker.c] and [filewalkerbit.c]. *)

Definition is_digit (c : ascii) : bool :=
  (48 <=? Z.of_nat (nat_of_ascii c)) && (Z.of_nat (nat_of_ascii c) <=? 57).

(** [c - '0'] *)
Definition digit_of (c : ascii) : Z := Z.of_nat (nat_of_ascii c) - 48.

(** [sizeof(Py_ssize_t)] on an LP64 platform *)
Definition sizeof_Py_ssize_t : Z := 8.

(** The body of [switch (c)]: the new [size] and [*itemCount]. *)
Definition FormatByteSize_switch (c : ascii) (repeat size itemCount : Z)
  : Z * Z :=
  match c with
  | "B" | "b" | "c" | "p" | "s" | "x" =>
      (ulong (size + repeat),
       if (c =? "s") || (c =? "p") then ulong (itemCount + 1)
       else if negb (c =? "x") then ulong (itemCount + repeat)
       else itemCount)
  | "H" | "h" =>
      let n := ulong (2 * repeat) in
      (ulong (size + n), ulong (itemCount + repeat))
  | "T" | "t" =>
      let n := ulong (3 * repeat) in
      (ulong (size + n), ulong (itemCount + repeat))
  | "f" | "I" | "i" | "L" | "l" =>
      let n := ulong (4 * repeat) in
      (ulong (size + n), ulong (itemCount + repeat))
  | "d" | "Q" | "q" =>
      let n := ulong (8 * repeat) in
      (ulong (size + n), ulong (itemCount + repeat))
  | "P" =>
      let n := ulong (sizeof_Py_ssize_t * repeat) in
      (ulong (size + n), ulong (itemCount + repeat))
  | _ => (size, itemCount)
  end%char.

(** [while (formatLength--)], with the local variables as arguments. *)
Fixpoint FormatByteSize_loop (format : list ascii) (repeat size itemCount : Z)
  : Z * Z :=
  match format with
  | [] => (size, itemCount)
  | c :: format' =>
      if is_digit c then
        FormatByteSize_loop format' (ulong (10 * repeat + digit_of c))
                            size itemCount
      else
        let repeat := if repeat =? 0 then 1 else repeat in
        let '(size, itemCount) :=
          FormatByteSize_switch c repeat size itemCount in
        FormatByteSize_loop format' 0 size itemCount
  end.

(** Returns the byte size and the item count. *)
Definition FormatByteSize (format : list ascii) : Z * Z :=
  FormatByteSize_loop format 0 0 0.


(** ** FormatProcess

    The same function, character for character, in [walkerbit.c], [walker.c]
    and [filewalkerbit.c].  [runningOnBigEndian] is the byte order probe of
    the host; [b] is the buffer, [fp_b] the distance the pointer [b] has
    moved, [fp_index] the next tuple slot. *)

Record FP_State : Type := mkFP {
  fp_t : list (option PyObj);
  fp_b : Z;
  fp_index : Z
}.

(** The next [n] bytes at the pointer, if they lie within the buffer. *)
Definition fp_bytes (b : list Z) (st : FP_State) (n : Z) : option (list Z) :=
  if (0 <=? fp_b st) && (0 <=? n) && (fp_b st + n <=? Z.of_nat (length b))
  then Some (firstn (Z.to_nat n) (skipn (Z.to_nat (fp_b st)) b))
  else None.

(** [PyTuple_SetItem (t, index++, obj)] after [consumed] bytes were read. *)
Definition fp_set (st : FP_State) (consumed : Z) (obj : PyObj)
  : outcome FP_State unit :=
  match PyTuple_SetItem (fp_t st) (fp_index st) obj with
  | Some t' => Done tt (mkFP t' (fp_b st + consumed) (fp_index st + 1))
  | None => Raised IndexError st
  end.

Fixpoint be_value (xc : list Z) (acc : Z) : Z :=
  match xc with
  | [] => acc
  | x :: xc' => be_value xc' (acc * 256 + x)
  end.

(** The integer the host reads from the byte array [xc]. *)
Definition host_load (runningOnBigEndian : bool) (xc : list Z) : Z :=
  if runningOnBigEndian then be_value xc 0 else be_value (rev xc) 0.

(** The array [xc] after the copy loop: in order when the host order is the
    requested order, reversed otherwise. *)
Definition fill_xc (runningOnBigEndian isBigEndian : bool) (bs : list Z)
  : list Z :=
  if Bool.eqb runningOnBigEndian isBigEndian then bs else rev bs.

Definition item_B (c : ascii) (b : list Z) (st : FP_State)
  : outcome FP_State unit :=
  match fp_bytes b st 1 with
  | Some [x] => fp_set st 1 (PyLong (if (c =? "B")%char then x else schar x))
  | _ => Undefined
  end.

Definition item_H (rob isBigEndian : bool) (c : ascii) (b : list Z)
  (st : FP_State) : outcome FP_State unit :=
  match fp_bytes b st 2 with
  | Some bs =>
      let x := host_load rob (fill_xc rob isBigEndian bs) in
      fp_set st 2 (PyLong (if (c =? "H")%char then x else sshort x))
  | None => Undefined
  end.

Definition item_I (rob isBigEndian : bool) (c : ascii) (b : list Z)
  (st : FP_State) : outcome FP_State unit :=
  match fp_bytes b st 4 with
  | Some bs =>
      let x := host_load rob (fill_xc rob isBigEndian bs) in
      fp_set st 4
        (if (c =? "f")%char then PyFloat_FromFloat x
         else if ((c =? "I") || (c =? "L"))%char then PyLong x
         else PyLong (sint x))
  | None => Undefined
  end.

(** Three bytes go to [xc[1..3]] on a big-endian host and to [xc[0..2]] on a
    little-endian one; the fourth byte is the sign fill, taken from the
    byte that holds bit 23. *)
Definition item_T (rob isBigEndian : bool) (c : ascii) (b : list Z)
  (st : FP_State) : outcome FP_State unit :=
  match fp_bytes b st 3 with
  | Some bs =>
      let xc :=
        if rob then
          let body := if isBigEndian then bs else rev bs in
          let top := nth 0 body 0 in
          (if (c =? "T")%char then 0 else if top <? 0x80 then 0 else 0xFF)
          :: body
        else
          let body := if isBigEndian then rev bs else bs in
          let top := nth 2 body 0 in
          body
          ++ [if (c =? "T")%char then 0 else if top <? 0x80 then 0 else 0xFF]
      in
      fp_set st 3 (PyLong (sint (host_load rob xc)))
  | None => Undefined
  end.

Definition item_d (rob isBigEndian : bool) (b : list Z) (st : FP_State)
  : outcome FP_State unit :=
  match fp_bytes b st 8 with
  | Some bs =>
      fp_set st 8
        (PyFloat_FromDouble (host_load rob (fill_xc rob isBigEndian bs)))
  | None => Undefined
  end.

(** The two 32-bit halves of the eight bytes [bs]; every assignment to the
    [unsigned int] halves is a [uint]. *)
Definition Q_halves (isBigEndian : bool) (bs : list Z) : Z * Z :=
  let b0 := nth 0 bs 0 in let b1 := nth 1 bs 0 in
  let b2 := nth 2 bs 0 in let b3 := nth 3 bs 0 in
  let b4 := nth 4 bs 0 in let b5 := nth 5 bs 0 in
  let b6 := nth 6 bs 0 in let b7 := nth 7 bs 0 in
  if isBigEndian then
    let highPart := uint (Z.shiftl b0 24) in
    let highPart := uint (Z.lor highPart (Z.shiftl b1 16)) in
    let highPart := uint (Z.lor highPart (Z.shiftl b2 8)) in
    let highPart := uint (Z.lor highPart b3) in
    let lowPart := uint (Z.shiftl b4 24) in
    let lowPart := uint (Z.lor lowPart (Z.shiftl b5 16)) in
    let lowPart := uint (Z.lor lowPart (Z.shiftl b6 8)) in
    let lowPart := uint (Z.lor lowPart b7) in
    (highPart, lowPart)
  else
    let lowPart := uint b0 in
    let lowPart := uint (Z.lor lowPart (Z.shiftl b1 8)) in
    let lowPart := uint (Z.lor lowPart (Z.shiftl b2 16)) in
    let lowPart := uint (Z.lor lowPart (Z.shiftl b3 24)) in
    let highPart := uint b4 in
    let highPart := uint (Z.lor highPart (Z.shiftl b5 8)) in
    let highPart := uint (Z.lor highPart (Z.shiftl b6 16)) in
    let highPart := uint (Z.lor highPart (Z.shiftl b7 24)) in
    (highPart, lowPart).

(** [obj5 = (highPart << 32) + lowPart] in Python integers, minus [1 << 64]
    for [q] with [highPart > 0x7FFFFFFF]. *)
Definition Q_value (c : ascii) (highPart lowPart : Z) : Z :=
  let obj5 := Z.shiftl highPart 32 + lowPart in
  if (c =? "q")%char && (0x7FFFFFFF <? highPart)
  then obj5 - Z.shiftl 1 64
  else obj5.

Definition item_Q (isBigEndian : bool) (c : ascii) (b : list Z)
  (st : FP_State) : outcome FP_State unit :=
  match fp_bytes b st 8 with
  | Some bs =>
      let '(highPart, lowPart) := Q_halves isBigEndian bs in
      fp_set st 8 (PyLong (Q_value c highPart lowPart))
  | None => Undefined
  end.

Definition item_c (b : list Z) (st : FP_State) : outcome FP_State unit :=
  match fp_bytes b st 1 with
  | Some bs => fp_set st 1 (PyBytes bs)
  | None => Undefined
  end.

(** [while (repeat--)] around one item. *)
Fixpoint fp_repeat (n : nat) (item : FP_State -> outcome FP_State unit)
  (st : FP_State) : outcome FP_State unit :=
  match n with
  | O => Done tt st
  | S n' =>
      match item st with
      | Done _ st' => fp_repeat n' item st'
      | Raised e st' => Raised e st'
      | Undefined => Undefined
      end
  end.

(** The data cases of [switch (c)]; a character without a case changes
    nothing. *)
Definition FormatProcess_switch (rob isBigEndian : bool) (c : ascii)
  (repeat : Z) (b : list Z) (st : FP_State) : outcome FP_State unit :=
  match c with
  | "B" | "b" => fp_repeat (Z.to_nat repeat) (item_B c b) st
  | "H" | "h" => fp_repeat (Z.to_nat repeat) (item_H rob isBigEndian c b) st
  | "I" | "L" | "f" | "i" | "l" =>
      fp_repeat (Z.to_nat repeat) (item_I rob isBigEndian c b) st
  | "T" | "t" => fp_repeat (Z.to_nat repeat) (item_T rob isBigEndian c b) st
  | "d" => fp_repeat (Z.to_nat repeat) (item_d rob isBigEndian b) st
  | "Q" | "q" => fp_repeat (Z.to_nat repeat) (item_Q isBigEndian c b) st
  | "c" => fp_repeat (Z.to_nat repeat) (item_c b) st
  | "p" =>
      match fp_bytes b st 1 with
      | Some [actualLength] =>
          match fp_bytes b (mkFP (fp_t st) (fp_b st + 1) (fp_index st))
                         actualLength with
          | Some s => fp_set st repeat (PyBytes s)
          | None => Undefined
          end
      | _ => Undefined
      end
  | "s" =>
      match fp_bytes b st repeat with
      | Some s => fp_set st repeat (PyBytes s)
      | None => Undefined
      end
  | "x" => Done tt (mkFP (fp_t st) (fp_b st + repeat) (fp_index st))
  | _ => Done tt st
  end%char.

(** [while (formatLength--)], with [isBigEndian] and [repeat] as
    arguments. *)
Fixpoint FormatProcess_loop (rob : bool) (b : list Z) (format : list ascii)
  (isBigEndian : bool) (repeat : Z) (st : FP_State) : outcome FP_State unit :=
  match format with
  | [] => Done tt st
  | c :: format' =>
      if is_digit c then
        FormatProcess_loop rob b format' isBigEndian
                           (ulong (10 * repeat + digit_of c)) st
      else
        let repeat := if repeat =? 0 then 1 else repeat in
        match c with
        | "<" => FormatProcess_loop rob b format' false 0 st
        | "@" | "=" => FormatProcess_loop rob b format' rob 0 st
        | "!" | ">" => FormatProcess_loop rob b format' true 0 st
        | _ =>
            match FormatProcess_switch rob isBigEndian c repeat b st with
            | Done _ st' => FormatProcess_loop rob b format' isBigEndian 0 st'
            | Raised e st' => Raised e st'
            | Undefined => Undefined
            end
        end%char
  end.

(** The tuple [t] as the call leaves it. *)
Definition FormatProcess (rob : bool) (t : list (option PyObj)) (b : list Z)
  (format : list ascii) (startIndex : Z) (startIsBigEndian : bool)
  : outcome (list (option PyObj)) unit :=
  match FormatProcess_loop rob b format startIsBigEndian 0
                           (mkFP t 0 startIndex) with
  | Done _ st => Done tt (fp_t st)
  | Raised e st => Raised e (fp_t st)
  | Undefined => Undefined
  end.

(** ** walkerbit.c: StringBitWalker *)

Module WalkerBit.

Record WKB_Context : Type := mkWKB {
  liveBuffer : list Z;
  origBitStart : Z;
  currBitOffset : Z;
  bitLimit : Z;
  isBigEndian : bool
}.

Definition set_currBitOffset (c : WKB_Context) (v : Z) : WKB_Context :=
  mkWKB (liveBuffer c) (origBitStart c) v (bitLimit c) (isBigEndian c).

(** The loop [while (bitCount >= 8UL)] at phase zero copies one byte per
    iteration and subtracts 8 from [bitCount]: it runs [bitCount / 8] times
    and leaves [bitCount mod 8]. *)
Fixpoint copy_bytes (buf : list Z) (from : nat) (n : nat) : option (list Z) :=
  match n with
  | O => Some []
  | S n' =>
      match nth_error buf from with
      | None => None
      | Some a =>
          match copy_bytes buf (S from) n' with
          | None => None
          | Some out => Some (a :: out)
          end
      end
  end.

(** The same loop at a nonzero phase: each output byte is
    [from[0] << currPhase | fromNext[0] >> counterPhase], cast to
    [unsigned char], and both pointers advance by one. *)
Fixpoint shift_bytes (buf : list Z) (from : nat) (currPhase : Z) (n : nat)
  : option (list Z) :=
  match n with
  | O => Some []
  | S n' =>
      match nth_error buf from, nth_error buf (S from) with
      | Some a, Some b =>
          match shift_bytes buf (S from) currPhase n' with
          | None => None
          | Some out =>
              Some (uchar (Z.lor (Z.shiftl a currPhase)
                                 (Z.shiftr b (8 - currPhase))) :: out)
          end
      | _, _ => None
      end
  end.

Definition BytesFromBits (context : WKB_Context) (bitCount : Z)
  : outcome WKB_Context (list Z) :=
  if negb (ulong (currBitOffset context + bitCount) <=? bitLimit context)
  then Raised IndexError context
  else
    let buf := liveBuffer context in
    let from := Z.to_nat (Z.shiftr (currBitOffset context) 3) in
    let currPhase := Z.land (currBitOffset context) 7 in
    let context' :=
      set_currBitOffset context (ulong (currBitOffset context + bitCount)) in
    let whole := Z.to_nat (bitCount / 8) in
    let bitCount' := bitCount mod 8 in
    let from' := (from + whole)%nat in
    if currPhase =? 0 then
      match copy_bytes buf from whole with
      | None => Undefined
      | Some out =>
          if bitCount' =? 0 then Done out context'
          else
            match nth_error buf from' with
            | None => Undefined
            | Some a =>
                Done (out ++ [uchar (Z.land a (highMask (8 - bitCount')))]) context'
            end
      end
    else
      let counterPhase := 8 - currPhase in
      match shift_bytes buf from currPhase whole with
      | None => Undefined
      | Some out =>
          if bitCount' =? 0 then Done out context'
          else if bitCount' <=? counterPhase then
            match nth_error buf from' with
            | None => Undefined
            | Some a =>
                Done (out ++ [uchar (Z.land (Z.shiftl a currPhase)
                                            (highMask (8 - bitCount')))])
                     context'
            end
          else
            match nth_error buf from', nth_error buf (S from') with
            | Some a, Some b =>
                Done (out ++
                      [uchar (Z.lor (Z.shiftl a currPhase)
                                (Z.shiftr
                                   (Z.land b (highMask (8 - (bitCount' - counterPhase))))
                                   counterPhase))])
                     context'
            | _, _ => Undefined
            end
      end.

(** A context the Python layer can build: offsets are [unsigned long]s and
    the limit lies within the buffer. *)
Definition valid (c : WKB_Context) : bool :=
  bytes_ok (liveBuffer c) && (0 <=? currBitOffset c) &&
  (bitLimit c <? 2 ^ 64) &&
  (bitLimit c <=? 8 * Z.of_nat (length (liveBuffer c))).


(** [PyBytes_FromStringAndSize (b, byteCount)] on the buffer that
    [BytesFromBits] filled with the bytes [written]: the string takes
    [byteCount] bytes, all of which must have been written. *)
Definition bytes_of_buffer (written : list Z) (byteCount : Z) : option PyObj :=
  if Z.of_nat (length written) =? byteCount then Some (PyBytes written)
  else None.

Definition wkb_UnpackBits (context : WKB_Context) (bitCount : Z)
  : outcome WKB_Context PyObj :=
  if negb (bitCount =? 0) then
    let byteCount := Z.shiftr (ulong (bitCount + 7)) 3 in
    match BytesFromBits context bitCount with
    | Done b context' =>
        match bytes_of_buffer b byteCount with
        | Some retVal => Done retVal context'
        | None => Undefined
        end
    | Raised e context' => Raised e context'
    | Undefined => Undefined
    end
  else Done (PyBytes []) context.

Definition wkb_Unpack (rob : bool) (context : WKB_Context)
  (format : list ascii) (coerce advance : bool) : outcome WKB_Context PyObj :=
  let startingBitOffset := currBitOffset context in
  let '(formatByteSize, itemCount) := FormatByteSize format in
  let retVal := PyTuple_New itemCount in
  match BytesFromBits context (ulong (8 * formatByteSize)) with
  | Raised e context' => Raised e context'
  | Undefined => Undefined
  | Done b context' =>
      match FormatProcess rob retVal b format 0 (isBigEndian context') with
      | Raised e _ => Raised e context'
      | Undefined => Undefined
      | Done _ retVal =>
          let context'' :=
            if negb advance
            then set_currBitOffset context' startingBitOffset
            else context' in
          if coerce && (itemCount =? 1) then
            match PySequence_GetItem0 retVal with
            | Some co => Done co context''
            | None => Undefined
            end
          else Done (PyTuple retVal) context''
      end
  end.

Definition wkb_SetOffset (context : WKB_Context) (signedBitOffset : Z)
  (relative okToExceed : bool) : outcome WKB_Context PyObj :=
  let signedBitOffset :=
    slong (signedBitOffset
           + slong (if relative then currBitOffset context
                    else origBitStart context)) in
  let bitOffset := ulong signedBitOffset in
  if negb (okToExceed ||
           ((bitOffset <? bitLimit context) && (0 <=? signedBitOffset)))
  then Raised IndexError context
  else Done PyNone (set_currBitOffset context bitOffset).

Definition wkb_Skip (context : WKB_Context) (bitsToSkip : Z)
  : outcome WKB_Context PyObj :=
  let curr := ulong (currBitOffset context + ulong bitsToSkip) in
  let curr :=
    if bitLimit context <? curr
    then (if bitsToSkip <? 0 then 0 else bitLimit context)
    else curr in
  Done PyNone (set_currBitOffset context curr).




(** [wkb_AbsRest]: the read goes through a temporary context that starts at
    the absolute bit [startBit] and keeps the limit of [context]. *)
Definition wkb_AbsRest (context : WKB_Context) (bitOffset : Z)
  : outcome WKB_Context PyObj :=
  let origFullBitSize :=
    ulong (Z.shiftl (Z.of_nat (length (liveBuffer context))) 3) in
  let startBit := ulong (origBitStart context + bitOffset) in
  if negb (startBit <? origFullBitSize) then Raised IndexError context
  else
    let tempContext :=
      mkWKB (liveBuffer context) 0 startBit (bitLimit context)
            (isBigEndian context) in
    let needBits := ulong (origFullBitSize - startBit) in
    let byteCount := Z.shiftr (ulong (needBits + 7)) 3 in
    match BytesFromBits tempContext needBits with
    | Done b _ =>
        match bytes_of_buffer b byteCount with
        | Some retVal => Done retVal context
        | None => Undefined
        end
    | Raised e _ => Raised e context
    | Undefined => Undefined
    end.

(** [wkb_Align]: the new offset is stored before it is checked against the
    limit; a multiple of zero divides by zero. *)
Definition wkb_Align (context : WKB_Context) (bitMultiple : Z)
  (absolute : bool) : outcome WKB_Context PyObj :=
  let adjust := if absolute then 0 else origBitStart context in
  let adjOff := ulong (currBitOffset context - adjust) in
  if bitMultiple =? 0 then Undefined
  else
    let context' :=
      set_currBitOffset context
        (ulong (ulong (ulong (ulong (adjOff + bitMultiple) - 1) / bitMultiple
                       * bitMultiple)
                + adjust)) in
    if currBitOffset context' <=? bitLimit context'
    then Done PyNone context'
    else Raised IndexError context'.

(** [wkb_AtEnd]: the truth value handed to [PyBool_FromLong]. *)
Definition wkb_AtEnd (context : WKB_Context) : bool :=
  bitLimit context <=? currBitOffset context.

(** [wkb_BitLength]: the unsigned difference. *)
Definition wkb_BitLength (context : WKB_Context) : Z :=
  ulong (bitLimit context - currBitOffset context).

Definition wkb_GetOffset (context : WKB_Context) (relative : bool) : Z :=
  if relative
  then ulong (currBitOffset context - origBitStart context)
  else currBitOffset context.

Definition wkb_Reset (context : WKB_Context) : WKB_Context :=
  set_currBitOffset context (origBitStart context).



(** [wkb_PascalString]: the length byte, then that many bytes. *)
Definition wkb_PascalString (context : WKB_Context)
  : outcome WKB_Context PyObj :=
  match BytesFromBits context 8 with
  | Done [lengthByte] context1 =>
      match BytesFromBits context1 (ulong (8 * lengthByte)) with
      | Done b context2 =>
          match bytes_of_buffer b lengthByte with
          | Some retVal => Done retVal context2
          | None => Undefined
          end
      | Raised e context2 => Raised e context2
      | Undefined => Undefined
      end
  | Done _ _ => Undefined
  | Raised e context1 => Raised e context1
  | Undefined => Undefined
  end.

(** [wkb_Piece]: the offset is saved, moved for the read and put back on
    both ways out. *)
Definition wkb_Piece (context : WKB_Context) (bitLength bitOffset : Z)
  (relative : bool) : outcome WKB_Context PyObj :=
  let bitOffset :=
    ulong (bitOffset + (if relative then currBitOffset context
                        else origBitStart context)) in
  if negb (ulong (bitOffset + bitLength) <=? bitLimit context)
  then Raised IndexError context
  else
    let byteLength := Z.shiftr (ulong (bitLength + 7)) 3 in
    let saveOffset := currBitOffset context in
    match BytesFromBits (set_currBitOffset context bitOffset) bitLength with
    | Done b context' =>
        match bytes_of_buffer b byteLength with
        | Some retVal => Done retVal (set_currBitOffset context' saveOffset)
        | None => Undefined
        end
    | Raised e context' => Raised e (set_currBitOffset context' saveOffset)
    | Undefined => Undefined
    end.

(** [PyLong_AsLong]: the value and whether an error is pending. *)
Definition PyLong_AsLong (n : Z) : Z * bool :=
  if (- 2 ^ 63 <=? n) && (n <? 2 ^ 63) then (n, false) else (-1, true).

(** [wkb_SubWalkerSetup]: the start, the limit and the byte-order character
    of the walker to be made ([newPyLimit] is [None] for [Py_None]); the
    start is handed to [Py_BuildValue] as a [long].

    When [PyLong_AsLong] fails it returns -1 with [OverflowError] pending.
    The test that follows looks for [0xFFFFFFFF], which is not what -1 is as
    a 64-bit [unsigned long], so the call goes on and returns its tuple with
    the error still pending; the interpreter turns a result that comes with
    a pending error into [SystemError]. *)
Definition wkb_SubWalkerSetup (context : WKB_Context) (bitOffset : Z)
  (relative anchor : bool) (newPyLimit : option Z)
  : outcome WKB_Context (Z * Z * ascii) :=
  let bitOffset :=
    if negb anchor
    then ulong (bitOffset + (if relative then currBitOffset context
                             else origBitStart context))
    else bitOffset in
  let pending :=
    match newPyLimit with
    | None => false
    | Some n => snd (PyLong_AsLong n)
    end in
  let newBitLimit :=
    match newPyLimit with
    | None => Some (bitLimit context)
    | Some n =>
        let '(v, err) := PyLong_AsLong n in
        let newBitLimit := ulong v in
        if (newBitLimit =? 0xFFFFFFFF) && err then None
        else if anchor then
          let origSize :=
            ulong (Z.shiftl (Z.of_nat (length (liveBuffer context))) 3) in
          let newBitLimit :=
            if newBitLimit =? 0 then origSize else newBitLimit in
          Some (if origSize <? newBitLimit then origSize else newBitLimit)
        else
          let newBitLimit :=
            if relative then ulong (newBitLimit + bitOffset)
            else newBitLimit in
          Some (if bitLimit context <? newBitLimit then bitLimit context
                else newBitLimit)
    end in
  match newBitLimit with
  | None => Raised OverflowError context
  | Some newBitLimit =>
      let bitOffset :=
        if newBitLimit <? bitOffset then newBitLimit else bitOffset in
      if pending then Raised SystemError context
      else
        Done (slong bitOffset, newBitLimit,
              if isBigEndian context then ">"%char else "<"%char)
             context
  end.

(** [wkb_UnpackBitsGroup].  The inner loop [while (walkCount--)]: [bWalk]
    is the index of the byte under the mask, [topBitOn] starts as [-1] and
    [t] is a Python integer. *)
Fixpoint BitsGroup_item (walkCount : nat) (b : list Z) (bWalk : nat)
  (mask topBitOn t : Z) : option (Z * Z * nat * Z) :=
  match walkCount with
  | O => Some (t, topBitOn, bWalk, mask)
  | S walkCount' =>
      match nth_error b bWalk with
      | None => None
      | Some x =>
          let on := negb (Z.land x mask =? 0) in
          let '(topBitOn, t) :=
            if topBitOn =? -1 then (Z.b2z on, t) else (topBitOn, t * 2) in
          let t := if on then t + 1 else t in
          let '(mask, bWalk) :=
            if mask =? 0x01 then (0x80, S bWalk)
            else (Z.shiftr mask 1, bWalk) in
          BitsGroup_item walkCount' b bWalk mask topBitOn t
      end
  end.

(** The outer loop [while (itemCount--)]. *)
Fixpoint BitsGroup_items (itemCount : nat) (bitCountPerItem : Z)
  (wantSigned : bool) (b : list Z) (bWalk : nat) (mask : Z)
  (retVal : list (option PyObj)) (walkIndex : Z)
  : option (option (list (option PyObj))) :=
  match itemCount with
  | O => Some (Some retVal)
  | S itemCount' =>
      match BitsGroup_item (Z.to_nat bitCountPerItem) b bWalk mask (-1) 0
      with
      | None => None
      | Some (t, topBitOn, bWalk', mask') =>
          let t :=
            if negb (topBitOn =? 0) && wantSigned
            then t - Z.shiftl 1 bitCountPerItem else t in
          match PyTuple_SetItem retVal walkIndex (PyLong t) with
          | None => Some None
          | Some retVal' =>
              BitsGroup_items itemCount' bitCountPerItem wantSigned b
                              bWalk' mask' retVal' (walkIndex + 1)
          end
      end
  end.

(** A request of zero bits in total returns an empty bytes object. *)
Definition wkb_UnpackBitsGroup (context : WKB_Context)
  (bitCountPerItem itemCount : Z) (wantSigned : bool)
  : outcome WKB_Context PyObj :=
  let totalBitsNeeded := ulong (bitCountPerItem * itemCount) in
  if negb (totalBitsNeeded =? 0) then
    match BytesFromBits context totalBitsNeeded with
    | Raised e context' => Raised e context'
    | Undefined => Undefined
    | Done b context' =>
        match BitsGroup_items (Z.to_nat itemCount) bitCountPerItem wantSigned
                              b 0 0x80 (PyTuple_New itemCount) 0 with
        | None => Undefined
        | Some None => Raised IndexError context'
        | Some (Some retVal) => Done (PyTuple retVal) context'
        end
    end
  else Done (PyBytes []) context.

End WalkerBit.

(** ** walker.c: StringWalker (byte offset and phase) *)

Module Walker.

Record WK_Context : Type := mkWK {
  liveBuffer : list Z;
  origStart : Z;
  currOffset : Z;
  limit : Z;
  isBigEndian : bool;
  phase : Z  (* always 0 through 7 *)
}.

Definition set_position (c : WK_Context) (off ph : Z) : WK_Context :=
  mkWK (liveBuffer c) (origStart c) off (limit c) (isBigEndian c) ph.

(** [while (byteCount--) *to++ = *from++;] *)
Fixpoint copy_bytes (buf : list Z) (from : nat) (byteCount : nat)
  : option (list Z) :=
  match byteCount with
  | O => Some []
  | S n' =>
      match nth_error buf from with
      | None => None
      | Some a =>
          match copy_bytes buf (S from) n' with
          | None => None
          | Some out => Some (a :: out)
          end
      end
  end.

(** [while (byteCount--)] at a nonzero phase: [thisByte] is an
    [unsigned char], so the shifted byte is truncated before the [|]. *)
Fixpoint shift_bytes (buf : list Z) (from : nat) (phase : Z) (byteCount : nat)
  : option (list Z) :=
  match byteCount with
  | O => Some []
  | S n' =>
      match nth_error buf from, nth_error buf (S from) with
      | Some a, Some b =>
          match shift_bytes buf (S from) phase n' with
          | None => None
          | Some out =>
              let thisByte := uchar (Z.shiftl a phase) in
              Some (uchar (Z.lor thisByte (Z.shiftr b (8 - phase))) :: out)
          end
      | _, _ => None
      end
  end.

Definition BytesFromBits (context : WK_Context) (bitCount : Z)
  : outcome WK_Context (list Z) :=
  let phase := phase context in
  let buf := liveBuffer context in
  let from := Z.to_nat (currOffset context) in
  let byteCount := Z.shiftr bitCount 3 in
  let savedByteCount := byteCount in
  let availableBits :=
    if currOffset context <? limit context
    then ulong (8 * (limit context - currOffset context) - phase)
    else 0 in
  if negb (bitCount <=? availableBits) then Raised IndexError context
  else
    let bitCount := Z.land bitCount 7 in
    let from' := (from + Z.to_nat byteCount)%nat in
    if negb (phase =? 0) then
      let counterPhase := 8 - phase in
      match shift_bytes buf from phase (Z.to_nat byteCount) with
      | None => Undefined
      | Some out =>
          if negb (bitCount =? 0) then
            if bitCount + phase <=? 8 then
              match nth_error buf from' with
              | None => Undefined
              | Some a =>
                  let thisByte := uchar (Z.shiftl a phase) in
                  let last := uchar (Z.land thisByte (highMask (8 - bitCount))) in
                  let phase' := phase + bitCount in
                  if phase' =? 8 then
                    Done (out ++ [last])
                         (set_position context
                            (ulong (currOffset context + (savedByteCount + 1))) 0)
                  else
                    Done (out ++ [last])
                         (set_position context
                            (ulong (currOffset context + savedByteCount)) phase')
              end
            else
              match nth_error buf from', nth_error buf (S from') with
              | Some a, Some b =>
                  let thisByte := uchar (Z.shiftl a phase) in
                  let thisByte2 :=
                    uchar (Z.shiftr
                             (Z.land b (highMask (16 - (bitCount + phase))))
                             counterPhase) in
                  Done (out ++ [uchar (Z.lor thisByte thisByte2)])
                       (set_position context
                          (ulong (currOffset context + (savedByteCount + 1)))
                          (bitCount + phase - 8))
              | _, _ => Undefined
              end
          else
            Done out
                 (set_position context
                    (ulong (currOffset context + savedByteCount)) phase)
      end
    else
      match copy_bytes buf from (Z.to_nat byteCount) with
      | None => Undefined
      | Some out =>
          if negb (bitCount =? 0) then
            match nth_error buf from' with
            | None => Undefined
            | Some a =>
                Done (out ++ [uchar (Z.land a (highMask (8 - bitCount)))])
                     (set_position context
                        (ulong (currOffset context + savedByteCount))
                        (schar bitCount))
            end
          else
            Done out
                 (set_position context
                    (ulong (currOffset context + savedByteCount)) phase)
      end.

Definition bitPosition (c : WK_Context) : Z := 8 * currOffset c + phase c.

(** A context the Python layer can build: the limit lies within the buffer
    (so [8 * limit] is far below [2 ^ 64]) and the phase is 0 through 7. *)
Definition valid (c : WK_Context) : bool :=
  bytes_ok (liveBuffer c) && (0 <=? currOffset c) &&
  (0 <=? phase c) && (phase c <? 8) &&
  (limit c <? 2 ^ 61) &&
  (limit c <=? Z.of_nat (length (liveBuffer c))).


Definition set_phase (c : WK_Context) (ph : Z) : WK_Context :=
  mkWK (liveBuffer c) (origStart c) (currOffset c) (limit c) (isBigEndian c) ph.

Definition set_currOffset (c : WK_Context) (off : Z) : WK_Context :=
  mkWK (liveBuffer c) (origStart c) off (limit c) (isBigEndian c) (phase c).

(** [PyBytes_FromStringAndSize (b, byteCount)], as in [walkerbit.c]. *)
Definition bytes_of_buffer (written : list Z) (byteCount : Z) : option PyObj :=
  if Z.of_nat (length written) =? byteCount then Some (PyBytes written)
  else None.

Definition wk_UnpackBits (context : WK_Context) (bitCount : Z)
  : outcome WK_Context PyObj :=
  if negb (bitCount =? 0) then
    let byteCount := Z.shiftr (ulong (bitCount + 7)) 3 in
    match BytesFromBits context bitCount with
    | Done b context' =>
        match bytes_of_buffer b byteCount with
        | Some retVal => Done retVal context'
        | None => Undefined
        end
    | Raised e context' => Raised e context'
    | Undefined => Undefined
    end
  else Done (PyBytes []) context.

(** Only [currOffset] is saved and restored for [advance = False]. *)
Definition wk_Unpack (rob : bool) (context : WK_Context)
  (format : list ascii) (coerce advance : bool) : outcome WK_Context PyObj :=
  let startingOffset := currOffset context in
  let '(formatByteSize, itemCount) := FormatByteSize format in
  let retVal := PyTuple_New itemCount in
  match BytesFromBits context (ulong (8 * formatByteSize)) with
  | Raised e context' => Raised e context'
  | Undefined => Undefined
  | Done b context' =>
      match FormatProcess rob retVal b format 0 (isBigEndian context') with
      | Raised e _ => Raised e context'
      | Undefined => Undefined
      | Done _ retVal =>
          let context'' :=
            if negb advance then set_currOffset context' startingOffset
            else context' in
          if coerce && (itemCount =? 1) then
            match PySequence_GetItem0 retVal with
            | Some co => Done co context''
            | None => Undefined
            end
          else Done (PyTuple retVal) context''
      end
  end.

(** The phase is cleared before the range check. *)
Definition wk_SetOffset (context : WK_Context) (offset : Z)
  (relative okToExceed : bool) : outcome WK_Context PyObj :=
  let context := set_phase context 0 in
  let offset :=
    slong (offset + (if relative then currOffset context
                     else origStart context)) in
  if negb (okToExceed ||
           ((ulong offset <? limit context) && (0 <=? offset)))
  then Raised IndexError context
  else Done PyNone (set_currOffset context (ulong offset)).

(** [byteCount] is an [unsigned long]; nothing is checked. *)
Definition wk_Skip (context : WK_Context) (byteCount : Z) (resetPhase : bool)
  : outcome WK_Context PyObj :=
  let context := set_currOffset context (ulong (currOffset context + byteCount)) in
  Done PyNone (if resetPhase then set_phase context 0 else context).

Definition wk_SkipBits (context : WK_Context) (bitCount : Z)
  : outcome WK_Context PyObj :=
  let byteCount := Z.shiftr bitCount 3 in
  let bitRemainder := schar (bitCount mod 8) in
  let context := set_currOffset context (ulong (currOffset context + byteCount)) in
  let context := set_phase context (schar (phase context + bitRemainder)) in
  if 7 <? phase context then
    let context := set_currOffset context (ulong (currOffset context + 1)) in
    Done PyNone (set_phase context (schar (phase context - 8)))
  else Done PyNone context.

(** [wk_Align]: a nonzero phase moves on to the next byte, then the offset
    is rounded up to a multiple; nothing is checked against the limit, and
    a multiple of zero divides by zero. *)
Definition wk_Align (context : WK_Context) (multiple : Z)
  : outcome WK_Context PyObj :=
  let context :=
    if negb (phase context =? 0)
    then set_currOffset (set_phase context 0)
                        (ulong (currOffset context + 1))
    else context in
  if multiple =? 0 then Undefined
  else
    let bytePhase := currOffset context mod multiple in
    if negb (bytePhase =? 0)
    then Done PyNone
              (set_currOffset context
                 (ulong (currOffset context + ulong (multiple - bytePhase))))
    else Done PyNone context.

(** [wk_AtEnd] tests for equality. *)
Definition wk_AtEnd (context : WK_Context) : bool :=
  currOffset context =? limit context.

(** [wk_BitLength]: both branches build the Python integer [n]. *)
Definition wk_BitLength (context : WK_Context) : Z :=
  ulong (ulong (8 * ulong (limit context - currOffset context))
         - uchar (phase context)).

(** [wk_Length] ignores the phase. *)
Definition wk_Length (context : WK_Context) (fromStart : bool) : Z :=
  ulong (limit context
         - (if fromStart then origStart context else currOffset context)).


(** [wk_Rest]: [byteCount] is a [Py_ssize_t]. *)
Definition wk_Rest (context : WK_Context) : outcome WK_Context PyObj :=
  let byteCount := slong (limit context - currOffset context) in
  match BytesFromBits context
          (ulong (ulong (8 * ulong byteCount) - phase context)) with
  | Done b context' =>
      match bytes_of_buffer b byteCount with
      | Some retVal => Done retVal context'
      | None => Undefined
      end
  | Raised e context' => Raised e context'
  | Undefined => Undefined
  end.




End Walker.

(** ** utilities.c *)

Module Utilities.

(** The body of [switch (c)] of [CalcSizeFromFormat]: the new [repeat],
    [size] and [*itemCount].  An unknown character leaves [repeat] as it
    is. *)
Definition CalcSizeFromFormat_switch (c : ascii) (repeat size itemCount : Z)
  : Z * Z * Z :=
  let repeat1 := if repeat =? 0 then 1 else repeat in
  match c with
  | "B" | "b" | "c" | "p" | "s" | "x" =>
      (0,
       ulong (size + repeat1),
       if (c =? "p") || (c =? "s") then ulong (itemCount + 1)
       else if negb (c =? "x") then ulong (itemCount + repeat1)
       else itemCount)
  | "H" | "h" =>
      (0, ulong (size + ulong (repeat1 * 2)), ulong (itemCount + repeat1))
  | "T" | "t" =>
      (0, ulong (size + ulong (repeat1 * 3)), ulong (itemCount + repeat1))
  | "f" | "I" | "i" | "L" | "l" =>
      (0, ulong (size + ulong (repeat1 * 4)), ulong (itemCount + repeat1))
  | "d" | "Q" | "q" =>
      (0, ulong (size + ulong (repeat1 * 8)), ulong (itemCount + repeat1))
  | _ => (repeat, size, itemCount)
  end%char.

(** [while (c)]: the walk stops at the terminating NUL, which is either the
    end of the list or a zero character inside it. *)
Fixpoint CalcSizeFromFormat_loop (format : list ascii)
  (repeat size itemCount : Z) : Z * Z :=
  match format with
  | [] => (size, itemCount)
  | c :: format' =>
      if (c =? "000")%char then (size, itemCount)
      else if is_digit c then
        CalcSizeFromFormat_loop format' (ulong (10 * repeat + digit_of c))
                                size itemCount
      else
        let '(repeat, size, itemCount) :=
          CalcSizeFromFormat_switch c repeat size itemCount in
        CalcSizeFromFormat_loop format' repeat size itemCount
  end.

Definition CalcSizeFromFormat (format : list ascii) : Z * Z :=
  CalcSizeFromFormat_loop format 0 0 0.

(** [GetNextRepeat] walks a pointer along the NUL-terminated format; the
    list holds the characters before the terminator, and stepping past the
    terminator reads outside the string ([None]). *)

Definition is_code (c : ascii) : bool :=
  match c with
  | "B" | "b" | "c" | "d" | "f" | "H" | "h" | "I" | "i" | "L" | "l" | "p"
  | "Q" | "q" | "s" | "T" | "t" | "x" => true
  | _ => false
  end%char.

(** First loop: up to a digit or a code. *)
Fixpoint skip_to_count (format : list ascii) : option (list ascii) :=
  match format with
  | [] => None
  | c :: format' =>
      if is_digit c || is_code c then Some format
      else skip_to_count format'
  end.

(** Second loop: the digits. *)
Fixpoint read_count (format : list ascii) (repeat : Z) : Z * list ascii :=
  match format with
  | [] => (repeat, [])
  | c :: format' =>
      if is_digit c
      then read_count format' (ulong (10 * repeat + digit_of c))
      else (repeat, format)
  end.

(** Third loop: up to a code. *)
Fixpoint skip_to_code (format : list ascii) : option (list ascii) :=
  match format with
  | [] => None
  | c :: format' =>
      if is_code c then Some format else skip_to_code format'
  end.

Definition GetNextRepeat (format : list ascii) : option (Z * list ascii) :=
  match skip_to_count format with
  | None => None
  | Some format1 =>
      let '(repeat, format2) := read_count format1 0 in
      let repeat := if repeat =? 0 then 1 else repeat in
      match skip_to_code format2 with
      | None => None
      | Some format3 => Some (repeat, format3)
      end
  end.

(** [strlen] on the bytes of a Python bytes object, which ends in a NUL. *)
Fixpoint strlen (s : list Z) : Z :=
  match s with
  | [] => 0
  | x :: s' => if x =? 0 then 0 else 1 + strlen s'
  end.

(** [PyLong_AsLong], [PyLong_AsLongLong]: a Python integer in range. *)
Definition PyLong_AsLong (arg : PyObj) : outcome unit Z :=
  match arg with
  | PyLong n =>
      if (- 2 ^ 63 <=? n) && (n <? 2 ^ 63) then Done n tt
      else Raised OverflowError tt
  | _ => Raised TypeError tt
  end.

(** [PyLong_AsUnsignedLong], [PyLong_AsUnsignedLongLong]. *)
Definition PyLong_AsUnsignedLong (arg : PyObj) : outcome unit Z :=
  match arg with
  | PyLong n =>
      if (0 <=? n) && (n <? 2 ^ 64) then Done n tt
      else Raised OverflowError tt
  | _ => Raised TypeError tt
  end.

(** The bytes of an argument that supports the buffer protocol. *)
Definition bytes_arg (arg : PyObj) : outcome unit (list Z) :=
  match arg with
  | PyBytes s => Done s tt
  | _ => Raised ValueError tt
  end.

(** [n >> 24], [n >> 16], ... each stored through [(char)]. *)
Definition big_endian_bytes (width : nat) (n : Z) : list Z :=
  map (fun k => uchar (Z.shiftr n (8 * Z.of_nat k))) (rev (seq 0 width)).

(** A range-checked integer of [width] bytes. *)
Definition pack_checked (lo hi : Z) (width : nat) (arg : PyObj)
  : outcome unit (list Z) :=
  match PyLong_AsLong arg with
  | Done n _ =>
      if (lo <=? n) && (n <? hi) then Done (big_endian_bytes width n) tt
      else Raised ValueError tt
  | Raised e _ => Raised e tt
  | Undefined => Undefined
  end.

(** An integer that is only converted, not range-checked. *)
Definition pack_converted (convert : PyObj -> outcome unit Z) (width : nat)
  (arg : PyObj) : outcome unit (list Z) :=
  match convert arg with
  | Done n _ => Done (big_endian_bytes width n) tt
  | Raised e _ => Raised e tt
  | Undefined => Undefined
  end.

Definition pack_c (arg : PyObj) : outcome unit (list Z) :=
  match bytes_arg arg with
  | Done cString _ =>
      if strlen cString =? 1 then Done (firstn 1 cString) tt
      else Raised ValueError tt
  | Raised e _ => Raised e tt
  | Undefined => Undefined
  end.

(** The Pascal string: the length byte, [cStringLen] bytes of the string,
    [leftOvers] zero bytes. *)
Definition pack_p (repeat : Z) (arg : PyObj) : outcome unit (list Z) :=
  match bytes_arg arg with
  | Done cString _ =>
      let cStringLen := strlen cString in
      let cStringLen :=
        if repeat <=? cStringLen then slong (ulong (repeat - 1))
        else cStringLen in
      let leftOvers := slong (ulong (repeat - 1 - cStringLen)) in
      if (cStringLen <? 0) || (leftOvers <? 0) then Undefined
      else
        Done (uchar (if 255 <? cStringLen then 255 else cStringLen)
              :: firstn (Z.to_nat cStringLen) cString
              ++ List.repeat 0 (Z.to_nat leftOvers))
             tt
  | Raised e _ => Raised e tt
  | Undefined => Undefined
  end.

Definition pack_s (repeat : Z) (arg : PyObj) : outcome unit (list Z) :=
  match bytes_arg arg with
  | Done cString _ =>
      let cStringLen := strlen cString in
      let leftOvers :=
        if repeat <? cStringLen then 0
        else if cStringLen <? repeat then slong (ulong (repeat - cStringLen))
        else 0 in
      let cStringLen :=
        if repeat <? cStringLen then slong repeat else cStringLen in
      if (cStringLen <? 0) || (leftOvers <? 0) then Undefined
      else
        Done (firstn (Z.to_nat cStringLen) cString
              ++ List.repeat 0 (Z.to_nat leftOvers))
             tt
  | Raised e _ => Raised e tt
  | Undefined => Undefined
  end.

(** The state of the main loop of [ut_Pack]: the bytes written through
    [walk] and the index [i] of the next argument. *)
Record Pack_State : Type := mkPack {
  written : list Z;
  next_arg : nat
}.

(** [while (count--)] around one argument. *)
Fixpoint pack_repeat (count : nat) (item : PyObj -> outcome unit (list Z))
  (args : list PyObj) (st : Pack_State) : outcome unit Pack_State :=
  match count with
  | O => Done st tt
  | S count' =>
      match nth_error args (next_arg st) with
      | None => Raised IndexError tt
      | Some arg =>
          match item arg with
          | Done bytes _ =>
              pack_repeat count' item args
                          (mkPack (written st ++ bytes) (S (next_arg st)))
          | Raised e _ => Raised e tt
          | Undefined => Undefined
          end
      end
  end.

(** [switch ( *formatWalk++ )] for the code [c] with [count = repeat]. *)
Definition ut_Pack_switch (c : ascii) (repeat : Z) (args : list PyObj)
  (st : Pack_State) : outcome unit Pack_State :=
  let count := Z.to_nat repeat in
  match c with
  | "B" => pack_repeat count (pack_checked 0 256 1) args st
  | "b" => pack_repeat count (pack_checked (-128) 128 1) args st
  | "c" => pack_repeat count pack_c args st
  | "H" => pack_repeat count (pack_checked 0 65536 2) args st
  | "h" => pack_repeat count (pack_checked (-32768) 32768 2) args st
  | "I" | "L" =>
      pack_repeat count (pack_converted PyLong_AsUnsignedLong 4) args st
  | "i" | "l" => pack_repeat count (pack_converted PyLong_AsLong 4) args st
  | "p" => pack_repeat 1 (pack_p repeat) args st
  | "Q" => pack_repeat count (pack_converted PyLong_AsUnsignedLong 8) args st
  | "q" => pack_repeat count (pack_converted PyLong_AsLong 8) args st
  | "s" => pack_repeat 1 (pack_s repeat) args st
  | "T" => pack_repeat count (pack_checked 0 16777216 3) args st
  | "t" => pack_repeat count (pack_checked (-8388608) 8388608 3) args st
  | "x" =>
      Done (mkPack (written st ++ List.repeat 0 count) (next_arg st)) tt
  | _ => Raised ValueError tt
  end%char.

(** [while ( *formatWalk )]; every pass consumes at least the code
    character, so the length of the format bounds the passes. *)
Fixpoint ut_Pack_loop (fuel : nat) (format : list ascii) (args : list PyObj)
  (st : Pack_State) : outcome unit Pack_State :=
  match format with
  | [] => Done st tt
  | c0 :: _ =>
      if (c0 =? "000")%char then Done st tt
      else
        match fuel with
        | O => Undefined
        | S fuel' =>
            match GetNextRepeat format with
            | None => Undefined
            | Some (repeat, []) => Undefined
            | Some (repeat, c :: format') =>
                match ut_Pack_switch c repeat args st with
                | Done st' _ => ut_Pack_loop fuel' format' args st'
                | Raised e _ => Raised e tt
                | Undefined => Undefined
                end
            end
        end
  end.

(** [ut_Pack (format, *args)]: [args] are the arguments after the format. *)
Definition ut_Pack (format : list ascii) (args : list PyObj)
  : outcome unit PyObj :=
  let '(byteSize, itemCount) := CalcSizeFromFormat format in
  if negb (itemCount =? Z.of_nat (length args)) then Raised ValueError tt
  else
    match ut_Pack_loop (length format) format args (mkPack [] 0) with
    | Done st _ =>
        if Z.of_nat (length (written st)) =? byteSize
        then Done (PyBytes (written st)) tt
        else Undefined
    | Raised e _ => Raised e tt
    | Undefined => Undefined
    end.

(** [ut_Checksum].  One 32-bit word of the sum: the bytes are promoted to
    [int], so [d[0] << 24] is an [int] that wraps to a negative value when
    [d[0] >= 0x80] (the behaviour gcc and clang define for it); the sum of
    the four terms is an [int] as well. *)
Definition checksum_word (d0 d1 d2 d3 : Z) : Z :=
  sint (sint (sint (sint (Z.shiftl d0 24) + Z.shiftl d1 16)
              + Z.shiftl d2 8)
        + d3).

(** [while (len >= 4)], then the tail of one to three bytes with
    [d[1] = d[2] = d[3] = 0]; [checksum += ...] converts the [int] to
    [unsigned long]. *)
Fixpoint Checksum_loop (walk : list Z) (checksum : Z) : Z :=
  match walk with
  | d0 :: d1 :: d2 :: d3 :: walk' =>
      Checksum_loop walk' (ulong (checksum + checksum_word d0 d1 d2 d3))
  | [] => checksum
  | [d0] => ulong (checksum + checksum_word d0 0 0 0)
  | [d0; d1] => ulong (checksum + checksum_word d0 d1 0 0)
  | [d0; d1; d2] => ulong (checksum + checksum_word d0 d1 d2 0)
  end.

(** [ut_Checksum (obj)]: the Python integer [checksum & 0xFFFFFFFF]; an
    object without the buffer protocol is refused. *)
Definition ut_Checksum (obj : PyObj) : outcome unit PyObj :=
  match obj with
  | PyBytes s => Done (PyLong (Z.land (Checksum_loop s 0) 0xFFFFFFFF)) tt
  | _ => Raised ValueError tt
  end.






End Utilities.

(** ** filewalker.c: the bit shift of the file walker

    [BitShiftLeftBuffer (p, bitsToShift, byteCount)] shifts the first
    [byteCount] bytes of [p] in place.  The bytes are promoted to [int], so
    the shifts are defined for [bitsToShift] up to 8; a [byteCount] of zero
    makes [--byteCount] wrap and the loop leave the buffer. *)

Module FileWalker.

(** [while (--byteCount)] for [n] passes, then the last byte.  Each pass
    reads the next byte before that byte is written. *)
Fixpoint BitShiftLeftBuffer_loop (p : list Z) (bitsToShift : Z) (n : nat)
  : option (list Z) :=
  match n, p with
  | O, thisByte :: rest =>
      Some (uchar (Z.shiftl thisByte bitsToShift) :: rest)
  | S n', thisByte :: ((nextByte :: _) as rest) =>
      match BitShiftLeftBuffer_loop rest bitsToShift n' with
      | Some rest' =>
          Some (uchar (Z.lor (Z.shiftl thisByte bitsToShift)
                             (Z.shiftr nextByte (8 - bitsToShift)))
                :: rest')
      | None => None
      end
  | _, _ => None
  end.

Definition BitShiftLeftBuffer (p : list Z) (bitsToShift byteCount : Z)
  : option (list Z) :=
  if (0 <=? bitsToShift) && (bitsToShift <=? 8) && (1 <=? byteCount)
  then BitShiftLeftBuffer_loop p bitsToShift (Z.to_nat (byteCount - 1))
  else None.

End FileWalker.


(** ** filewalkerbit.c: FileBitWalker

    Contexts that branch from one another share the [FILE] and the
    reference count through pointers, so the heap is explicit: the
    [unsigned long] cells that hold the counts, the contexts by address, the
    open files and the calls of [fclose] so far.  [PyMem_Malloc] hands out
    [nextContext]. *)

Module FileWalkerBit.

Record FWKB_Context : Type := mkFWKB {
  f : nat;
  refCount : nat;
  fileBitSize : Z;
  origBitStart : Z;
  currBitOffset : Z;
  bitLimit : Z;
  isBigEndian : bool
}.

Record Heap : Type := mkHeap {
  counters : nat -> option Z;
  contexts : nat -> option FWKB_Context;
  isOpen : nat -> bool;
  fcloseCalls : list nat;
  nextContext : nat
}.

Definition update {A : Type} (m : nat -> A) (k : nat) (v : A) : nat -> A :=
  fun k' => if Nat.eqb k' k then v else m k'.

(** [FreeContext]: [None] when the call has no defined behaviour (a
    dangling context or counter, a file closed twice). *)
Definition FreeContext (h : Heap) (context : nat) : option Heap :=
  match contexts h context with
  | None => None
  | Some c =>
      match counters h (refCount c) with
      | None => None
      | Some n =>
          let n' := ulong (n - 1) in
          let counters1 := update (counters h) (refCount c) (Some n') in
          if n' =? 0 then
            if isOpen h (f c) then
              Some (mkHeap (update counters1 (refCount c) None)
                           (update (contexts h) context None)
                           (update (isOpen h) (f c) false)
                           (f c :: fcloseCalls h)
                           (nextContext h))
            else None
          else
            Some (mkHeap counters1
                         (update (contexts h) context None)
                         (isOpen h)
                         (fcloseCalls h)
                         (nextContext h))
      end
  end.

(** [PyLong_AsLong]: the value and whether an error is pending. *)
Definition PyLong_AsLong (n : Z) : Z * bool :=
  if (- 2 ^ 63 <=? n) && (n <? 2 ^ 63) then (n, false) else (-1, true).

(** The limit of the new context; [None] stands for [Err_BadReturn]. *)
Definition newLimit (c : FWKB_Context) (bitOffset : Z)
  (relative anchor : bool) (newPyLimit : option Z) : option Z :=
  match newPyLimit with
  | None => Some (bitLimit c)
  | Some n =>
      let '(v, err) := PyLong_AsLong n in
      let newBitLimit := ulong v in
      if (newBitLimit =? 0xFFFFFFFF) && err then None
      else if anchor then
        let newBitLimit :=
          if newBitLimit =? 0 then fileBitSize c else newBitLimit in
        Some (if fileBitSize c <? newBitLimit then fileBitSize c
              else newBitLimit)
      else
        let newBitLimit :=
          if relative then ulong (newBitLimit + bitOffset)
          else newBitLimit in
        Some (if bitLimit c <? newBitLimit then bitLimit c else newBitLimit)
  end.

(** [fwkb_SubWalkerSetup]: the address of the new context, inside its
    capsule.

    When [PyLong_AsLong] fails it returns -1 with [OverflowError] pending.
    The test in [newLimit] looks for [0xFFFFFFFF], which is not what -1 is
    as a 64-bit [unsigned long], so the call goes on, makes the new context
    and returns its capsule with the error still pending.  The interpreter
    drops a result that comes with a pending error, which runs the capsule
    destructor, [FreeContext] on the new context, and raises
    [SystemError]. *)
Definition fwkb_SubWalkerSetup (h : Heap) (context : nat) (bitOffset : Z)
  (relative anchor : bool) (newPyLimit : option Z) : outcome Heap nat :=
  match contexts h context with
  | None => Undefined
  | Some c =>
      let bitOffset :=
        if negb anchor
        then ulong (bitOffset + (if relative then currBitOffset c
                                 else origBitStart c))
        else bitOffset in
      let pending :=
        match newPyLimit with
        | None => false
        | Some n => snd (PyLong_AsLong n)
        end in
      match newLimit c bitOffset relative anchor newPyLimit with
      | None => Raised OverflowError h
      | Some newBitLimit =>
          let bitOffset :=
            if newBitLimit <? bitOffset then newBitLimit else bitOffset in
          let newContext := nextContext h in
          let new :=
            mkFWKB (f c) (refCount c) (fileBitSize c) bitOffset bitOffset
                   newBitLimit (isBigEndian c) in
          match counters h (refCount c) with
          | None => Undefined
          | Some n =>
              let h' :=
                mkHeap (update (counters h) (refCount c)
                               (Some (ulong (n + 1))))
                       (update (contexts h) newContext (Some new))
                       (isOpen h)
                       (fcloseCalls h)
                       (S (nextContext h)) in
              if pending then
                match FreeContext h' newContext with
                | Some h'' => Raised SystemError h''
                | None => Undefined
                end
              else Done newContext h'
          end
      end
  end.

(** A live context: allocated below [nextContext], its counter cell holds a
    count and its file is open. *)
Definition live (h : Heap) (context : nat) (c : FWKB_Context) (n : Z) : Prop :=
  contexts h context = Some c /\
  (context < nextContext h)%nat /\
  counters h (refCount c) = Some n /\
  1 <= n < 2 ^ 64 - 1 /\
  isOpen h (f c) = true.

End FileWalkerBit.

(** ** Reference bit slice

    Bit [i] of a buffer is bit [7 - i mod 8] of byte [i / 8]: bits are numbered
    from the most significant bit of the first byte. *)

Definition bitAt (buf : list Z) (i : Z) : bool :=
  Z.testbit (nth (Z.to_nat (i / 8)) buf 0) (7 - i mod 8).

Definition byteOfBits (f : Z -> bool) : Z :=
  Z.b2z (f 0) * 128 + Z.b2z (f 1) * 64 + Z.b2z (f 2) * 32 + Z.b2z (f 3) * 16 +
  Z.b2z (f 4) * 8 + Z.b2z (f 5) * 4 + Z.b2z (f 6) * 2 + Z.b2z (f 7).

Definition byteLength (bitCount : Z) : Z := (bitCount + 7) / 8.

(** The manual slice: output byte [j] is assembled bit by bit from the [n]
    source bits that start at bit [start]; bits beyond the [n]th are zero. *)
Definition sliceByte (buf : list Z) (start n : Z) (j : nat) : Z :=
  byteOfBits (fun k => (8 * Z.of_nat j + k <? n) &&
                       bitAt buf (start + 8 * Z.of_nat j + k)).

Definition bitSlice (buf : list Z) (start n : Z) : list Z :=
  map (sliceByte buf start n) (seq 0 (Z.to_nat (byteLength n))).

(** Bit [t] (most significant first) of the two-byte window [a], [b]. *)
Definition window_bit (a b t : Z) : bool :=
  if t <? 8 then Z.testbit a (7 - t) else Z.testbit b (15 - t).

(** ** The format language as the specification words it

    A format string is a sequence of tokens: an optional decimal repeat count
    and one type code, or an endianness mark. *)

Inductive digit : Type := D0 | D1 | D2 | D3 | D4 | D5 | D6 | D7 | D8 | D9.

Inductive typeCode : Type :=
| TB | Tb | Tc | Tp | Ts | Tx
| TH | Th
| TT | Tt
| TI | Ti | TL | Tl | Tf
| TQ | Tq | Td.

Inductive endianMark : Type := MLess | MGreater | MBang | MAt | MEqual.

Inductive token : Type :=
| Field (count : list digit) (code : typeCode)
| Endian (mark : endianMark).

Definition digit_value (d : digit) : Z :=
  match d with
  | D0 => 0 | D1 => 1 | D2 => 2 | D3 => 3 | D4 => 4
  | D5 => 5 | D6 => 6 | D7 => 7 | D8 => 8 | D9 => 9
  end.

Definition digit_char (d : digit) : ascii :=
  match d with
  | D0 => "0" | D1 => "1" | D2 => "2" | D3 => "3" | D4 => "4"
  | D5 => "5" | D6 => "6" | D7 => "7" | D8 => "8" | D9 => "9"
  end%char.

Definition code_char (c : typeCode) : ascii :=
  match c with
  | TB => "B" | Tb => "b" | Tc => "c" | Tp => "p" | Ts => "s" | Tx => "x"
  | TH => "H" | Th => "h" | TT => "T" | Tt => "t"
  | TI => "I" | Ti => "i" | TL => "L" | Tl => "l" | Tf => "f"
  | TQ => "Q" | Tq => "q" | Td => "d"
  end%char.

Definition mark_char (m : endianMark) : ascii :=
  match m with
  | MLess => "<" | MGreater => ">" | MBang => "!" | MAt => "@" | MEqual => "="
  end%char.

Definition render_token (t : token) : list ascii :=
  match t with
  | Field count code => map digit_char count ++ [code_char code]
  | Endian mark => [mark_char mark]
  end.

Definition render (ts : list token) : list ascii :=
  flat_map render_token ts.

(** The decimal value of a digit string, continuing from [repeat]. *)
Definition count_from (repeat : Z) (ds : list digit) : Z :=
  fold_left (fun acc d => 10 * acc + digit_value d) ds repeat.

(** The decimal value of a digit string. *)
Definition count_value (ds : list digit) : Z := count_from 0 ds.

(** Byte size per unit: B/b/c/p/s/x 1, H/h 2, T/t 3, I/i/L/l/f 4, Q/q/d 8. *)
Definition unitSize (c : typeCode) : Z :=
  match c with
  | TB | Tb | Tc | Tp | Ts | Tx => 1
  | TH | Th => 2
  | TT | Tt => 3
  | TI | Ti | TL | Tl | Tf => 4
  | TQ | Tq | Td => 8
  end.

(** The repeat count as the specification has it: the written count,
    1 when the count is omitted. *)
Definition repeatCount_spec (count : list digit) : Z :=
  match count with
  | [] => 1
  | _ => count_value count
  end.

(** The repeat count as the code has it: a count of zero, written or
    omitted, is taken as 1. *)
Definition repeatCount (count : list digit) : Z :=
  if count_value count =? 0 then 1 else count_value count.

Definition itemsOf (repeat : Z) (c : typeCode) : Z :=
  match c with
  | Tp | Ts => 1
  | Tx => 0
  | _ => repeat
  end.

Definition byteSize_with (rc : list digit -> Z) (ts : list token) : Z :=
  fold_right
    (fun t acc =>
       match t with
       | Field count code => unitSize code * rc count + acc
       | Endian _ => acc
       end) 0 ts.

Definition itemCount_with (rc : list digit -> Z) (ts : list token) : Z :=
  fold_right
    (fun t acc =>
       match t with
       | Field count code => itemsOf (rc count) code + acc
       | Endian _ => acc
       end) 0 ts.

(** ** The grammar of the specification

    Every token is an optional decimal repeat count followed by one
    character, a type code or an endianness mark: a mark may carry a count
    as well. *)

Inductive tokenChar : Type :=
| CodeChar (code : typeCode)
| MarkChar (mark : endianMark).

Inductive grammarToken : Type :=
| Counted (count : list digit) (ch : tokenChar).

Definition tokenChar_char (ch : tokenChar) : ascii :=
  match ch with
  | CodeChar code => code_char code
  | MarkChar mark => mark_char mark
  end.

Definition render_grammar (ts : list grammarToken) : list ascii :=
  flat_map (fun t => match t with
                     | Counted count ch =>
                         map digit_char count ++ [tokenChar_char ch]
                     end) ts.

(** The table: a type code counts its unit size times its repeat count, a
    mark is zero-width whatever its count. *)
Definition grammar_byteSize (rc : list digit -> Z) (ts : list grammarToken)
  : Z :=
  fold_right
    (fun t acc =>
       match t with
       | Counted count (CodeChar code) => unitSize code * rc count + acc
       | Counted _ (MarkChar _) => acc
       end) 0 ts.

Definition grammar_itemCount (rc : list digit -> Z) (ts : list grammarToken)
  : Z :=
  fold_right
    (fun t acc =>
       match t with
       | Counted count (CodeChar code) => itemsOf (rc count) code + acc
       | Counted _ (MarkChar _) => acc
       end) 0 ts.

(** ** 64-bit decoding as the specification words it *)

(** The 32-bit value of four bytes, most significant first. *)
Definition be32 (b0 b1 b2 b3 : Z) : Z :=
  b0 * 2 ^ 24 + b1 * 2 ^ 16 + b2 * 2 ^ 8 + b3.

(** The high and the low half of eight bytes in the requested byte order. *)
Definition highHalf (isBigEndian : bool) (b0 b1 b2 b3 b4 b5 b6 b7 : Z) : Z :=
  if isBigEndian then be32 b0 b1 b2 b3 else be32 b7 b6 b5 b4.

Definition lowHalf (isBigEndian : bool) (b0 b1 b2 b3 b4 b5 b6 b7 : Z) : Z :=
  if isBigEndian then be32 b4 b5 b6 b7 else be32 b3 b2 b1 b0.

(** ** The checksum as a sum of words

    The sum of the big-endian 32-bit words of a byte string whose last word
    is filled up with zero bytes. *)
Fixpoint word_sum (s : list Z) : Z :=
  match s with
  | b0 :: b1 :: b2 :: b3 :: s' => be32 b0 b1 b2 b3 + word_sum s'
  | [] => 0
  | [b0] => be32 b0 0 0 0
  | [b0; b1] => be32 b0 b1 0 0
  | [b0; b1; b2] => be32 b0 b1 b2 0
  end.



(** ** Bit fields as integers

    The value of the [n] bits of [buf] that start at bit [start], most
    significant first, on top of the value [acc] of the bits before
    them. *)
Fixpoint bits_value (buf : list Z) (start : Z) (n : nat) (acc : Z) : Z :=
  match n with
  | O => acc
  | S n' => bits_value buf (start + 1) n' (2 * acc + Z.b2z (bitAt buf start))
  end.

(** The field of [n] bits at [start] read as an unsigned integer or, when
    [wantSigned], as a two's-complement one. *)
Definition field_value (buf : list Z) (start n : Z) (wantSigned : bool) : Z :=
  let u := bits_value buf start (Z.to_nat n) 0 in
  if wantSigned && bitAt buf start then u - 2 ^ n else u.




(** ** Packing integers

    The values each integer code of [ut_Pack] takes without loss. *)
Definition fits (c : typeCode) (v : Z) : bool :=
  match c with
  | TB => (0 <=? v) && (v <? 2 ^ 8)
  | Tb => (- 2 ^ 7 <=? v) && (v <? 2 ^ 7)
  | TH => (0 <=? v) && (v <? 2 ^ 16)
  | Th => (- 2 ^ 15 <=? v) && (v <? 2 ^ 15)
  | TT => (0 <=? v) && (v <? 2 ^ 24)
  | Tt => (- 2 ^ 23 <=? v) && (v <? 2 ^ 23)
  | TI | TL => (0 <=? v) && (v <? 2 ^ 32)
  | Ti | Tl => (- 2 ^ 31 <=? v) && (v <? 2 ^ 31)
  | TQ => (0 <=? v) && (v <? 2 ^ 64)
  | Tq => (- 2 ^ 63 <=? v) && (v <? 2 ^ 63)
  | _ => false
  end.

(** The integers [vs] are the arguments that a format of integer and pad
    fields asks for, each within the range of its code. *)
Fixpoint packable (ts : list token) (vs : list Z) : bool :=
  match ts with
  | [] => match vs with [] => true | _ => false end
  | Endian _ :: _ => false
  | Field count Tx :: ts' => packable ts' vs
  | Field count code :: ts' =>
      let n := Z.to_nat (repeatCount count) in
      (n <=? length vs)%nat && forallb (fits code) (firstn n vs)
      && packable ts' (skipn n vs)
  end.

(** The bytes of the packed arguments: every integer most significant byte
    first in the width of its code, zero bytes for the pad fields. *)
Fixpoint packed (ts : list token) (vs : list Z) : list Z :=
  match ts with
  | [] => []
  | Endian _ :: ts' => packed ts' vs
  | Field count Tx :: ts' =>
      List.repeat 0 (Z.to_nat (repeatCount count)) ++ packed ts' vs
  | Field count code :: ts' =>
      let n := Z.to_nat (repeatCount count) in
      flat_map (Utilities.big_endian_bytes (Z.to_nat (unitSize code)))
               (firstn n vs)
      ++ packed ts' (skipn n vs)
  end.


(** A heap with one file walker over file 3: one context at address 0, its
    counter in cell 7. *)
Definition oneWalker : FileWalkerBit.Heap :=
  FileWalkerBit.mkHeap
    (fun k => if Nat.eqb k 7 then Some 1 else None)
    (fun k => if Nat.eqb k 0
              then Some (FileWalkerBit.mkFWKB 3 7 64 8 24 64 true)
              else None)
    (fun k => Nat.eqb k 3)
    []
    1.


(* ================================================================== *)
(** * Proofs *)

(** ** Bytes and bits *)

Lemma is_byte_range (b : Z) : is_byte b = true <-> 0 <= b < 256.
Proof. unfold is_byte. rewrite andb_true_iff, Z.leb_le, Z.ltb_lt. tauto. Qed.

Lemma bytes_ok_nth_error (l : list Z) (i : nat) (b : Z) :
  bytes_ok l = true -> nth_error l i = Some b -> 0 <= b < 256.
Proof.
  unfold bytes_ok. rewrite forallb_forall. intros Hall Hnth.
  apply is_byte_range, Hall. eapply nth_error_In; eauto.
Qed.

Lemma bytes_ok_nth (l : list Z) (i : nat) :
  bytes_ok l = true -> 0 <= nth i l 0 < 256.
Proof.
  intros Hok. destruct (nth_error l i) as [b|] eqn:E.
  - rewrite (nth_error_nth _ _ _ E). eauto using bytes_ok_nth_error.
  - apply nth_error_None in E. rewrite nth_overflow by lia. lia.
Qed.

Lemma nth_error_nth_lt (l : list Z) (i : nat) :
  (i < length l)%nat -> nth_error l i = Some (nth i l 0).
Proof.
  intros H. destruct (nth_error l i) as [b|] eqn:E.
  - now rewrite (nth_error_nth _ _ _ E).
  - apply nth_error_None in E. lia.
Qed.

Lemma byte_testbit_high (b i : Z) :
  0 <= b < 256 -> 8 <= i -> Z.testbit b i = false.
Proof.
  intros Hb Hi. rewrite <- (Z.mod_small b (2 ^ 8)) by (change (2 ^ 8) with 256; lia).
  apply Z.mod_pow2_bits_high. lia.
Qed.

Lemma uchar_range (x : Z) : 0 <= uchar x < 256.
Proof. unfold uchar. change (2 ^ 8) with 256. apply Z.mod_pos_bound. lia. Qed.

Lemma uchar_testbit (x i : Z) :
  0 <= i < 8 -> Z.testbit (uchar x) i = Z.testbit x i.
Proof. intros Hi. unfold uchar. apply Z.mod_pow2_bits_low. lia. Qed.

Lemma uchar_small (x : Z) : 0 <= x < 256 -> uchar x = x.
Proof. intros H. unfold uchar. apply Z.mod_small. change (2 ^ 8) with 256. lia. Qed.

Lemma byteOfBits_range (f : Z -> bool) : 0 <= byteOfBits f < 256.
Proof.
  unfold byteOfBits.
  destruct (f 0), (f 1), (f 2), (f 3), (f 4), (f 5), (f 6), (f 7);
    cbn; lia.
Qed.

Lemma below8_cases (k : Z) :
  0 <= k < 8 ->
  k = 0 \/ k = 1 \/ k = 2 \/ k = 3 \/ k = 4 \/ k = 5 \/ k = 6 \/ k = 7.
Proof. lia. Qed.

Lemma byteOfBits_testbit (f : Z -> bool) (k : Z) :
  0 <= k < 8 -> Z.testbit (byteOfBits f) (7 - k) = f k.
Proof.
  intros Hk. unfold byteOfBits.
  destruct (below8_cases k Hk) as [E|[E|[E|[E|[E|[E|[E|E]]]]]]]; subst k;
    destruct (f 0), (f 1), (f 2), (f 3), (f 4), (f 5), (f 6), (f 7);
    reflexivity.
Qed.

(** A byte is determined by its eight bits, most significant first. *)
Lemma byte_ext (x : Z) (f : Z -> bool) :
  0 <= x < 256 ->
  (forall k, 0 <= k < 8 -> Z.testbit x (7 - k) = f k) ->
  x = byteOfBits f.
Proof.
  intros Hx Hbits. apply Z.bits_inj'. intros i Hi.
  destruct (Z_lt_ge_dec i 8) as [Hlt|Hge].
  - replace i with (7 - (7 - i)) by lia.
    rewrite Hbits, byteOfBits_testbit by lia. reflexivity.
  - rewrite !byte_testbit_high; auto using byteOfBits_range. lia. lia.
Qed.

Lemma highMask_testbit (m i : Z) :
  0 <= m < 8 -> 0 <= i < 8 -> Z.testbit (highMask m) i = (m <=? i).
Proof.
  intros Hm Hi.
  destruct (below8_cases m Hm) as [E|[E|[E|[E|[E|[E|[E|E]]]]]]]; subst m;
    destruct (below8_cases i Hi) as [E|[E|[E|[E|[E|[E|[E|E]]]]]]]; subst i;
    reflexivity.
Qed.

Lemma bitAt_split (buf : list Z) (q : nat) (r : Z) :
  0 <= r < 8 ->
  bitAt buf (8 * Z.of_nat q + r) = Z.testbit (nth q buf 0) (7 - r).
Proof.
  intros Hr. unfold bitAt.
  replace ((8 * Z.of_nat q + r) / 8) with (Z.of_nat q)
    by (apply Z.div_unique with r; lia).
  replace ((8 * Z.of_nat q + r) mod 8) with r
    by (apply Z.mod_unique with (Z.of_nat q); lia).
  now rewrite Nat2Z.id.
Qed.

Lemma bitAt_window (buf : list Z) (q : nat) (t : Z) :
  0 <= t < 16 ->
  bitAt buf (8 * Z.of_nat q + t) = window_bit (nth q buf 0) (nth (S q) buf 0) t.
Proof.
  intros Ht. unfold window_bit. destruct (Z.ltb_spec t 8).
  - apply bitAt_split. lia.
  - replace (8 * Z.of_nat q + t) with (8 * Z.of_nat (S q) + (t - 8)) by lia.
    rewrite bitAt_split by lia. f_equal. lia.
Qed.

Ltac push_testbit :=
  repeat first
    [ rewrite uchar_testbit by lia
    | rewrite Z.lor_spec
    | rewrite Z.land_spec
    | rewrite Z.shiftl_spec by lia
    | rewrite Z.shiftr_spec by lia ].

(** Whole byte at phase [p]: [a << p | b >> (8 - p)]. *)
Lemma shifted_byte_bits (a b p k : Z) :
  0 <= a < 256 -> 0 <= b < 256 -> 1 <= p <= 7 -> 0 <= k < 8 ->
  Z.testbit (Z.lor (Z.shiftl a p) (Z.shiftr b (8 - p))) (7 - k)
  = window_bit a b (p + k).
Proof.
  intros Ha Hb Hp Hk. unfold window_bit. push_testbit.
  destruct (Z.ltb_spec (p + k) 8).
  - rewrite (byte_testbit_high b) by lia. rewrite orb_false_r. f_equal. lia.
  - rewrite (Z.testbit_neg_r a) by lia. rewrite orb_false_l. f_equal. lia.
Qed.

(** Last byte when the remaining [r] bits lie in the current byte. *)
Lemma masked_byte_bits (a b p r k : Z) :
  0 <= a < 256 -> 0 <= p <= 7 -> 1 <= r <= 7 -> r + p <= 8 -> 0 <= k < 8 ->
  Z.testbit (Z.land (Z.shiftl a p) (highMask (8 - r))) (7 - k)
  = (k <? r) && window_bit a b (p + k).
Proof.
  intros Ha Hp Hr Hrp Hk. unfold window_bit. push_testbit.
  rewrite highMask_testbit by lia.
  destruct (Z.ltb_spec k r).
  - replace (8 - r <=? 7 - k) with true by (symmetry; apply Z.leb_le; lia).
    destruct (Z.ltb_spec (p + k) 8); [|lia].
    rewrite andb_true_r, andb_true_l. f_equal. lia.
  - replace (8 - r <=? 7 - k) with false by (symmetry; apply Z.leb_gt; lia).
    now rewrite andb_false_r.
Qed.

(** Last byte when the remaining [r] bits spill into the next byte. *)
Lemma spilled_byte_bits (a b p r k : Z) :
  0 <= a < 256 -> 0 <= b < 256 -> 1 <= p <= 7 -> 1 <= r <= 7 -> 8 < r + p ->
  0 <= k < 8 ->
  Z.testbit
    (Z.lor (Z.shiftl a p)
           (Z.shiftr (Z.land b (highMask (16 - (r + p)))) (8 - p))) (7 - k)
  = (k <? r) && window_bit a b (p + k).
Proof.
  intros Ha Hb Hp Hr Hrp Hk. unfold window_bit. push_testbit.
  destruct (Z.ltb_spec (p + k) 8).
  - rewrite (byte_testbit_high b) by lia. rewrite andb_false_l, orb_false_r.
    replace (k <? r) with true by (symmetry; apply Z.ltb_lt; lia).
    rewrite andb_true_l. f_equal. lia.
  - rewrite (Z.testbit_neg_r a) by lia. rewrite orb_false_l.
    rewrite highMask_testbit by lia.
    replace (7 - k + (8 - p)) with (15 - (p + k)) by lia.
    rewrite andb_comm. f_equal.
    destruct (Z.ltb_spec k r).
    + apply Z.leb_le. lia.
    + apply Z.leb_gt. lia.
Qed.

(** ** Arithmetic of offsets *)

Lemma div8_split (w : nat) (r : Z) :
  0 <= r < 8 -> (8 * Z.of_nat w + r) / 8 = Z.of_nat w.
Proof. intros. symmetry. apply Z.div_unique with r; lia. Qed.

Lemma mod8_split (w : nat) (r : Z) :
  0 <= r < 8 -> (8 * Z.of_nat w + r) mod 8 = r.
Proof. intros. symmetry. apply Z.mod_unique with (Z.of_nat w); lia. Qed.

Lemma shiftr3_split (w : nat) (r : Z) :
  0 <= r < 8 -> Z.shiftr (8 * Z.of_nat w + r) 3 = Z.of_nat w.
Proof.
  intros. rewrite Z.shiftr_div_pow2 by lia. change (2 ^ 3) with 8.
  now apply div8_split.
Qed.

Lemma land7_split (w : nat) (r : Z) :
  0 <= r < 8 -> Z.land (8 * Z.of_nat w + r) 7 = r.
Proof.
  intros. change 7 with (Z.ones 3). rewrite Z.land_ones by lia.
  change (2 ^ 3) with 8. now apply mod8_split.
Qed.

Lemma ulong_small (x : Z) : 0 <= x < 2 ^ 64 -> ulong x = x.
Proof. intros. unfold ulong. now apply Z.mod_small. Qed.

(** Remove every [ulong] whose argument is in range, innermost included. *)
Ltac ulong_simpl :=
  repeat match goal with
    | |- context [ulong ?x] => rewrite (ulong_small x) by lia
    end.

Lemma byteLength_whole (w : nat) : byteLength (8 * Z.of_nat w) = Z.of_nat w.
Proof.
  unfold byteLength. symmetry. apply Z.div_unique with 7; lia.
Qed.

Lemma byteLength_partial (w : nat) (r : Z) :
  1 <= r < 8 -> byteLength (8 * Z.of_nat w + r) = Z.of_nat (S w).
Proof.
  intros. unfold byteLength. symmetry. apply Z.div_unique with (r - 1); lia.
Qed.

(** ** The reference slice *)

Lemma nth_map_seq {A : Type} (f : nat -> A) (m j : nat) (d : A) :
  (j < m)%nat -> nth j (map f (seq 0 m)) d = f j.
Proof.
  intros Hj. rewrite nth_indep with (d' := f 0%nat)
    by (rewrite length_map, length_seq; exact Hj).
  rewrite map_nth, seq_nth by exact Hj. reflexivity.
Qed.

Lemma bitSlice_length (buf : list Z) (start n : Z) :
  Z.of_nat (length (bitSlice buf start n)) = Z.max 0 (byteLength n).
Proof. unfold bitSlice. rewrite length_map, length_seq. lia. Qed.

Lemma bitSlice_bytes_ok (buf : list Z) (start n : Z) :
  bytes_ok (bitSlice buf start n) = true.
Proof.
  unfold bytes_ok, bitSlice. apply forallb_forall. intros x Hx.
  apply in_map_iff in Hx. destruct Hx as [j [<- _]].
  apply is_byte_range, byteOfBits_range.
Qed.

(** Bit [i] of the slice is source bit [start + i] when [i < n], else zero. *)
Lemma bitSlice_bitAt (buf : list Z) (start n i : Z) :
  0 <= i < 8 * byteLength n ->
  bitAt (bitSlice buf start n) i = (i <? n) && bitAt buf (start + i).
Proof.
  intros Hi.
  set (j := Z.to_nat (i / 8)). set (k := i mod 8).
  assert (Hk : 0 <= k < 8) by (apply Z.mod_pos_bound; lia).
  assert (Hi8 : i = 8 * Z.of_nat j + k).
  { unfold j, k. rewrite Z2Nat.id by (apply Z.div_pos; lia).
    apply Z.div_mod. lia. }
  assert (Hj : (j < Z.to_nat (byteLength n))%nat).
  { apply Nat2Z.inj_lt. rewrite Z2Nat.id by lia. lia. }
  rewrite Hi8 at 1. rewrite bitAt_split by exact Hk.
  unfold bitSlice. rewrite nth_map_seq by exact Hj.
  unfold sliceByte. rewrite byteOfBits_testbit by exact Hk.
  rewrite Hi8. f_equal. f_equal. lia.
Qed.

Lemma sliceByte_intro (buf : list Z) (start n : Z) (j : nat) (x : Z) :
  0 <= x < 256 ->
  (forall k, 0 <= k < 8 ->
     Z.testbit x (7 - k)
     = (8 * Z.of_nat j + k <? n) && bitAt buf (start + 8 * Z.of_nat j + k)) ->
  x = sliceByte buf start n j.
Proof. intros Hx Hbits. unfold sliceByte. now apply byte_ext. Qed.

Lemma bitSlice_whole (buf : list Z) (start : Z) (w : nat) :
  bitSlice buf start (8 * Z.of_nat w)
  = map (sliceByte buf start (8 * Z.of_nat w)) (seq 0 w).
Proof. unfold bitSlice. now rewrite byteLength_whole, Nat2Z.id. Qed.

Lemma bitSlice_partial (buf : list Z) (start : Z) (w : nat) (r : Z) :
  1 <= r < 8 ->
  bitSlice buf start (8 * Z.of_nat w + r)
  = map (sliceByte buf start (8 * Z.of_nat w + r)) (seq 0 w)
    ++ [sliceByte buf start (8 * Z.of_nat w + r) w].
Proof.
  intros Hr. unfold bitSlice.
  rewrite byteLength_partial, Nat2Z.id, seq_S, map_app by exact Hr.
  reflexivity.
Qed.

(** The three kinds of output byte, against the reference. *)

Lemma ltb_true_intro (x y : Z) : x < y -> (x <? y) = true.
Proof. apply Z.ltb_lt. Qed.

Lemma whole_byte_aligned (buf : list Z) (q w j : nat) (r : Z) :
  bytes_ok buf = true -> 0 <= r < 8 -> (j < w)%nat ->
  nth (q + j) buf 0
  = sliceByte buf (8 * Z.of_nat q) (8 * Z.of_nat w + r) j.
Proof.
  intros Hok Hr Hj. apply sliceByte_intro; [now apply bytes_ok_nth|].
  intros k Hk. rewrite ltb_true_intro, andb_true_l by lia.
  replace (8 * Z.of_nat q + 8 * Z.of_nat j + k)
    with (8 * Z.of_nat (q + j) + k) by lia.
  now rewrite bitAt_split.
Qed.

Lemma whole_byte_shifted (buf : list Z) (q w j : nat) (p r : Z) :
  bytes_ok buf = true -> 1 <= p <= 7 -> 0 <= r < 8 -> (j < w)%nat ->
  Z.lor (Z.shiftl (nth (q + j) buf 0) p)
        (Z.shiftr (nth (S (q + j)) buf 0) (8 - p))
  mod 2 ^ 8
  = sliceByte buf (8 * Z.of_nat q + p) (8 * Z.of_nat w + r) j.
Proof.
  intros Hok Hp Hr Hj. apply sliceByte_intro; [apply uchar_range|].
  intros k Hk. rewrite ltb_true_intro, andb_true_l by lia.
  replace (8 * Z.of_nat q + p + 8 * Z.of_nat j + k)
    with (8 * Z.of_nat (q + j) + (p + k)) by lia.
  rewrite bitAt_window by lia.
  change (?x mod 2 ^ 8) with (uchar x). rewrite uchar_testbit by lia.
  apply shifted_byte_bits; auto using bytes_ok_nth.
Qed.

Lemma last_byte_masked (buf : list Z) (q w : nat) (p r : Z) :
  bytes_ok buf = true -> 0 <= p <= 7 -> 1 <= r <= 7 -> r + p <= 8 ->
  Z.land (Z.shiftl (nth (q + w) buf 0) p) (highMask (8 - r)) mod 2 ^ 8
  = sliceByte buf (8 * Z.of_nat q + p) (8 * Z.of_nat w + r) w.
Proof.
  intros Hok Hp Hr Hrp. apply sliceByte_intro; [apply uchar_range|].
  intros k Hk.
  replace (8 * Z.of_nat q + p + 8 * Z.of_nat w + k)
    with (8 * Z.of_nat (q + w) + (p + k)) by lia.
  rewrite bitAt_window by lia.
  change (?x mod 2 ^ 8) with (uchar x). rewrite uchar_testbit by lia.
  rewrite masked_byte_bits with (b := nth (S (q + w)) buf 0)
    by auto using bytes_ok_nth.
  f_equal. destruct (Z.ltb_spec k r); symmetry; [apply Z.ltb_lt|apply Z.ltb_ge]; lia.
Qed.

Lemma last_byte_spilled (buf : list Z) (q w : nat) (p r : Z) :
  bytes_ok buf = true -> 1 <= p <= 7 -> 1 <= r <= 7 -> 8 < r + p ->
  Z.lor (Z.shiftl (nth (q + w) buf 0) p)
        (Z.shiftr (Z.land (nth (S (q + w)) buf 0) (highMask (16 - (r + p))))
                  (8 - p))
  mod 2 ^ 8
  = sliceByte buf (8 * Z.of_nat q + p) (8 * Z.of_nat w + r) w.
Proof.
  intros Hok Hp Hr Hrp. apply sliceByte_intro; [apply uchar_range|].
  intros k Hk.
  replace (8 * Z.of_nat q + p + 8 * Z.of_nat w + k)
    with (8 * Z.of_nat (q + w) + (p + k)) by lia.
  rewrite bitAt_window by lia.
  change (?x mod 2 ^ 8) with (uchar x). rewrite uchar_testbit by lia.
  rewrite spilled_byte_bits by auto using bytes_ok_nth.
  f_equal. destruct (Z.ltb_spec k r); symmetry; [apply Z.ltb_lt|apply Z.ltb_ge]; lia.
Qed.

(** ** walkerbit.c: the extraction loops *)

Lemma map_seq_shift {A : Type} (f : nat -> A) (n : nat) :
  map f (seq 1 n) = map (fun j => f (S j)) (seq 0 n).
Proof. now rewrite <- seq_shift, map_map. Qed.

Lemma wkb_copy_bytes_spec (buf : list Z) (n from : nat) :
  (from + n <= length buf)%nat ->
  WalkerBit.copy_bytes buf from n
  = Some (map (fun j => nth (from + j) buf 0) (seq 0 n)).
Proof.
  revert from. induction n as [|n IH]; intros from Hlen; [reflexivity|].
  cbn [WalkerBit.copy_bytes]. rewrite nth_error_nth_lt by lia.
  rewrite IH by lia. f_equal. cbn [seq map]. rewrite Nat.add_0_r. f_equal.
  rewrite map_seq_shift. apply map_ext. intros j. f_equal. lia.
Qed.

Lemma wkb_shift_bytes_spec (buf : list Z) (p : Z) (n from : nat) :
  (0 < n -> from + n < length buf)%nat ->
  WalkerBit.shift_bytes buf from p n
  = Some (map (fun j =>
                 uchar (Z.lor (Z.shiftl (nth (from + j) buf 0) p)
                              (Z.shiftr (nth (S (from + j)) buf 0) (8 - p))))
              (seq 0 n)).
Proof.
  revert from. induction n as [|n IH]; intros from Hlen; [reflexivity|].
  cbn [WalkerBit.shift_bytes]. rewrite !nth_error_nth_lt by lia.
  rewrite IH by lia. f_equal. cbn [seq map]. rewrite Nat.add_0_r. f_equal.
  rewrite map_seq_shift. apply map_ext. intros j.
  now replace (S from + j)%nat with (from + S j)%nat by lia.
Qed.

Lemma wkb_BytesFromBits_core
  (buf : list Z) (orig lim : Z) (be : bool) (q w : nat) (p r : Z) :
  bytes_ok buf = true ->
  0 <= p < 8 -> 0 <= r < 8 ->
  8 * Z.of_nat q + p + (8 * Z.of_nat w + r) <= lim ->
  lim < 2 ^ 64 ->
  lim <= 8 * Z.of_nat (length buf) ->
  WalkerBit.BytesFromBits
    (WalkerBit.mkWKB buf orig (8 * Z.of_nat q + p) lim be)
    (8 * Z.of_nat w + r)
  = Done (bitSlice buf (8 * Z.of_nat q + p) (8 * Z.of_nat w + r))
         (WalkerBit.mkWKB buf orig
            (8 * Z.of_nat q + p + (8 * Z.of_nat w + r)) lim be).
Proof.
  intros Hok Hp Hr Hfit Hlim Hbuf.
  unfold WalkerBit.BytesFromBits, WalkerBit.set_currBitOffset.
  cbn [WalkerBit.liveBuffer WalkerBit.origBitStart WalkerBit.currBitOffset
       WalkerBit.bitLimit WalkerBit.isBigEndian].
  rewrite ulong_small by lia.
  replace (_ <=? lim) with true by (symmetry; apply Z.leb_le; lia).
  cbn [negb].
  rewrite shiftr3_split, land7_split, div8_split, mod8_split, !Nat2Z.id
    by assumption.
  destruct (Z.eqb_spec p 0) as [Hp0|Hp0].
  - (* byte boundary *)
    subst p. rewrite wkb_copy_bytes_spec by lia.
    destruct (Z.eqb_spec r 0) as [Hr0|Hr0].
    + subst r. rewrite !Z.add_0_r. rewrite bitSlice_whole. f_equal.
      apply map_ext_in. intros j Hj. apply in_seq in Hj.
      rewrite <- (Z.add_0_r (8 * Z.of_nat w)).
      apply whole_byte_aligned; auto; lia.
    + rewrite nth_error_nth_lt by lia.
      rewrite bitSlice_partial by lia. f_equal. f_equal.
      * rewrite !Z.add_0_r. apply map_ext_in. intros j Hj. apply in_seq in Hj.
        apply whole_byte_aligned; auto; lia.
      * f_equal. rewrite <- (Z.shiftl_0_r (nth (q + w) buf 0)).
        apply last_byte_masked; auto; lia.
  - (* nonzero phase *)
    rewrite wkb_shift_bytes_spec by lia.
    destruct (Z.eqb_spec r 0) as [Hr0|Hr0].
    + subst r. rewrite !Z.add_0_r. rewrite bitSlice_whole. f_equal.
      apply map_ext_in. intros j Hj. apply in_seq in Hj.
      rewrite <- (Z.add_0_r (8 * Z.of_nat w)).
      apply whole_byte_shifted; auto; lia.
    + rewrite bitSlice_partial by lia.
      destruct (Z.leb_spec r (8 - p)) as [Hle|Hgt].
      * rewrite nth_error_nth_lt by lia. f_equal. f_equal.
        -- apply map_ext_in. intros j Hj. apply in_seq in Hj.
           apply whole_byte_shifted; auto; lia.
        -- f_equal. apply last_byte_masked; auto; lia.
      * rewrite !nth_error_nth_lt by lia. f_equal. f_equal.
        -- apply map_ext_in. intros j Hj. apply in_seq in Hj.
           apply whole_byte_shifted; auto; lia.
        -- f_equal. replace (8 - (r - (8 - p))) with (16 - (r + p)) by lia.
           apply last_byte_spilled; auto; lia.
Qed.

(** ** walker.c: the extraction loops *)

Lemma uchar_testbit_high (x i : Z) : 8 <= i -> Z.testbit (uchar x) i = false.
Proof. intros Hi. unfold uchar. apply Z.mod_pow2_bits_high. lia. Qed.

Lemma uchar_lor_l (x y : Z) : uchar (Z.lor (uchar x) y) = uchar (Z.lor x y).
Proof.
  apply Z.bits_inj'. intros i Hi. destruct (Z_lt_ge_dec i 8).
  - rewrite !uchar_testbit, !Z.lor_spec, uchar_testbit by lia. reflexivity.
  - rewrite !uchar_testbit_high by lia. reflexivity.
Qed.

Lemma uchar_lor_r (x y : Z) : uchar (Z.lor x (uchar y)) = uchar (Z.lor x y).
Proof. now rewrite Z.lor_comm, uchar_lor_l, Z.lor_comm. Qed.

Lemma uchar_land_l (x y : Z) : uchar (Z.land (uchar x) y) = uchar (Z.land x y).
Proof.
  apply Z.bits_inj'. intros i Hi. destruct (Z_lt_ge_dec i 8).
  - rewrite !uchar_testbit, !Z.land_spec, uchar_testbit by lia. reflexivity.
  - rewrite !uchar_testbit_high by lia. reflexivity.
Qed.

Lemma wk_copy_bytes_spec (buf : list Z) (n from : nat) :
  (from + n <= length buf)%nat ->
  Walker.copy_bytes buf from n
  = Some (map (fun j => nth (from + j) buf 0) (seq 0 n)).
Proof. exact (wkb_copy_bytes_spec buf n from). Qed.

Lemma wk_shift_bytes_spec (buf : list Z) (p : Z) (n from : nat) :
  (0 < n -> from + n < length buf)%nat ->
  Walker.shift_bytes buf from p n
  = Some (map (fun j =>
                 uchar (Z.lor (Z.shiftl (nth (from + j) buf 0) p)
                              (Z.shiftr (nth (S (from + j)) buf 0) (8 - p))))
              (seq 0 n)).
Proof.
  revert from. induction n as [|n IH]; intros from Hlen; [reflexivity|].
  cbn [Walker.shift_bytes]. rewrite !nth_error_nth_lt by lia.
  rewrite IH by lia. f_equal. cbn [seq map]. rewrite Nat.add_0_r.
  rewrite uchar_lor_l. f_equal.
  rewrite map_seq_shift. apply map_ext. intros j.
  now replace (S from + j)%nat with (from + S j)%nat by lia.
Qed.

Lemma position_div (a r : Z) : 0 <= r < 8 -> (8 * a + r) / 8 = a.
Proof. intros. symmetry. apply Z.div_unique with r; lia. Qed.

Lemma position_mod (a r : Z) : 0 <= r < 8 -> (8 * a + r) mod 8 = r.
Proof. intros. symmetry. apply Z.mod_unique with a; lia. Qed.

Lemma wk_BytesFromBits_core
  (buf : list Z) (orig lim : Z) (be : bool) (q w : nat) (p r : Z) :
  bytes_ok buf = true ->
  0 <= p < 8 -> 0 <= r < 8 ->
  8 * Z.of_nat q + p + (8 * Z.of_nat w + r) <= 8 * lim ->
  lim < 2 ^ 61 ->
  lim <= Z.of_nat (length buf) ->
  Walker.BytesFromBits
    (Walker.mkWK buf orig (Z.of_nat q) lim be p) (8 * Z.of_nat w + r)
  = Done (bitSlice buf (8 * Z.of_nat q + p) (8 * Z.of_nat w + r))
         (Walker.mkWK buf orig
            ((8 * Z.of_nat q + p + (8 * Z.of_nat w + r)) / 8) lim be
            ((8 * Z.of_nat q + p + (8 * Z.of_nat w + r)) mod 8)).
Proof.
  intros Hok Hp Hr Hfit Hlim Hbuf.
  unfold Walker.BytesFromBits, Walker.set_position.
  cbn [Walker.liveBuffer Walker.origStart Walker.currOffset Walker.limit
       Walker.isBigEndian Walker.phase].
  rewrite shiftr3_split, land7_split, !Nat2Z.id by assumption.
  assert (Havail :
    (8 * Z.of_nat w + r
     <=? (if Z.of_nat q <? lim
          then ulong (8 * (lim - Z.of_nat q) - p) else 0)) = true).
  { apply Z.leb_le. destruct (Z.ltb_spec (Z.of_nat q) lim).
    - rewrite ulong_small by lia. lia.
    - lia. }
  rewrite Havail. cbn [negb].
  replace (8 * Z.of_nat q + p + (8 * Z.of_nat w + r))
    with (8 * Z.of_nat (q + w) + (p + r)) by lia.
  destruct (Z.eqb_spec p 0) as [Hp0|Hp0]; cbn [negb].
  - (* phase zero *)
    subst p. rewrite wk_copy_bytes_spec by lia.
    rewrite Z.add_0_l, position_div, position_mod by lia.
    rewrite ulong_small by lia.
    destruct (Z.eqb_spec r 0) as [Hr0|Hr0]; cbn [negb].
    + subst r. rewrite !Z.add_0_r. rewrite bitSlice_whole.
      rewrite <- Nat2Z.inj_add. f_equal.
      apply map_ext_in. intros j Hj. apply in_seq in Hj.
      rewrite <- (Z.add_0_r (8 * Z.of_nat w)).
      apply whole_byte_aligned; auto; lia.
    + rewrite nth_error_nth_lt by lia.
      rewrite bitSlice_partial by lia.
      rewrite <- Nat2Z.inj_add.
      replace (schar r) with r
        by (unfold schar; rewrite Z.mod_small by lia; lia).
      f_equal. f_equal.
      * rewrite !Z.add_0_r. apply map_ext_in. intros j Hj. apply in_seq in Hj.
        apply whole_byte_aligned; auto; lia.
      * f_equal. rewrite <- (Z.shiftl_0_r (nth (q + w) buf 0)).
        apply last_byte_masked; auto; lia.
  - (* nonzero phase *)
    rewrite wk_shift_bytes_spec by lia.
    destruct (Z.eqb_spec r 0) as [Hr0|Hr0]; cbn [negb].
    + subst r. rewrite !Z.add_0_r. rewrite bitSlice_whole.
      rewrite position_div, position_mod by lia.
      rewrite ulong_small, <- Nat2Z.inj_add by lia. f_equal.
      apply map_ext_in. intros j Hj. apply in_seq in Hj.
      rewrite <- (Z.add_0_r (8 * Z.of_nat w)).
      apply whole_byte_shifted; auto; lia.
    + rewrite bitSlice_partial by lia.
      destruct (Z.leb_spec (r + p) 8) as [Hle|Hgt].
      * rewrite nth_error_nth_lt by lia. rewrite uchar_land_l.
        destruct (Z.eqb_spec (p + r) 8) as [H8|H8].
        -- replace (8 * Z.of_nat (q + w) + (p + r))
             with (8 * Z.of_nat (S (q + w)) + 0) by lia.
           rewrite position_div, position_mod by lia.
           rewrite ulong_small by lia.
           replace (Z.of_nat q + (Z.of_nat w + 1)) with (Z.of_nat (S (q + w)))
             by lia.
           f_equal. f_equal.
           ++ apply map_ext_in. intros j Hj. apply in_seq in Hj.
              apply whole_byte_shifted; auto; lia.
           ++ f_equal. apply last_byte_masked; auto; lia.
        -- rewrite position_div, position_mod by lia.
           rewrite ulong_small, <- Nat2Z.inj_add by lia.
           f_equal. f_equal.
           ++ apply map_ext_in. intros j Hj. apply in_seq in Hj.
              apply whole_byte_shifted; auto; lia.
           ++ f_equal. apply last_byte_masked; auto; lia.
      * rewrite !nth_error_nth_lt by lia.
        rewrite uchar_lor_l, uchar_lor_r.
        replace (8 * Z.of_nat (q + w) + (p + r))
          with (8 * Z.of_nat (S (q + w)) + (r + p - 8)) by lia.
        rewrite position_div, position_mod by lia.
        rewrite ulong_small by lia.
        replace (Z.of_nat q + (Z.of_nat w + 1)) with (Z.of_nat (S (q + w)))
          by lia.
        f_equal. f_equal.
        -- apply map_ext_in. intros j Hj. apply in_seq in Hj.
           apply whole_byte_shifted; auto; lia.
        -- f_equal. apply last_byte_spilled; auto; lia.
Qed.

(** ** The extractor on valid contexts *)

Lemma wkb_valid_elim (c : WalkerBit.WKB_Context) :
  WalkerBit.valid c = true ->
  bytes_ok (WalkerBit.liveBuffer c) = true /\
  0 <= WalkerBit.currBitOffset c /\
  WalkerBit.bitLimit c < 2 ^ 64 /\
  WalkerBit.bitLimit c <= 8 * Z.of_nat (length (WalkerBit.liveBuffer c)).
Proof.
  unfold WalkerBit.valid. rewrite !andb_true_iff, Z.leb_le, Z.ltb_lt, Z.leb_le.
  tauto.
Qed.

Lemma wk_valid_elim (c : Walker.WK_Context) :
  Walker.valid c = true ->
  bytes_ok (Walker.liveBuffer c) = true /\
  0 <= Walker.currOffset c /\
  0 <= Walker.phase c < 8 /\
  Walker.limit c < 2 ^ 61 /\
  Walker.limit c <= Z.of_nat (length (Walker.liveBuffer c)).
Proof.
  unfold Walker.valid.
  rewrite !andb_true_iff, !Z.leb_le, !Z.ltb_lt. tauto.
Qed.

Lemma split8 (x : Z) :
  0 <= x -> x = 8 * Z.of_nat (Z.to_nat (x / 8)) + x mod 8 /\ 0 <= x mod 8 < 8.
Proof.
  intros Hx. split.
  - rewrite Z2Nat.id by (apply Z.div_pos; lia). apply Z.div_mod. lia.
  - apply Z.mod_pos_bound. lia.
Qed.

Lemma wkb_extract (c : WalkerBit.WKB_Context) (n : Z) :
  WalkerBit.valid c = true -> 0 <= n ->
  WalkerBit.currBitOffset c + n <= WalkerBit.bitLimit c ->
  WalkerBit.BytesFromBits c n
  = Done (bitSlice (WalkerBit.liveBuffer c) (WalkerBit.currBitOffset c) n)
         (WalkerBit.set_currBitOffset c (WalkerBit.currBitOffset c + n)).
Proof.
  intros Hv Hn Hfit. apply wkb_valid_elim in Hv.
  destruct c as [buf orig curr lim be].
  unfold WalkerBit.set_currBitOffset.
  cbn [WalkerBit.liveBuffer WalkerBit.origBitStart WalkerBit.currBitOffset
       WalkerBit.bitLimit WalkerBit.isBigEndian] in *.
  destruct Hv as (Hok & Hcurr & Hlim & Hbuf).
  destruct (split8 curr Hcurr) as [Ec Hp].
  destruct (split8 n Hn) as [En Hr].
  rewrite Ec, En.
  apply (wkb_BytesFromBits_core buf orig lim be
           (Z.to_nat (curr / 8)) (Z.to_nat (n / 8)) (curr mod 8) (n mod 8));
    auto; lia.
Qed.

Lemma wk_extract (c : Walker.WK_Context) (n : Z) :
  Walker.valid c = true -> 0 <= n ->
  Walker.bitPosition c + n <= 8 * Walker.limit c ->
  Walker.BytesFromBits c n
  = Done (bitSlice (Walker.liveBuffer c) (Walker.bitPosition c) n)
         (Walker.set_position c ((Walker.bitPosition c + n) / 8)
                                ((Walker.bitPosition c + n) mod 8)).
Proof.
  intros Hv Hn Hfit. apply wk_valid_elim in Hv.
  destruct c as [buf orig curr lim be ph].
  unfold Walker.bitPosition, Walker.set_position in *.
  cbn [Walker.liveBuffer Walker.origStart Walker.currOffset Walker.limit
       Walker.isBigEndian Walker.phase] in *.
  destruct Hv as (Hok & Hcurr & Hph & Hlim & Hbuf).
  destruct (split8 n Hn) as [En Hr].
  rewrite <- (Z2Nat.id curr Hcurr). rewrite En.
  apply (wk_BytesFromBits_core buf orig lim be
           (Z.to_nat curr) (Z.to_nat (n / 8)) ph (n mod 8));
    auto; lia.
Qed.

(** ** C1: the bit extractor *)

(** C1. On a valid cursor and for every bit count [n] that fits before the
    limit, the bit extractor of both string walkers ([walkerbit.c] and
    [walker.c]) returns [byteLength n = ceil (n / 8)] bytes whose bit [i]
    is source bit [position + i] for [i < n] and zero for the remaining
    low-order bits of the last byte, advances the bit position by exactly
    [n], and its output equals the manual bit slice [bitSlice] (for every
    phase and every [n], in particular for phases 0-7 and [n] in 1-64). *)
Theorem C1_bit_extractor :
  (forall (c : WalkerBit.WKB_Context) (n : Z),
     WalkerBit.valid c = true -> 0 <= n ->
     WalkerBit.currBitOffset c + n <= WalkerBit.bitLimit c ->
     exists out c',
       WalkerBit.BytesFromBits c n = Done out c' /\
       Z.of_nat (length out) = byteLength n /\
       (forall i, 0 <= i < 8 * byteLength n ->
          bitAt out i
          = (i <? n) &&
            bitAt (WalkerBit.liveBuffer c) (WalkerBit.currBitOffset c + i)) /\
       c' = WalkerBit.set_currBitOffset c (WalkerBit.currBitOffset c + n) /\
       out = bitSlice (WalkerBit.liveBuffer c) (WalkerBit.currBitOffset c) n)
  /\
  (forall (c : Walker.WK_Context) (n : Z),
     Walker.valid c = true -> 0 <= n ->
     Walker.bitPosition c + n <= 8 * Walker.limit c ->
     exists out c',
       Walker.BytesFromBits c n = Done out c' /\
       Z.of_nat (length out) = byteLength n /\
       (forall i, 0 <= i < 8 * byteLength n ->
          bitAt out i
          = (i <? n) &&
            bitAt (Walker.liveBuffer c) (Walker.bitPosition c + i)) /\
       Walker.bitPosition c' = Walker.bitPosition c + n /\
       0 <= Walker.phase c' < 8 /\
       c' = Walker.set_position c (Walker.currOffset c') (Walker.phase c') /\
       out = bitSlice (Walker.liveBuffer c) (Walker.bitPosition c) n).
Proof.
  split.
  - intros c n Hv Hn Hfit.
    exists (bitSlice (WalkerBit.liveBuffer c) (WalkerBit.currBitOffset c) n).
    eexists. split; [now apply wkb_extract|].
    assert (Hlen : 0 <= byteLength n)
      by (unfold byteLength; apply Z.div_pos; lia).
    repeat split.
    + rewrite bitSlice_length. lia.
    + intros i Hi. now apply bitSlice_bitAt.
  - intros c n Hv Hn Hfit.
    exists (bitSlice (Walker.liveBuffer c) (Walker.bitPosition c) n).
    eexists. split; [now apply wk_extract|].
    assert (Hlen : 0 <= byteLength n)
      by (unfold byteLength; apply Z.div_pos; lia).
    assert (Hpos : 0 <= Walker.bitPosition c + n).
    { apply wk_valid_elim in Hv. unfold Walker.bitPosition. lia. }
    assert (Hm : 0 <= (Walker.bitPosition c + n) mod 8 < 8)
      by (apply Z.mod_pos_bound; lia).
    repeat split.
    + rewrite bitSlice_length. lia.
    + intros i Hi. now apply bitSlice_bitAt.
    + unfold Walker.bitPosition at 1. unfold Walker.set_position.
      cbn [Walker.currOffset Walker.phase].
      symmetry. apply Z.div_mod. lia.
    + apply Hm.
    + apply Hm.
Qed.

Lemma C1_bit_extractor_witness :
  (exists out c',
     WalkerBit.BytesFromBits
       (WalkerBit.mkWKB [0xAB; 0xCD; 0xEF; 0x12] 0 3 32 true) 13
     = Done out c' /\
     out = [0x5E; 0x68] /\ WalkerBit.currBitOffset c' = 16) /\
  (exists out c',
     Walker.BytesFromBits
       (Walker.mkWK [0xAB; 0xCD; 0xEF; 0x12] 0 0 4 true 3) 13
     = Done out c' /\
     out = [0x5E; 0x68] /\ Walker.bitPosition c' = 16).
Proof.
  split.
  - destruct (proj1 C1_bit_extractor
                (WalkerBit.mkWKB [0xAB; 0xCD; 0xEF; 0x12] 0 3 32 true) 13)
      as (out & c' & Hrun & _ & _ & Hc & Hout);
      [reflexivity | lia | cbn; lia |].
    exists out, c'. split; [exact Hrun|].
    split; [exact Hout | rewrite Hc; reflexivity].
  - destruct (proj2 C1_bit_extractor
                (Walker.mkWK [0xAB; 0xCD; 0xEF; 0x12] 0 0 4 true 3) 13)
      as (out & c' & Hrun & _ & _ & Hpos & _ & _ & Hout);
      [reflexivity | lia | cbn; lia |].
    exists out, c'. split; [exact Hrun|].
    split; [exact Hout | exact Hpos].
Defined.

(** ** C3: sizes of format strings *)

Lemma digit_char_is_digit (d : digit) : is_digit (digit_char d) = true.
Proof. destruct d; reflexivity. Qed.

Lemma digit_of_digit_char (d : digit) : digit_of (digit_char d) = digit_value d.
Proof. destruct d; reflexivity. Qed.

Lemma code_char_not_digit (c : typeCode) : is_digit (code_char c) = false.
Proof. destruct c; reflexivity. Qed.

Lemma mark_char_not_digit (m : endianMark) : is_digit (mark_char m) = false.
Proof. destruct m; reflexivity. Qed.

Lemma digit_value_range (d : digit) : 0 <= digit_value d <= 9.
Proof. destruct d; cbn; lia. Qed.

Lemma count_from_mono (ds : list digit) (r : Z) :
  0 <= r -> r <= count_from r ds.
Proof.
  revert r. induction ds as [|d ds IH]; intros r Hr; [cbn; lia|].
  pose proof (digit_value_range d).
  specialize (IH (10 * r + digit_value d)).
  unfold count_from in *. cbn [fold_left]. lia.
Qed.

Lemma count_value_nonneg (ds : list digit) : 0 <= count_value ds.
Proof. apply (count_from_mono ds 0). lia. Qed.

Lemma repeatCount_pos (ds : list digit) : 1 <= repeatCount ds.
Proof.
  unfold repeatCount. pose proof (count_value_nonneg ds).
  destruct (Z.eqb_spec (count_value ds) 0); lia.
Qed.

Lemma FormatByteSize_loop_digits (ds : list digit) (rest : list ascii)
  (repeat size items : Z) :
  0 <= repeat -> count_from repeat ds < 2 ^ 64 ->
  FormatByteSize_loop (map digit_char ds ++ rest) repeat size items
  = FormatByteSize_loop rest (count_from repeat ds) size items.
Proof.
  revert repeat. induction ds as [|d ds IH]; intros repeat Hr Hlt;
    [reflexivity|].
  cbn [map app FormatByteSize_loop].
  rewrite digit_char_is_digit, digit_of_digit_char.
  pose proof (digit_value_range d).
  assert (Hstep : 10 * repeat + digit_value d <= count_from repeat (d :: ds))
    by (apply (count_from_mono ds); lia).
  rewrite ulong_small by lia. apply IH; [lia | exact Hlt].
Qed.

Lemma CalcSizeFromFormat_loop_digits (ds : list digit) (rest : list ascii)
  (repeat size items : Z) :
  0 <= repeat -> count_from repeat ds < 2 ^ 64 ->
  Utilities.CalcSizeFromFormat_loop (map digit_char ds ++ rest)
                                    repeat size items
  = Utilities.CalcSizeFromFormat_loop rest (count_from repeat ds) size items.
Proof.
  revert repeat. induction ds as [|d ds IH]; intros repeat Hr Hlt;
    [reflexivity|].
  cbn [map app Utilities.CalcSizeFromFormat_loop].
  replace (digit_char d =? "000")%char with false by (now destruct d).
  rewrite digit_char_is_digit, digit_of_digit_char.
  pose proof (digit_value_range d).
  assert (Hstep : 10 * repeat + digit_value d <= count_from repeat (d :: ds))
    by (apply (count_from_mono ds); lia).
  rewrite ulong_small by lia. apply IH; [lia | exact Hlt].
Qed.

Lemma itemsOf_bounds (r : Z) (c : typeCode) :
  1 <= r -> 0 <= itemsOf r c <= unitSize c * r.
Proof. destruct c; cbn [itemsOf unitSize]; lia. Qed.

Lemma byteSize_with_nonneg (ts : list token) :
  0 <= itemCount_with repeatCount ts <= byteSize_with repeatCount ts.
Proof.
  induction ts as [|[count code|mark] ts IH];
    cbn [itemCount_with byteSize_with fold_right]; [lia| |].
  - fold (byteSize_with repeatCount ts). fold (itemCount_with repeatCount ts).
    pose proof (itemsOf_bounds (repeatCount count) code
                  (repeatCount_pos count)).
    lia.
  - exact IH.
Qed.

Lemma FormatByteSize_switch_code (code : typeCode) (r size items : Z) :
  1 <= r -> 0 <= items <= size -> size + unitSize code * r < 2 ^ 64 ->
  FormatByteSize_switch (code_char code) r size items
  = (size + unitSize code * r, items + itemsOf r code).
Proof.
  intros Hr Hi Hlt.
  destruct code; cbn [code_char FormatByteSize_switch unitSize itemsOf] in *;
    cbn [Ascii.eqb Bool.eqb orb negb andb];
    ulong_simpl; f_equal; lia.
Qed.

Lemma CalcSizeFromFormat_switch_code (code : typeCode) (r size items : Z) :
  0 <= r -> 0 <= items <= size ->
  size + unitSize code * (if r =? 0 then 1 else r) < 2 ^ 64 ->
  Utilities.CalcSizeFromFormat_switch (code_char code) r size items
  = (0, size + unitSize code * (if r =? 0 then 1 else r),
     items + itemsOf (if r =? 0 then 1 else r) code).
Proof.
  intros Hr Hi Hlt.
  assert (H1 : 1 <= (if r =? 0 then 1 else r))
    by (destruct (Z.eqb_spec r 0); lia).
  destruct code;
    cbn [code_char Utilities.CalcSizeFromFormat_switch unitSize itemsOf] in *;
    cbn [Ascii.eqb Bool.eqb orb negb andb];
    ulong_simpl;
    repeat match goal with |- (_, _) = (_, _) => f_equal end; lia.
Qed.

Lemma FormatByteSize_loop_render (ts : list token) (size items : Z) :
  0 <= items <= size ->
  size + byteSize_with repeatCount ts < 2 ^ 64 ->
  FormatByteSize_loop (render ts) 0 size items
  = (size + byteSize_with repeatCount ts,
     items + itemCount_with repeatCount ts).
Proof.
  revert size items.
  induction ts as [|[count code|mark] ts IH]; intros size items Hi Hlt.
  - cbn [render flat_map byteSize_with itemCount_with fold_right
          FormatByteSize_loop Utilities.CalcSizeFromFormat_loop].
    f_equal; lia.
  - pose proof (byteSize_with_nonneg ts) as Hts.
    pose proof (repeatCount_pos count) as Hrc.
    pose proof (count_value_nonneg count) as Hcv.
    pose proof (itemsOf_bounds _ code Hrc) as Hio.
    assert (Hu : 1 <= unitSize code) by (destruct code; cbn [unitSize]; lia).
    cbn [byteSize_with itemCount_with fold_right] in *.
    fold (byteSize_with repeatCount ts) in *.
    fold (itemCount_with repeatCount ts) in *.
    assert (Hcount : count_value count < 2 ^ 64).
    { unfold repeatCount in *.
      destruct (Z.eqb_spec (count_value count) 0); nia. }
    cbn [render flat_map render_token]. rewrite <- app_assoc.
    rewrite FormatByteSize_loop_digits by (fold (count_value count); lia).
    cbn [app FormatByteSize_loop]. rewrite code_char_not_digit.
    change (count_from 0 count) with (count_value count).
    fold (repeatCount count).
    rewrite FormatByteSize_switch_code by nia.
    fold (render ts). rewrite IH by nia. f_equal; lia.
  - cbn [render flat_map render_token app FormatByteSize_loop].
    rewrite mark_char_not_digit.
    replace (FormatByteSize_switch (mark_char mark) _ size items)
      with (size, items) by (now destruct mark).
    fold (render ts). now apply IH.
Qed.

Lemma CalcSizeFromFormat_loop_render (ts : list token) (size items : Z) :
  0 <= items <= size ->
  size + byteSize_with repeatCount ts < 2 ^ 64 ->
  Utilities.CalcSizeFromFormat_loop (render ts) 0 size items
  = (size + byteSize_with repeatCount ts,
     items + itemCount_with repeatCount ts).
Proof.
  revert size items.
  induction ts as [|[count code|mark] ts IH]; intros size items Hi Hlt.
  - cbn [render flat_map byteSize_with itemCount_with fold_right
          FormatByteSize_loop Utilities.CalcSizeFromFormat_loop].
    f_equal; lia.
  - pose proof (byteSize_with_nonneg ts) as Hts.
    pose proof (repeatCount_pos count) as Hrc.
    pose proof (count_value_nonneg count) as Hcv.
    pose proof (itemsOf_bounds _ code Hrc) as Hio.
    assert (Hu : 1 <= unitSize code) by (destruct code; cbn [unitSize]; lia).
    cbn [byteSize_with itemCount_with fold_right] in *.
    fold (byteSize_with repeatCount ts) in *.
    fold (itemCount_with repeatCount ts) in *.
    assert (Hcount : count_value count < 2 ^ 64).
    { unfold repeatCount in *.
      destruct (Z.eqb_spec (count_value count) 0); nia. }
    cbn [render flat_map render_token]. rewrite <- app_assoc.
    rewrite CalcSizeFromFormat_loop_digits by (fold (count_value count); lia).
    cbn [app Utilities.CalcSizeFromFormat_loop].
    replace (code_char code =? "000")%char with false by (now destruct code).
    rewrite code_char_not_digit.
    change (count_from 0 count) with (count_value count).
    rewrite CalcSizeFromFormat_switch_code by (fold (repeatCount count); nia).
    fold (repeatCount count).
    fold (render ts). rewrite IH by nia. f_equal; lia.
  - cbn [render flat_map render_token app Utilities.CalcSizeFromFormat_loop].
    replace (mark_char mark =? "000")%char with false by (now destruct mark).
    rewrite mark_char_not_digit.
    replace (Utilities.CalcSizeFromFormat_switch (mark_char mark) 0 size items)
      with (0, size, items) by (now destruct mark).
    fold (render ts). now apply IH.
Qed.

Lemma repeatCount_spec_agrees (count : list digit) :
  count = [] \/ count_value count <> 0 ->
  repeatCount count = repeatCount_spec count.
Proof.
  intros [->|Hnz]; [reflexivity|].
  unfold repeatCount, repeatCount_spec.
  destruct (Z.eqb_spec (count_value count) 0); [contradiction|].
  destruct count; [contradiction Hnz|]; reflexivity.
Qed.

Lemma grammar_sizes_nonneg (ts : list grammarToken) :
  0 <= grammar_itemCount repeatCount ts <= grammar_byteSize repeatCount ts.
Proof.
  induction ts as [|[count [code|mark]] ts IH];
    cbn [grammar_itemCount grammar_byteSize fold_right]; [lia| |].
  - fold (grammar_byteSize repeatCount ts).
    fold (grammar_itemCount repeatCount ts).
    pose proof (itemsOf_bounds (repeatCount count) code
                  (repeatCount_pos count)).
    lia.
  - exact IH.
Qed.

(** [FormatByteSize] forgets a count at an endianness mark, whatever the
    count. *)
Lemma FormatByteSize_loop_mark (ds : list digit) (m : endianMark)
  (rest : list ascii) (size items : Z) :
  forall repeat,
    FormatByteSize_loop (map digit_char ds ++ mark_char m :: rest)
                        repeat size items
    = FormatByteSize_loop rest 0 size items.
Proof.
  induction ds as [|d ds IH]; intros repeat; cbn [map app FormatByteSize_loop].
  - rewrite mark_char_not_digit.
    replace (FormatByteSize_switch (mark_char m) _ size items)
      with (size, items) by (now destruct m).
    reflexivity.
  - rewrite digit_char_is_digit. apply IH.
Qed.

Lemma FormatByteSize_loop_grammar (ts : list grammarToken) :
  forall size items,
    0 <= items <= size ->
    size + grammar_byteSize repeatCount ts < 2 ^ 64 ->
    FormatByteSize_loop (render_grammar ts) 0 size items
    = (size + grammar_byteSize repeatCount ts,
       items + grammar_itemCount repeatCount ts).
Proof.
  induction ts as [|[count [code|mark]] ts IH]; intros size items Hi Hlt.
  - cbn [render_grammar flat_map grammar_byteSize grammar_itemCount
         fold_right FormatByteSize_loop].
    f_equal; lia.
  - pose proof (grammar_sizes_nonneg ts) as Hts.
    pose proof (repeatCount_pos count) as Hrc.
    pose proof (count_value_nonneg count) as Hcv.
    pose proof (itemsOf_bounds _ code Hrc) as Hio.
    assert (Hu : 1 <= unitSize code) by (destruct code; cbn [unitSize]; lia).
    cbn [grammar_byteSize grammar_itemCount fold_right] in *.
    fold (grammar_byteSize repeatCount ts) in *.
    fold (grammar_itemCount repeatCount ts) in *.
    assert (Hcount : count_value count < 2 ^ 64).
    { unfold repeatCount in *.
      destruct (Z.eqb_spec (count_value count) 0); nia. }
    cbn [render_grammar flat_map tokenChar_char]. rewrite <- app_assoc.
    rewrite FormatByteSize_loop_digits by (fold (count_value count); lia).
    cbn [app FormatByteSize_loop]. rewrite code_char_not_digit.
    change (count_from 0 count) with (count_value count).
    fold (repeatCount count).
    rewrite FormatByteSize_switch_code by nia.
    fold (render_grammar ts). rewrite IH by nia. f_equal; lia.
  - cbn [grammar_byteSize grammar_itemCount fold_right] in *.
    cbn [render_grammar flat_map tokenChar_char]. rewrite <- app_assoc.
    cbn [app]. rewrite FormatByteSize_loop_mark.
    fold (render_grammar ts). now apply IH.
Qed.

(** [CalcSizeFromFormat] agrees as long as no mark carries a count. *)
Lemma CalcSizeFromFormat_loop_grammar (ts : list grammarToken) :
  (forall count mark,
     In (Counted count (MarkChar mark)) ts -> count_value count = 0) ->
  forall size items,
    0 <= items <= size ->
    size + grammar_byteSize repeatCount ts < 2 ^ 64 ->
    Utilities.CalcSizeFromFormat_loop (render_grammar ts) 0 size items
    = (size + grammar_byteSize repeatCount ts,
       items + grammar_itemCount repeatCount ts).
Proof.
  induction ts as [|[count [code|mark]] ts IH];
    intros Hmarks size items Hi Hlt.
  - cbn [render_grammar flat_map grammar_byteSize grammar_itemCount
         fold_right Utilities.CalcSizeFromFormat_loop].
    f_equal; lia.
  - pose proof (grammar_sizes_nonneg ts) as Hts.
    pose proof (repeatCount_pos count) as Hrc.
    pose proof (count_value_nonneg count) as Hcv.
    pose proof (itemsOf_bounds _ code Hrc) as Hio.
    assert (Hu : 1 <= unitSize code) by (destruct code; cbn [unitSize]; lia).
    cbn [grammar_byteSize grammar_itemCount fold_right] in *.
    fold (grammar_byteSize repeatCount ts) in *.
    fold (grammar_itemCount repeatCount ts) in *.
    assert (Hcount : count_value count < 2 ^ 64).
    { unfold repeatCount in *.
      destruct (Z.eqb_spec (count_value count) 0); nia. }
    cbn [render_grammar flat_map tokenChar_char]. rewrite <- app_assoc.
    rewrite CalcSizeFromFormat_loop_digits by (fold (count_value count); lia).
    cbn [app Utilities.CalcSizeFromFormat_loop].
    replace (code_char code =? "000")%char with false by (now destruct code).
    rewrite code_char_not_digit.
    change (count_from 0 count) with (count_value count).
    rewrite CalcSizeFromFormat_switch_code by (fold (repeatCount count); nia).
    fold (repeatCount count).
    fold (render_grammar ts).
    rewrite IH by (try nia; intros c m Hin; apply (Hmarks c m); now right).
    f_equal; lia.
  - assert (Hzero : count_value count = 0)
      by (apply (Hmarks count mark); now left).
    cbn [grammar_byteSize grammar_itemCount fold_right] in *.
    cbn [render_grammar flat_map tokenChar_char]. rewrite <- app_assoc.
    rewrite CalcSizeFromFormat_loop_digits
      by (fold (count_value count); lia).
    fold (count_value count). rewrite Hzero.
    cbn [app Utilities.CalcSizeFromFormat_loop].
    replace (mark_char mark =? "000")%char with false by (now destruct mark).
    rewrite mark_char_not_digit.
    replace (Utilities.CalcSizeFromFormat_switch (mark_char mark) 0 size items)
      with (0, size, items) by (now destruct mark).
    fold (render_grammar ts).
    apply IH; try assumption.
    intros c m Hin. apply (Hmarks c m). now right.
Qed.

Lemma grammar_sizes_spec_agree (ts : list grammarToken) :
  (forall count code, In (Counted count (CodeChar code)) ts ->
     count = [] \/ count_value count <> 0) ->
  grammar_byteSize repeatCount ts = grammar_byteSize repeatCount_spec ts /\
  grammar_itemCount repeatCount ts = grammar_itemCount repeatCount_spec ts.
Proof.
  induction ts as [|[count [code|mark]] ts IH]; intros Hnz.
  - split; reflexivity.
  - cbn [grammar_byteSize grammar_itemCount fold_right].
    fold (grammar_byteSize repeatCount ts)
         (grammar_byteSize repeatCount_spec ts).
    fold (grammar_itemCount repeatCount ts)
         (grammar_itemCount repeatCount_spec ts).
    rewrite (repeatCount_spec_agrees count) by (eapply Hnz; left; reflexivity).
    destruct IH as [-> ->]; [|split; reflexivity].
    intros c k Hin. eapply Hnz. right. exact Hin.
  - apply IH. intros c k Hin. eapply Hnz. right. exact Hin.
Qed.

(** C3 as stated fails twice.  The format [0H] has a written repeat count
    of zero, so the table gives size [2 * 0 = 0] and no item, while both
    size computations treat the zero count as 1 and return size 2 and one
    item.  The format [3>H] is the mark [>] with the count 3 and the code
    [H] with no count, so the table gives size 2 and one item, which is what
    [FormatByteSize] returns, while [CalcSizeFromFormat] carries the count
    over the mark and returns size 6 and three items. *)
Lemma C3_counterexample :
  render [Field [D0] TH] = list_ascii_of_string "0H" /\
  byteSize_with repeatCount_spec [Field [D0] TH] = 0 /\
  itemCount_with repeatCount_spec [Field [D0] TH] = 0 /\
  FormatByteSize (list_ascii_of_string "0H") = (2, 1) /\
  Utilities.CalcSizeFromFormat (list_ascii_of_string "0H") = (2, 1) /\
  render_grammar [Counted [D3] (MarkChar MGreater); Counted [] (CodeChar TH)]
  = list_ascii_of_string "3>H" /\
  grammar_byteSize repeatCount_spec
    [Counted [D3] (MarkChar MGreater); Counted [] (CodeChar TH)] = 2 /\
  grammar_itemCount repeatCount_spec
    [Counted [D3] (MarkChar MGreater); Counted [] (CodeChar TH)] = 1 /\
  FormatByteSize (list_ascii_of_string "3>H") = (2, 1) /\
  Utilities.CalcSizeFromFormat (list_ascii_of_string "3>H") = (6, 3).
Proof. repeat split; reflexivity. Qed.

(** C3 (amended). For every format string made of the tokens of the
    grammar (an optional decimal repeat count followed by one type code or
    one endianness mark) whose total size fits an [unsigned long],
    [FormatByteSize] returns the byte size that counts 1 byte per unit for
    B,b,c,p,s,x, 2 for H/h, 3 for T/t, 4 for I/i/L/l/f and 8 for Q/q/d, each
    multiplied by the repeat count, where an omitted count or a count of
    zero is taken as 1, and nothing for a mark whatever its count, and the
    item count that adds the repeat count for numeric codes, 1 for p and s
    and 0 for x; [CalcSizeFromFormat] returns the same when no mark carries
    a count other than zero; when no type code has a written count of zero
    this is the size and item count of the specification's table; the
    format [2H3x1s] yields byte size 8 and item count 3. *)
Theorem C3_format_sizes :
  (forall ts : list grammarToken,
     grammar_byteSize repeatCount ts < 2 ^ 64 ->
     FormatByteSize (render_grammar ts)
     = (grammar_byteSize repeatCount ts, grammar_itemCount repeatCount ts) /\
     ((forall count mark,
         In (Counted count (MarkChar mark)) ts -> count_value count = 0) ->
      Utilities.CalcSizeFromFormat (render_grammar ts)
      = (grammar_byteSize repeatCount ts,
         grammar_itemCount repeatCount ts)) /\
     ((forall count code, In (Counted count (CodeChar code)) ts ->
         count = [] \/ count_value count <> 0) ->
      grammar_byteSize repeatCount ts = grammar_byteSize repeatCount_spec ts /\
      grammar_itemCount repeatCount ts
      = grammar_itemCount repeatCount_spec ts)) /\
  FormatByteSize (list_ascii_of_string "2H3x1s") = (8, 3) /\
  Utilities.CalcSizeFromFormat (list_ascii_of_string "2H3x1s") = (8, 3).
Proof.
  split; [|split; reflexivity].
  intros ts Hlt. split; [|split].
  - unfold FormatByteSize. rewrite FormatByteSize_loop_grammar by lia.
    reflexivity.
  - intros Hmarks. unfold Utilities.CalcSizeFromFormat.
    rewrite CalcSizeFromFormat_loop_grammar by (try exact Hmarks; lia).
    reflexivity.
  - apply grammar_sizes_spec_agree.
Qed.

Lemma C3_format_sizes_witness :
  FormatByteSize
    (render_grammar [Counted [D2] (CodeChar TH); Counted [D7] (MarkChar MLess);
                     Counted [D3] (CodeChar Tx); Counted [D1] (CodeChar Ts)])
  = (8, 3) /\
  Utilities.CalcSizeFromFormat
    (render_grammar [Counted [D2] (CodeChar TH); Counted [] (MarkChar MLess);
                     Counted [D3] (CodeChar Tx); Counted [D1] (CodeChar Ts)])
  = (8, 3).
Proof.
  split.
  - destruct (proj1 C3_format_sizes
                [Counted [D2] (CodeChar TH); Counted [D7] (MarkChar MLess);
                 Counted [D3] (CodeChar Tx); Counted [D1] (CodeChar Ts)])
      as (H1 & _); [reflexivity|].
    exact H1.
  - destruct (proj1 C3_format_sizes
                [Counted [D2] (CodeChar TH); Counted [] (MarkChar MLess);
                 Counted [D3] (CodeChar Tx); Counted [D1] (CodeChar Ts)])
      as (_ & H2 & _); [reflexivity|].
    apply H2. intros count mark Hin. simpl in Hin.
    destruct Hin as [Hin | [Hin | [Hin | [Hin | []]]]];
      try discriminate Hin.
    injection Hin as <- _. reflexivity.
Defined.

(** ** C10: a request of zero bits *)

(** C10. On every cursor, whatever its position and limit, the raw bit-unpack
    operation of both string walkers answers a request of zero bits with the
    empty byte string without calling the extractor (so without a range
    check) and leaves the context, offset and phase included, as it was. *)
Theorem C10_zero_bits :
  (forall c : WalkerBit.WKB_Context,
     WalkerBit.wkb_UnpackBits c 0 = Done (PyBytes []) c) /\
  (forall c : Walker.WK_Context,
     Walker.wk_UnpackBits c 0 = Done (PyBytes []) c).
Proof. split; intros c; reflexivity. Qed.

(** The extractor of [walkerbit.c] itself would refuse the same request past
    the limit; the wrapper does not reach it. *)
Example wkb_zero_bits_past_limit :
  let c := WalkerBit.mkWKB [0x12; 0x34] 0 24 16 true in
  WalkerBit.BytesFromBits c 0 = Raised IndexError c /\
  WalkerBit.wkb_UnpackBits c 0 = Done (PyBytes []) c.
Proof. split; reflexivity. Qed.

(** ** C2: reading past the limit *)

Lemma slong_small (x : Z) : - 2 ^ 63 <= x < 2 ^ 63 -> slong x = x.
Proof. intros H. unfold slong. rewrite Z.mod_small; lia. Qed.

Lemma wkb_extract_past_limit (c : WalkerBit.WKB_Context) (n : Z) :
  0 <= WalkerBit.currBitOffset c + n < 2 ^ 64 ->
  WalkerBit.bitLimit c < WalkerBit.currBitOffset c + n ->
  WalkerBit.BytesFromBits c n = Raised IndexError c.
Proof.
  intros Hr Hpast. unfold WalkerBit.BytesFromBits.
  rewrite ulong_small by exact Hr.
  replace (_ <=? _) with false by (symmetry; apply Z.leb_gt; lia).
  reflexivity.
Qed.





(** ** C5: seek *)

Lemma slong_add_slong (x y : Z) : slong (x + slong y) = slong (x + y).
Proof.
  unfold slong.
  replace (x + ((y + 2 ^ 63) mod 2 ^ 64 - 2 ^ 63) + 2 ^ 63)
    with (x + (y + 2 ^ 63) mod 2 ^ 64) by lia.
  rewrite Zplus_mod_idemp_r. f_equal. f_equal. lia.
Qed.

Lemma ulong_nonneg_small (x : Z) : 0 <= x < 2 ^ 63 -> ulong x = x.
Proof. intros. apply ulong_small. lia. Qed.

Lemma ulong_negative (x : Z) : - 2 ^ 63 <= x < 0 -> ulong x = x + 2 ^ 64.
Proof.
  intros H. unfold ulong. symmetry.
  apply Z.mod_unique with (-1); lia.
Qed.

(** The seek of the bit walker, on the position resolved in [long]
    arithmetic. *)
Lemma wkb_SetOffset_spec (c : WalkerBit.WKB_Context) (offset : Z)
  (relative okToExceed : bool) :
  let base := if relative then WalkerBit.currBitOffset c
              else WalkerBit.origBitStart c in
  let resolved := slong (offset + base) in
  WalkerBit.wkb_SetOffset c offset relative okToExceed
  = if okToExceed || ((0 <=? resolved) && (resolved <? WalkerBit.bitLimit c))
    then Done PyNone (WalkerBit.set_currBitOffset c (ulong resolved))
    else Raised IndexError c.
Proof.
  intros base resolved. unfold WalkerBit.wkb_SetOffset.
  fold base. rewrite slong_add_slong. fold resolved.
  destruct okToExceed; [reflexivity|]. cbn [orb].
  assert (Hrange : - 2 ^ 63 <= resolved < 2 ^ 63).
  { unfold resolved, slong.
    pose proof (Z.mod_pos_bound (offset + base + 2 ^ 63) (2 ^ 64)). lia. }
  destruct (Z.leb_spec 0 resolved) as [Hpos|Hneg].
  - rewrite ulong_nonneg_small by lia. rewrite andb_true_r, andb_true_l.
    destruct (resolved <? WalkerBit.bitLimit c); reflexivity.
  - rewrite andb_false_r, andb_false_l. reflexivity.
Qed.

Lemma wk_SetOffset_spec (c : Walker.WK_Context) (offset : Z)
  (relative okToExceed : bool) :
  let base := if relative then Walker.currOffset c else Walker.origStart c in
  let resolved := slong (offset + base) in
  Walker.wk_SetOffset c offset relative okToExceed
  = if okToExceed || ((0 <=? resolved) && (resolved <? Walker.limit c))
    then Done PyNone (Walker.set_position c (ulong resolved) 0)
    else Raised IndexError (Walker.set_phase c 0).
Proof.
  intros base resolved. unfold Walker.wk_SetOffset.
  cbn [Walker.set_phase Walker.currOffset Walker.origStart Walker.limit].
  fold base. fold resolved.
  destruct okToExceed; [reflexivity|]. cbn [orb].
  assert (Hrange : - 2 ^ 63 <= resolved < 2 ^ 63).
  { unfold resolved, slong.
    pose proof (Z.mod_pos_bound (offset + base + 2 ^ 63) (2 ^ 64)). lia. }
  destruct (Z.leb_spec 0 resolved) as [Hpos|Hneg].
  - rewrite ulong_nonneg_small by lia. rewrite andb_true_r, andb_true_l.
    destruct (resolved <? Walker.limit c); reflexivity.
  - rewrite andb_false_r, andb_false_l. reflexivity.
Qed.

(** C5 as stated fails on the byte walker: [wk_SetOffset] clears the phase
    before the range check, so a rejected seek leaves phase 0 where it was
    3. *)
Lemma C5_counterexample :
  let c := Walker.mkWK [0x12; 0x34; 0x56; 0x78] 0 1 4 true 3 in
  exists c',
    Walker.wk_SetOffset c 10 false false = Raised IndexError c' /\
    Walker.phase c = 3 /\ Walker.phase c' = 0 /\ c' <> c.
Proof.
  eexists. repeat split; try reflexivity. discriminate.
Qed.

(** C5 (amended). Seek resolves a relative offset against the current offset
    and an absolute offset against the origin.  When [okToExceed] is false
    and the resolved position does not satisfy [0 <= position < limit], an
    [IndexError] is raised and the current offset is unchanged (on the bit
    walker the whole context is unchanged); otherwise the current offset
    becomes the resolved position, stored as an [unsigned long] (the position
    itself when it is not negative), and the byte walker's phase is 0. *)
Theorem C5_seek :
  (forall (c : WalkerBit.WKB_Context) (offset : Z) (relative okToExceed : bool),
     let base := if relative then WalkerBit.currBitOffset c
                 else WalkerBit.origBitStart c in
     let position := offset + base in
     - 2 ^ 63 <= position < 2 ^ 63 ->
     (okToExceed = false -> ~ (0 <= position < WalkerBit.bitLimit c) ->
      WalkerBit.wkb_SetOffset c offset relative okToExceed
      = Raised IndexError c) /\
     (okToExceed = true \/ 0 <= position < WalkerBit.bitLimit c ->
      WalkerBit.wkb_SetOffset c offset relative okToExceed
      = Done PyNone (WalkerBit.set_currBitOffset c (ulong position)) /\
      (0 <= position -> ulong position = position)))
  /\
  (forall (c : Walker.WK_Context) (offset : Z) (relative okToExceed : bool),
     let base := if relative then Walker.currOffset c
                 else Walker.origStart c in
     let position := offset + base in
     - 2 ^ 63 <= position < 2 ^ 63 ->
     (okToExceed = false -> ~ (0 <= position < Walker.limit c) ->
      exists c',
        Walker.wk_SetOffset c offset relative okToExceed
        = Raised IndexError c' /\
        Walker.currOffset c' = Walker.currOffset c) /\
     (okToExceed = true \/ 0 <= position < Walker.limit c ->
      Walker.wk_SetOffset c offset relative okToExceed
      = Done PyNone (Walker.set_position c (ulong position) 0) /\
      (0 <= position -> ulong position = position))).
Proof.
  split.
  - intros c offset relative okToExceed base position Hrange.
    pose proof (wkb_SetOffset_spec c offset relative okToExceed) as Hspec.
    cbv zeta in Hspec. fold base in Hspec. fold position in Hspec.
    rewrite slong_small in Hspec by exact Hrange.
    split.
    + intros -> Hout. rewrite Hspec. cbn [orb].
      destruct (Z.leb_spec 0 position), (Z.ltb_spec position (WalkerBit.bitLimit c));
        cbn [andb]; try reflexivity. lia.
    + intros Hok. rewrite Hspec. split.
      * destruct Hok as [->|Hin]; [reflexivity|].
        replace (0 <=? position) with true by (symmetry; apply Z.leb_le; lia).
        replace (position <? _) with true by (symmetry; apply Z.ltb_lt; lia).
        now rewrite orb_true_r.
      * intros Hpos. apply ulong_nonneg_small. lia.
  - intros c offset relative okToExceed base position Hrange.
    pose proof (wk_SetOffset_spec c offset relative okToExceed) as Hspec.
    cbv zeta in Hspec. fold base in Hspec. fold position in Hspec.
    rewrite slong_small in Hspec by exact Hrange.
    split.
    + intros -> Hout. exists (Walker.set_phase c 0). rewrite Hspec. cbn [orb].
      split; [|reflexivity].
      destruct (Z.leb_spec 0 position), (Z.ltb_spec position (Walker.limit c));
        cbn [andb]; try reflexivity. lia.
    + intros Hok. rewrite Hspec. split.
      * destruct Hok as [->|Hin]; [reflexivity|].
        replace (0 <=? position) with true by (symmetry; apply Z.leb_le; lia).
        replace (position <? _) with true by (symmetry; apply Z.ltb_lt; lia).
        now rewrite orb_true_r.
      * intros Hpos. apply ulong_nonneg_small. lia.
Qed.

Lemma C5_seek_witness :
  (let c := WalkerBit.mkWKB [0x12; 0x34] 8 10 16 true in
   WalkerBit.wkb_SetOffset c 9 false false = Raised IndexError c /\
   WalkerBit.wkb_SetOffset c (-4) true false
   = Done PyNone (WalkerBit.set_currBitOffset c 6)) /\
  (let c := Walker.mkWK [0x12; 0x34; 0x56; 0x78] 1 2 4 true 3 in
   (exists c', Walker.wk_SetOffset c 3 false false = Raised IndexError c' /\
               Walker.currOffset c' = 2) /\
   Walker.wk_SetOffset c 1 true false
   = Done PyNone (Walker.set_position c 3 0)).
Proof.
  split.
  - destruct (proj1 C5_seek (WalkerBit.mkWKB [0x12; 0x34] 8 10 16 true)
                9 false false) as [Hfail _]; [cbn; lia|].
    destruct (proj1 C5_seek (WalkerBit.mkWKB [0x12; 0x34] 8 10 16 true)
                (-4) true false) as [_ Hok]; [cbn; lia|].
    split.
    + apply Hfail; [reflexivity | cbn; lia].
    + apply Hok. right. cbn. lia.
  - destruct (proj2 C5_seek
                (Walker.mkWK [0x12; 0x34; 0x56; 0x78] 1 2 4 true 3)
                3 false false) as [Hfail _]; [cbn; lia|].
    destruct (proj2 C5_seek
                (Walker.mkWK [0x12; 0x34; 0x56; 0x78] 1 2 4 true 3)
                1 true false) as [_ Hok]; [cbn; lia|].
    split.
    + apply Hfail; [reflexivity | cbn; lia].
    + apply Hok. right. cbn. lia.
Defined.

(** ** C6: skip *)

(** C6 as stated fails on the byte walker: [wk_Skip] adds the byte count and
    checks nothing, so a forward overshoot leaves the offset past the
    limit. *)
Lemma C6_counterexample :
  let c := Walker.mkWK [0x12; 0x34; 0x56; 0x78] 0 1 4 true 0 in
  exists c',
    Walker.wk_Skip c 10 true = Done PyNone c' /\
    Walker.currOffset c' = 11 /\ Walker.limit c' = 4.
Proof. eexists. repeat split; reflexivity. Qed.

Lemma wkb_Skip_within (c : WalkerBit.WKB_Context) (bitsToSkip : Z) :
  0 <= WalkerBit.bitLimit c ->
  exists c',
    WalkerBit.wkb_Skip c bitsToSkip = Done PyNone c' /\
    0 <= WalkerBit.currBitOffset c' <= WalkerBit.bitLimit c /\
    c' = WalkerBit.set_currBitOffset c (WalkerBit.currBitOffset c').
Proof.
  intros Hlim. unfold WalkerBit.wkb_Skip. eexists. split; [reflexivity|].
  unfold WalkerBit.set_currBitOffset. cbn [WalkerBit.currBitOffset].
  split; [|reflexivity].
  set (curr := ulong (WalkerBit.currBitOffset c + ulong bitsToSkip)).
  assert (0 <= curr < 2 ^ 64) by (apply Z.mod_pos_bound; lia).
  destruct (Z.ltb_spec (WalkerBit.bitLimit c) curr);
    [destruct (bitsToSkip <? 0)|]; lia.
Qed.

Lemma ulong_add_ulong (x y : Z) : ulong (x + ulong y) = ulong (x + y).
Proof. unfold ulong. apply Zplus_mod_idemp_r. Qed.

Lemma wkb_Skip_clamps (c : WalkerBit.WKB_Context) (bitsToSkip : Z) :
  0 <= WalkerBit.currBitOffset c < 2 ^ 63 ->
  0 <= WalkerBit.bitLimit c < 2 ^ 63 ->
  - 2 ^ 63 <= bitsToSkip < 2 ^ 63 ->
  let target := WalkerBit.currBitOffset c + bitsToSkip in
  WalkerBit.wkb_Skip c bitsToSkip
  = Done PyNone
      (WalkerBit.set_currBitOffset c
         (if target <? 0 then 0
          else if WalkerBit.bitLimit c <? target
               then (if bitsToSkip <? 0 then 0 else WalkerBit.bitLimit c)
               else target)).
Proof.
  intros Hc Hl Hn target. unfold WalkerBit.wkb_Skip.
  rewrite ulong_add_ulong. fold target. do 2 f_equal.
  destruct (Z.ltb_spec target 0) as [Hneg|Hpos].
  - rewrite ulong_negative by (unfold target; lia).
    replace (WalkerBit.bitLimit c <? target + 2 ^ 64) with true
      by (symmetry; apply Z.ltb_lt; unfold target; lia).
    replace (bitsToSkip <? 0) with true
      by (symmetry; apply Z.ltb_lt; unfold target in Hneg; lia).
    reflexivity.
  - rewrite ulong_small by (unfold target in *; lia). reflexivity.
Qed.

(** C6 (amended). The skip of the bit walker, for every signed amount, never
    raises and leaves the current offset within [0, limit]; on a cursor
    whose offset and limit are below [2 ^ 63] a forward overshoot past the
    limit is clamped to the limit, a rewind before position 0 is clamped to
    0, and a move that stays within [0, limit] is exact.  The skip of the
    byte walker never raises. *)
Theorem C6_skip :
  (forall (c : WalkerBit.WKB_Context) (bitsToSkip : Z),
     0 <= WalkerBit.bitLimit c ->
     exists c',
       WalkerBit.wkb_Skip c bitsToSkip = Done PyNone c' /\
       0 <= WalkerBit.currBitOffset c' <= WalkerBit.bitLimit c /\
       c' = WalkerBit.set_currBitOffset c (WalkerBit.currBitOffset c') /\
       (0 <= WalkerBit.currBitOffset c < 2 ^ 63 ->
        WalkerBit.bitLimit c < 2 ^ 63 ->
        - 2 ^ 63 <= bitsToSkip < 2 ^ 63 ->
        let target := WalkerBit.currBitOffset c + bitsToSkip in
        (0 <= bitsToSkip -> WalkerBit.bitLimit c < target ->
         WalkerBit.currBitOffset c' = WalkerBit.bitLimit c) /\
        (bitsToSkip < 0 -> target < 0 -> WalkerBit.currBitOffset c' = 0) /\
        (0 <= target <= WalkerBit.bitLimit c ->
         WalkerBit.currBitOffset c' = target)))
  /\
  (forall (c : Walker.WK_Context) (byteCount : Z) (resetPhase : bool),
     exists c', Walker.wk_Skip c byteCount resetPhase = Done PyNone c').
Proof.
  split.
  - intros c n Hlim.
    destruct (wkb_Skip_within c n Hlim) as (c' & Hrun & Hin & Hc').
    exists c'. split; [exact Hrun|]. split; [exact Hin|].
    split; [exact Hc'|]. intros Hc Hl Hn target.
    pose proof (wkb_Skip_clamps c n Hc (conj Hlim Hl) Hn) as Hcl.
    cbv zeta in Hcl. fold target in Hcl. rewrite Hrun in Hcl.
    injection Hcl as Heq. rewrite Heq.
    cbn [WalkerBit.set_currBitOffset WalkerBit.currBitOffset].
    repeat split.
    + intros Hfwd Hover.
      destruct (Z.ltb_spec target 0); [lia|].
      destruct (Z.ltb_spec (WalkerBit.bitLimit c) target); [|lia].
      destruct (Z.ltb_spec n 0); [lia|reflexivity].
    + intros Hback Hunder.
      destruct (Z.ltb_spec target 0); [reflexivity|lia].
    + intros Hin'.
      destruct (Z.ltb_spec target 0); [lia|].
      destruct (Z.ltb_spec (WalkerBit.bitLimit c) target); [lia|reflexivity].
  - intros c n r. eexists. reflexivity.
Qed.

Lemma C6_skip_witness :
  let c := WalkerBit.mkWKB [0x12; 0x34] 0 10 16 true in
  exists c',
    WalkerBit.wkb_Skip c 9 = Done PyNone c' /\
    0 <= WalkerBit.currBitOffset c' <= 16 /\
    WalkerBit.currBitOffset c' = 16.
Proof.
  intros c.
  destruct (proj1 C6_skip c 9) as (c' & Hrun & Hin & _ & Hclamp);
    [cbn; lia|].
  exists c'. split; [exact Hrun|]. split; [exact Hin|].
  apply Hclamp; cbn; lia.
Defined.

(** ** C4: 64-bit decoding *)

Lemma lor_disjoint (a k y : Z) :
  0 <= k -> 0 <= y < 2 ^ k -> Z.lor (a * 2 ^ k) y = a * 2 ^ k + y.
Proof.
  intros Hk Hy.
  assert (Hland : Z.land (a * 2 ^ k) y = 0).
  { apply Z.bits_inj'. intros i Hi. rewrite Z.land_spec, Z.bits_0.
    destruct (Z_lt_ge_dec i k).
    - now rewrite Z.mul_pow2_bits_low.
    - rewrite <- (Z.mod_small y (2 ^ k)) by lia.
      rewrite Z.mod_pow2_bits_high by lia. apply andb_false_r. }
  now rewrite <- Z.lxor_lor, <- Z.add_nocarry_lxor.
Qed.

Lemma uint_small (x : Z) : 0 <= x < 2 ^ 32 -> uint x = x.
Proof. intros. unfold uint. now apply Z.mod_small. Qed.

(** [lia] takes a power of two as a constant only once it is a numeral. *)
Ltac pow2_numerals :=
  change (2 ^ 8) with 256 in *;
  change (2 ^ 16) with 65536 in *;
  change (2 ^ 24) with 16777216 in *;
  change (2 ^ 32) with 4294967296 in *;
  change (2 ^ 64) with 18446744073709551616 in *.

Lemma be32_range (b0 b1 b2 b3 : Z) :
  0 <= b0 < 256 -> 0 <= b1 < 256 -> 0 <= b2 < 256 -> 0 <= b3 < 256 ->
  0 <= be32 b0 b1 b2 b3 < 2 ^ 32.
Proof. intros. unfold be32. pow2_numerals. lia. Qed.

(** Four bytes assembled most significant first, as in the big-endian
    branch. *)
Lemma assemble_be (b0 b1 b2 b3 : Z) :
  0 <= b0 < 256 -> 0 <= b1 < 256 -> 0 <= b2 < 256 -> 0 <= b3 < 256 ->
  uint (Z.lor (uint (Z.lor (uint (Z.lor (uint (Z.shiftl b0 24))
                                        (Z.shiftl b1 16)))
                           (Z.shiftl b2 8)))
              b3)
  = be32 b0 b1 b2 b3.
Proof.
  intros H0 H1 H2 H3. unfold be32.
  rewrite !Z.shiftl_mul_pow2 by lia.
  rewrite (uint_small (b0 * 2 ^ 24)) by (pow2_numerals; lia).
  rewrite (lor_disjoint b0 24) by (pow2_numerals; lia).
  rewrite (uint_small (b0 * 2 ^ 24 + b1 * 2 ^ 16)) by (pow2_numerals; lia).
  replace (b0 * 2 ^ 24 + b1 * 2 ^ 16) with ((b0 * 2 ^ 8 + b1) * 2 ^ 16)
    by (pow2_numerals; lia).
  rewrite (lor_disjoint _ 16) by (pow2_numerals; lia).
  rewrite (uint_small ((b0 * 2 ^ 8 + b1) * 2 ^ 16 + b2 * 2 ^ 8))
    by (pow2_numerals; lia).
  replace ((b0 * 2 ^ 8 + b1) * 2 ^ 16 + b2 * 2 ^ 8)
    with ((b0 * 2 ^ 16 + b1 * 2 ^ 8 + b2) * 2 ^ 8) by (pow2_numerals; lia).
  rewrite (lor_disjoint _ 8) by (pow2_numerals; lia).
  rewrite uint_small by (pow2_numerals; lia). pow2_numerals. lia.
Qed.

(** Four bytes assembled least significant first, as in the little-endian
    branch. *)
Lemma assemble_le (b0 b1 b2 b3 : Z) :
  0 <= b0 < 256 -> 0 <= b1 < 256 -> 0 <= b2 < 256 -> 0 <= b3 < 256 ->
  uint (Z.lor (uint (Z.lor (uint (Z.lor (uint b0) (Z.shiftl b1 8)))
                           (Z.shiftl b2 16)))
              (Z.shiftl b3 24))
  = be32 b3 b2 b1 b0.
Proof.
  intros H0 H1 H2 H3. unfold be32.
  rewrite !Z.shiftl_mul_pow2 by lia.
  rewrite (uint_small b0) by (pow2_numerals; lia).
  rewrite (Z.lor_comm b0), (lor_disjoint b1 8) by (pow2_numerals; lia).
  rewrite (uint_small (b1 * 2 ^ 8 + b0)) by (pow2_numerals; lia).
  rewrite (Z.lor_comm _ (b2 * 2 ^ 16)), (lor_disjoint b2 16)
    by (pow2_numerals; lia).
  rewrite (uint_small (b2 * 2 ^ 16 + (b1 * 2 ^ 8 + b0)))
    by (pow2_numerals; lia).
  rewrite (Z.lor_comm _ (b3 * 2 ^ 24)), (lor_disjoint b3 24)
    by (pow2_numerals; lia).
  rewrite uint_small by (pow2_numerals; lia). pow2_numerals. lia.
Qed.

Lemma bytes_ok_8 (b0 b1 b2 b3 b4 b5 b6 b7 : Z) :
  bytes_ok [b0; b1; b2; b3; b4; b5; b6; b7] = true ->
  (0 <= b0 < 256 /\ 0 <= b1 < 256 /\ 0 <= b2 < 256 /\ 0 <= b3 < 256) /\
  (0 <= b4 < 256 /\ 0 <= b5 < 256 /\ 0 <= b6 < 256 /\ 0 <= b7 < 256).
Proof.
  unfold bytes_ok. cbn [forallb]. rewrite !andb_true_iff, !is_byte_range.
  tauto.
Qed.

Lemma Q_halves_spec (isBigEndian : bool) (b0 b1 b2 b3 b4 b5 b6 b7 : Z) :
  bytes_ok [b0; b1; b2; b3; b4; b5; b6; b7] = true ->
  Q_halves isBigEndian [b0; b1; b2; b3; b4; b5; b6; b7]
  = (highHalf isBigEndian b0 b1 b2 b3 b4 b5 b6 b7,
     lowHalf isBigEndian b0 b1 b2 b3 b4 b5 b6 b7).
Proof.
  intros Hok. apply bytes_ok_8 in Hok.
  destruct Hok as ((H0 & H1 & H2 & H3) & (H4 & H5 & H6 & H7)).
  unfold Q_halves, highHalf, lowHalf. cbn [nth].
  destruct isBigEndian.
  - now rewrite !assemble_be.
  - now rewrite !assemble_le.
Qed.

Lemma testbit_31 (x : Z) :
  0 <= x < 2 ^ 32 -> (0x7FFFFFFF <? x) = Z.testbit x 31.
Proof.
  intros Hx. rewrite Z.testbit_eqb by lia.
  destruct (Z.ltb_spec 0x7FFFFFFF x).
  - replace (x / 2 ^ 31) with 1
      by (apply Z.div_unique with (x - 2 ^ 31); lia).
    reflexivity.
  - rewrite Z.div_small by lia. reflexivity.
Qed.

Lemma Q_value_spec (signed : bool) (high low : Z) :
  0 <= high < 2 ^ 32 -> 0 <= low < 2 ^ 32 ->
  Q_value (if signed then "q" else "Q")%char high low
  = if signed && Z.testbit high 31
    then Z.lor (Z.shiftl high 32) low - 2 ^ 64
    else Z.lor (Z.shiftl high 32) low.
Proof.
  intros Hh Hl. unfold Q_value.
  rewrite Z.shiftl_mul_pow2 by lia. rewrite lor_disjoint by lia.
  rewrite testbit_31 by exact Hh.
  change (Z.shiftl 1 64) with (2 ^ 64).
  destruct signed; reflexivity.
Qed.

Lemma FormatProcess_Q (rob isBigEndian signed : bool)
  (b0 b1 b2 b3 b4 b5 b6 b7 : Z) :
  FormatProcess rob (PyTuple_New 1) [b0; b1; b2; b3; b4; b5; b6; b7]
                [if signed then "q" else "Q"]%char 0 isBigEndian
  = let '(highPart, lowPart) :=
      Q_halves isBigEndian [b0; b1; b2; b3; b4; b5; b6; b7] in
    Done tt
      [Some (PyLong (Q_value (if signed then "q" else "Q")%char
                             highPart lowPart))].
Proof.
  destruct signed; cbv -[Q_halves Q_value];
    destruct (Q_halves isBigEndian [b0; b1; b2; b3; b4; b5; b6; b7])
      as [highPart lowPart];
    reflexivity.
Qed.

(** C4. For every eight bytes, every byte order and both 64-bit type codes,
    the decoder combines the high and the low 32-bit half, taken in the
    requested byte order, as [(high << 32) | low]; for the signed code with
    bit 31 of the high half set the result is that value minus [2 ^ 64],
    which is the two's-complement reading of the eight bytes.  Big-endian
    [FF FF FF FF FF FF FF FF] decodes as signed to [-1] and
    [00 00 00 00 00 00 00 01] to [1]. *)
Theorem C4_decode_64 :
  (forall (rob isBigEndian signed : bool) (b0 b1 b2 b3 b4 b5 b6 b7 : Z),
     bytes_ok [b0; b1; b2; b3; b4; b5; b6; b7] = true ->
     let high := highHalf isBigEndian b0 b1 b2 b3 b4 b5 b6 b7 in
     let low := lowHalf isBigEndian b0 b1 b2 b3 b4 b5 b6 b7 in
     let combined := Z.lor (Z.shiftl high 32) low in
     let value :=
       if signed && Z.testbit high 31 then combined - 2 ^ 64 else combined in
     FormatProcess rob (PyTuple_New 1) [b0; b1; b2; b3; b4; b5; b6; b7]
                   [if signed then "q" else "Q"]%char 0 isBigEndian
     = Done tt [Some (PyLong value)] /\
     0 <= combined < 2 ^ 64 /\
     (signed = true -> - 2 ^ 63 <= value < 2 ^ 63 /\ ulong value = combined))
  /\
  (forall rob,
     FormatProcess rob (PyTuple_New 1)
                   [0xFF; 0xFF; 0xFF; 0xFF; 0xFF; 0xFF; 0xFF; 0xFF]
                   ["q"]%char 0 true
     = Done tt [Some (PyLong (-1))] /\
     FormatProcess rob (PyTuple_New 1)
                   [0x00; 0x00; 0x00; 0x00; 0x00; 0x00; 0x00; 0x01]
                   ["q"]%char 0 true
     = Done tt [Some (PyLong 1)] /\
     FormatProcess rob (PyTuple_New 1)
                   [0x00; 0x00; 0x00; 0x00; 0x00; 0x00; 0x00; 0x01]
                   ["Q"]%char 0 true
     = Done tt [Some (PyLong 1)]).
Proof.
  split.
  - intros rob isBigEndian signed b0 b1 b2 b3 b4 b5 b6 b7 Hok. cbv zeta.
    set (high := highHalf isBigEndian b0 b1 b2 b3 b4 b5 b6 b7).
    set (low := lowHalf isBigEndian b0 b1 b2 b3 b4 b5 b6 b7).
    assert (Hh : 0 <= high < 2 ^ 32).
    { apply bytes_ok_8 in Hok. unfold high, highHalf.
      destruct isBigEndian; apply be32_range; tauto. }
    assert (Hl : 0 <= low < 2 ^ 32).
    { apply bytes_ok_8 in Hok. unfold low, lowHalf.
      destruct isBigEndian; apply be32_range; tauto. }
    assert (Hc : Z.lor (Z.shiftl high 32) low = high * 2 ^ 32 + low).
    { rewrite Z.shiftl_mul_pow2 by lia. now apply lor_disjoint. }
    split; [|split].
    + rewrite FormatProcess_Q, Q_halves_spec by exact Hok.
      fold high low. now rewrite Q_value_spec.
    + rewrite Hc. pow2_numerals. lia.
    + intros ->. cbn [andb]. rewrite <- (testbit_31 high Hh). rewrite Hc.
      destruct (Z.ltb_spec 0x7FFFFFFF high).
      * split; [pow2_numerals; lia|].
        unfold ulong. symmetry.
        apply Z.mod_unique with (-1); pow2_numerals; lia.
      * split; [pow2_numerals; lia|].
        apply ulong_small. pow2_numerals. lia.
  - intros rob. repeat split; destruct rob; reflexivity.
Qed.

Lemma C4_decode_64_witness :
  FormatProcess false (PyTuple_New 1)
                [0x80; 0x00; 0x00; 0x00; 0x00; 0x00; 0x00; 0x02]
                ["q"]%char 0 true
  = Done tt [Some (PyLong (- 9223372036854775806))] /\
  FormatProcess false (PyTuple_New 1)
                [0x02; 0x00; 0x00; 0x00; 0x00; 0x00; 0x00; 0x80]
                ["Q"]%char 0 false
  = Done tt [Some (PyLong 9223372036854775810)].
Proof.
  split.
  - exact (proj1 (proj1 C4_decode_64 false true true
                    0x80 0x00 0x00 0x00 0x00 0x00 0x00 0x02 eq_refl)).
  - exact (proj1 (proj1 C4_decode_64 false false false
                    0x02 0x00 0x00 0x00 0x00 0x00 0x00 0x80 eq_refl)).
Defined.

(** ** C8: the shared reference count *)

Lemma update_same {A : Type} (m : nat -> A) (k : nat) (v : A) :
  FileWalkerBit.update m k v k = v.
Proof. unfold FileWalkerBit.update. now rewrite Nat.eqb_refl. Qed.

Lemma update_other {A : Type} (m : nat -> A) (k k' : nat) (v : A) :
  k' <> k -> FileWalkerBit.update m k v k' = m k'.
Proof.
  intros Hne. unfold FileWalkerBit.update.
  now replace (Nat.eqb k' k) with false by (symmetry; now apply Nat.eqb_neq).
Qed.

(** The pending-error test of [fwkb_SubWalkerSetup] never fires on a 64-bit
    [long]: after an overflow the converted limit is [2 ^ 64 - 1], not
    [0xFFFFFFFF]. *)
Lemma newLimit_some (c : FileWalkerBit.FWKB_Context) (bitOffset : Z)
  (relative anchor : bool) (newPyLimit : option Z) :
  exists l,
    FileWalkerBit.newLimit c bitOffset relative anchor newPyLimit = Some l.
Proof.
  unfold FileWalkerBit.newLimit. destruct newPyLimit as [n|]; [|eauto].
  unfold FileWalkerBit.PyLong_AsLong.
  destruct ((- 2 ^ 63 <=? n) && (n <? 2 ^ 63)).
  - rewrite andb_false_r. destruct anchor; eauto.
  - replace (ulong (-1) =? 0xFFFFFFFF) with false by reflexivity.
    cbn [andb]. destruct anchor; eauto.
Qed.

Lemma SubWalkerSetup_spec (h : FileWalkerBit.Heap) (p : nat)
  (c : FileWalkerBit.FWKB_Context) (n : Z)
  (bitOffset : Z) (relative anchor : bool) (newPyLimit : option Z) :
  FileWalkerBit.live h p c n ->
  exists child h',
    h' = FileWalkerBit.mkHeap
           (FileWalkerBit.update (FileWalkerBit.counters h)
              (FileWalkerBit.refCount c) (Some (n + 1)))
           (FileWalkerBit.update (FileWalkerBit.contexts h)
              (FileWalkerBit.nextContext h) (Some child))
           (FileWalkerBit.isOpen h)
           (FileWalkerBit.fcloseCalls h)
           (S (FileWalkerBit.nextContext h)) /\
    FileWalkerBit.fwkb_SubWalkerSetup h p bitOffset relative anchor newPyLimit
    = (if match newPyLimit with
          | None => false
          | Some l => snd (FileWalkerBit.PyLong_AsLong l)
          end
       then match FileWalkerBit.FreeContext h' (FileWalkerBit.nextContext h)
            with
            | Some h'' => Raised SystemError h''
            | None => Undefined
            end
       else Done (FileWalkerBit.nextContext h) h') /\
    FileWalkerBit.refCount child = FileWalkerBit.refCount c /\
    FileWalkerBit.f child = FileWalkerBit.f c /\
    FileWalkerBit.origBitStart child = FileWalkerBit.currBitOffset child /\
    FileWalkerBit.currBitOffset child <= FileWalkerBit.bitLimit child.
Proof.
  intros (Hctx & Hlt & Hcnt & Hn & Hopen).
  unfold FileWalkerBit.fwkb_SubWalkerSetup. rewrite Hctx.
  set (off := if negb anchor then _ else bitOffset).
  destruct (newLimit_some c off relative anchor newPyLimit) as [l ->].
  rewrite Hcnt. rewrite ulong_small by lia. cbv zeta.
  eexists _, _. split; [reflexivity|]. split; [reflexivity|].
  cbn [FileWalkerBit.refCount FileWalkerBit.f FileWalkerBit.origBitStart
       FileWalkerBit.currBitOffset FileWalkerBit.bitLimit].
  repeat split. destruct (Z.ltb_spec l off); lia.
Qed.

Lemma FreeContext_spec (h : FileWalkerBit.Heap) (p : nat)
  (c : FileWalkerBit.FWKB_Context) (n : Z) :
  FileWalkerBit.contexts h p = Some c ->
  FileWalkerBit.counters h (FileWalkerBit.refCount c) = Some n ->
  1 <= n < 2 ^ 64 ->
  FileWalkerBit.isOpen h (FileWalkerBit.f c) = true ->
  exists h',
    FileWalkerBit.FreeContext h p = Some h' /\
    FileWalkerBit.contexts h' p = None /\
    (forall p', p' <> p ->
       FileWalkerBit.contexts h' p' = FileWalkerBit.contexts h p') /\
    (n = 1 ->
     FileWalkerBit.counters h' (FileWalkerBit.refCount c) = None /\
     FileWalkerBit.isOpen h' (FileWalkerBit.f c) = false /\
     FileWalkerBit.fcloseCalls h'
     = FileWalkerBit.f c :: FileWalkerBit.fcloseCalls h) /\
    (n <> 1 ->
     FileWalkerBit.counters h' (FileWalkerBit.refCount c) = Some (n - 1) /\
     FileWalkerBit.isOpen h' = FileWalkerBit.isOpen h /\
     FileWalkerBit.fcloseCalls h' = FileWalkerBit.fcloseCalls h).
Proof.
  intros Hctx Hcnt Hn Hopen. unfold FileWalkerBit.FreeContext.
  rewrite Hctx, Hcnt, Hopen. rewrite ulong_small by lia.
  destruct (Z.eqb_spec (n - 1) 0) as [Hz|Hnz].
  - eexists. split; [reflexivity|].
    cbn [FileWalkerBit.contexts FileWalkerBit.counters FileWalkerBit.isOpen
         FileWalkerBit.fcloseCalls].
    split; [apply update_same|].
    split; [intros p' Hne; now apply update_other|].
    split; [|intros; lia].
    intros _. rewrite !update_same. auto.
  - eexists. split; [reflexivity|].
    cbn [FileWalkerBit.contexts FileWalkerBit.counters FileWalkerBit.isOpen
         FileWalkerBit.fcloseCalls].
    split; [apply update_same|].
    split; [intros p' Hne; now apply update_other|].
    split; [intros; lia|].
    intros _. rewrite update_same. auto.
Qed.

(** C8. On a live context (its counter holds [n] with [1 <= n], its file is
    open) a branch makes a new context that shares the file and the counter,
    and the counter holds [n + 1]; destroying a context leaves [n - 1] in the
    counter, and the file is closed, once, exactly when that is zero;
    a branch followed by the destruction of the branch restores the count
    [n] and leaves the parent context, its position included, and the file
    as they were.  The call returns the branch unless the requested limit
    does not fit a [long]: then the branch is made and counted all the same,
    the error that the conversion left pending makes the interpreter drop
    the branch again, which destroys it, and the call ends in [SystemError]
    with the count back at [n]. *)
Theorem C8_reference_count :
  (forall (h : FileWalkerBit.Heap) (p : nat) (c : FileWalkerBit.FWKB_Context)
          (n : Z) (bitOffset : Z) (relative anchor : bool)
          (newPyLimit : option Z),
     FileWalkerBit.live h p c n ->
     exists q h' child h'',
       FileWalkerBit.fwkb_SubWalkerSetup h p bitOffset relative anchor
                                         newPyLimit
       = match newPyLimit with
         | Some l =>
             if (- 2 ^ 63 <=? l) && (l <? 2 ^ 63) then Done q h'
             else Raised SystemError h''
         | None => Done q h'
         end /\
       FileWalkerBit.counters h' (FileWalkerBit.refCount c) = Some (n + 1) /\
       FileWalkerBit.contexts h' q = Some child /\
       FileWalkerBit.refCount child = FileWalkerBit.refCount c /\
       FileWalkerBit.f child = FileWalkerBit.f c /\
       FileWalkerBit.contexts h' p = Some c /\
       FileWalkerBit.isOpen h' = FileWalkerBit.isOpen h /\
       FileWalkerBit.fcloseCalls h' = FileWalkerBit.fcloseCalls h /\
       FileWalkerBit.FreeContext h' q = Some h'' /\
       FileWalkerBit.counters h'' (FileWalkerBit.refCount c) = Some n /\
       FileWalkerBit.contexts h'' p = Some c /\
       FileWalkerBit.contexts h'' q = None /\
       FileWalkerBit.isOpen h'' = FileWalkerBit.isOpen h /\
       FileWalkerBit.fcloseCalls h'' = FileWalkerBit.fcloseCalls h)
  /\
  (forall (h : FileWalkerBit.Heap) (p : nat) (c : FileWalkerBit.FWKB_Context)
          (n : Z),
     FileWalkerBit.live h p c n ->
     exists h',
       FileWalkerBit.FreeContext h p = Some h' /\
       FileWalkerBit.contexts h' p = None /\
       (n = 1 ->
        FileWalkerBit.counters h' (FileWalkerBit.refCount c) = None /\
        FileWalkerBit.isOpen h' (FileWalkerBit.f c) = false /\
        FileWalkerBit.fcloseCalls h'
        = FileWalkerBit.f c :: FileWalkerBit.fcloseCalls h) /\
       (n <> 1 ->
        FileWalkerBit.counters h' (FileWalkerBit.refCount c) = Some (n - 1) /\
        FileWalkerBit.isOpen h' = FileWalkerBit.isOpen h /\
        FileWalkerBit.fcloseCalls h' = FileWalkerBit.fcloseCalls h)).
Proof.
  split.
  - intros h p c n bitOffset relative anchor newPyLimit Hlive.
    destruct (SubWalkerSetup_spec h p c n bitOffset relative anchor
                newPyLimit Hlive) as (child & h' & Eh' & Hrun & Hrc & Hf & _).
    destruct Hlive as (Hctx & Hlt & Hcnt & Hn & Hopen).
    assert (Hne : p <> FileWalkerBit.nextContext h) by lia.
    destruct (FreeContext_spec h' (FileWalkerBit.nextContext h) child (n + 1))
      as (h'' & Hfree & Hgone & Hkeep & _ & Hdec).
    { subst h'. cbn [FileWalkerBit.contexts]. apply update_same. }
    { subst h'. cbn [FileWalkerBit.counters]. rewrite Hrc.
      apply update_same. }
    { lia. }
    { subst h'. cbn [FileWalkerBit.isOpen]. now rewrite Hf. }
    destruct Hdec as (Hc'' & Ho'' & Hl''); [lia|].
    exists (FileWalkerBit.nextContext h), h', child, h''.
    split.
    { rewrite Hrun, Hfree. destruct newPyLimit as [l|]; [|reflexivity].
      unfold FileWalkerBit.PyLong_AsLong.
      destruct ((- 2 ^ 63 <=? l) && (l <? 2 ^ 63)); reflexivity. }
    rewrite Hrc in Hc''. rewrite (Hkeep p Hne), Hc'', Ho'', Hl'', Hfree.
    subst h'.
    cbn [FileWalkerBit.contexts FileWalkerBit.counters FileWalkerBit.isOpen
         FileWalkerBit.fcloseCalls].
    rewrite !update_same. rewrite (update_other _ _ p) by exact Hne.
    repeat (split; [first [reflexivity | assumption | f_equal; lia]|]).
    reflexivity.
  - intros h p c n (Hctx & Hlt & Hcnt & Hn & Hopen).
    destruct (FreeContext_spec h p c n Hctx Hcnt ltac:(lia) Hopen)
      as (h' & Hfree & Hgone & _ & Hlast & Hmore).
    exists h'. repeat split; try assumption; try apply Hlast;
      try apply Hmore; assumption.
Qed.

Lemma C8_reference_count_witness :
  let c := FileWalkerBit.mkFWKB 3 7 64 8 24 64 true in
  (exists q h' h'',
     FileWalkerBit.fwkb_SubWalkerSetup oneWalker 0%nat 16 true false None
     = Done q h' /\
     FileWalkerBit.counters h' 7%nat = Some 2 /\
     FileWalkerBit.FreeContext h' q = Some h'' /\
     FileWalkerBit.counters h'' 7%nat = Some 1 /\
     FileWalkerBit.contexts h'' 0%nat = Some c /\
     FileWalkerBit.fcloseCalls h'' = []) /\
  (exists h'',
     FileWalkerBit.fwkb_SubWalkerSetup oneWalker 0%nat 16 true false
                                       (Some (2 ^ 70))
     = Raised SystemError h'' /\
     FileWalkerBit.counters h'' 7%nat = Some 1 /\
     FileWalkerBit.contexts h'' 0%nat = Some c /\
     FileWalkerBit.fcloseCalls h'' = []) /\
  (exists h',
     FileWalkerBit.FreeContext oneWalker 0%nat = Some h' /\
     FileWalkerBit.isOpen h' 3%nat = false /\
     FileWalkerBit.fcloseCalls h' = [3%nat]).
Proof.
  intros c.
  assert (Hlive : FileWalkerBit.live oneWalker 0%nat c 1)
    by (unfold FileWalkerBit.live; cbn; repeat split; try reflexivity; lia).
  split; [|split].
  - destruct (proj1 C8_reference_count oneWalker 0%nat c 1 16 true false
                None Hlive)
      as (q & h' & child & h'' & Hrun & Hcnt & _ & _ & _ & _ & _ & _
          & Hfree & Hcnt'' & Hctx'' & _ & _ & Hlog).
    exists q, h', h''. repeat split; assumption.
  - destruct (proj1 C8_reference_count oneWalker 0%nat c 1 16 true false
                (Some (2 ^ 70)) Hlive)
      as (q & h' & child & h'' & Hrun & _ & _ & _ & _ & _ & _ & _
          & _ & Hcnt'' & Hctx'' & _ & _ & Hlog).
    exists h''. repeat split; assumption.
  - destruct (proj2 C8_reference_count oneWalker 0%nat c 1 Hlive)
      as (h' & Hfree & _ & Hlast & _).
    destruct (Hlast eq_refl) as (_ & Hclosed & Hlog).
    exists h'. repeat split; assumption.
Defined.

(** ** C9: Pascal strings *)

Lemma strlen_bounds (s : list Z) : 0 <= Utilities.strlen s <= Z.of_nat (length s).
Proof.
  induction s as [|x s IH]; cbn [Utilities.strlen length]; [lia|].
  destruct (x =? 0); lia.
Qed.

(** A string without a zero byte is as long as [strlen] says. *)
Lemma strlen_no_zero (s : list Z) :
  ~ In 0 s -> Utilities.strlen s = Z.of_nat (length s).
Proof.
  induction s as [|x s IH]; intros Hnz; [reflexivity|].
  cbn [Utilities.strlen length].
  destruct (Z.eqb_spec x 0) as [->|Hx]; [exfalso; apply Hnz; now left|].
  rewrite IH by (intros Hin; apply Hnz; now right). lia.
Qed.

Lemma is_code_code_char (c : typeCode) : Utilities.is_code (code_char c) = true.
Proof. destruct c; reflexivity. Qed.

Lemma read_count_digits (ds : list digit) (c : ascii) (rest : list ascii)
  (repeat : Z) :
  is_digit c = false ->
  0 <= repeat -> count_from repeat ds < 2 ^ 64 ->
  Utilities.read_count (map digit_char ds ++ c :: rest) repeat
  = (count_from repeat ds, c :: rest).
Proof.
  intros Hc. revert repeat.
  induction ds as [|d ds IH]; intros repeat Hr Hlt.
  - cbn [map app Utilities.read_count]. now rewrite Hc.
  - cbn [map app Utilities.read_count].
    rewrite digit_char_is_digit, digit_of_digit_char.
    pose proof (digit_value_range d).
    assert (Hstep : 10 * repeat + digit_value d <= count_from repeat (d :: ds))
      by (apply (count_from_mono ds); lia).
    rewrite ulong_small by lia. apply IH; [lia | exact Hlt].
Qed.

Lemma skip_to_count_field (ds : list digit) (code : typeCode)
  (rest : list ascii) :
  Utilities.skip_to_count (map digit_char ds ++ code_char code :: rest)
  = Some (map digit_char ds ++ code_char code :: rest).
Proof.
  destruct ds as [|d ds]; cbn [map app Utilities.skip_to_count].
  - now rewrite is_code_code_char, orb_true_r.
  - now rewrite digit_char_is_digit.
Qed.

Lemma GetNextRepeat_field (ds : list digit) (code : typeCode)
  (rest : list ascii) :
  count_value ds < 2 ^ 64 ->
  Utilities.GetNextRepeat (map digit_char ds ++ code_char code :: rest)
  = Some (repeatCount ds, code_char code :: rest).
Proof.
  intros Hlt. unfold Utilities.GetNextRepeat.
  rewrite skip_to_count_field.
  rewrite read_count_digits
    by (try apply code_char_not_digit; try exact Hlt; lia).
  fold (count_value ds). fold (repeatCount ds).
  cbn [Utilities.skip_to_code]. now rewrite is_code_code_char.
Qed.

Lemma FormatProcess_loop_digits (rob : bool) (b : list Z) (ds : list digit)
  (rest : list ascii) (isBigEndian : bool) (repeat : Z) (st : FP_State) :
  0 <= repeat -> count_from repeat ds < 2 ^ 64 ->
  FormatProcess_loop rob b (map digit_char ds ++ rest) isBigEndian repeat st
  = FormatProcess_loop rob b rest isBigEndian (count_from repeat ds) st.
Proof.
  revert repeat. induction ds as [|d ds IH]; intros repeat Hr Hlt;
    [reflexivity|].
  cbn [map app FormatProcess_loop].
  rewrite digit_char_is_digit, digit_of_digit_char.
  pose proof (digit_value_range d).
  assert (Hstep : 10 * repeat + digit_value d <= count_from repeat (d :: ds))
    by (apply (count_from_mono ds); lia).
  rewrite ulong_small by lia. apply IH; [lia | exact Hlt].
Qed.

(** The encoded field, as the code lays it out: the capped length byte, the
    first [n] bytes of the string, zero padding up to [count] bytes, where
    [n] is the shorter of [strlen] and [count - 1]. *)
Lemma pack_p_spec (count : Z) (s : list Z) :
  1 <= count < 2 ^ 63 ->
  let n := Z.min (Utilities.strlen s) (count - 1) in
  Utilities.pack_p count (PyBytes s)
  = Done (Z.min n 255 :: firstn (Z.to_nat n) s
          ++ List.repeat 0 (Z.to_nat (count - 1 - n))) tt.
Proof.
  intros Hc n. pose proof (strlen_bounds s) as Hs.
  unfold Utilities.pack_p, Utilities.bytes_arg.
  assert (Hn : (if count <=? Utilities.strlen s
                then slong (ulong (count - 1)) else Utilities.strlen s) = n).
  { unfold n. destruct (Z.leb_spec count (Utilities.strlen s)).
    - rewrite ulong_small, slong_small by lia. lia.
    - lia. }
  rewrite Hn. assert (0 <= n <= count - 1) by (unfold n; lia).
  rewrite ulong_small, slong_small by lia.
  replace (n <? 0) with false by (symmetry; apply Z.ltb_ge; lia).
  replace (count - 1 - n <? 0) with false by (symmetry; apply Z.ltb_ge; lia).
  cbn [orb]. do 2 f_equal.
  destruct (Z.ltb_spec 255 n).
  - rewrite Z.min_r by lia. reflexivity.
  - rewrite Z.min_l by lia. apply uchar_small. lia.
Qed.

Lemma ut_Pack_loop_field (fuel : nat) (ds : list digit) (code : typeCode)
  (rest : list ascii) (args : list PyObj) (st : Utilities.Pack_State) :
  count_value ds < 2 ^ 64 ->
  Utilities.ut_Pack_loop (S fuel)
    (map digit_char ds ++ code_char code :: rest) args st
  = match Utilities.ut_Pack_switch (code_char code) (repeatCount ds) args st
    with
    | Done st' _ => Utilities.ut_Pack_loop fuel rest args st'
    | Raised e _ => Raised e tt
    | Undefined => Undefined
    end.
Proof.
  intros Hlt. pose proof (GetNextRepeat_field ds code rest Hlt) as HG.
  destruct ds as [|d ds]; cbn [map app] in *;
    cbn [Utilities.ut_Pack_loop].
  - replace (code_char code =? "000")%char with false by (now destruct code).
    now rewrite HG.
  - replace (digit_char d =? "000")%char with false by (now destruct d).
    now rewrite HG.
Qed.

Lemma ut_Pack_loop_nil (fuel : nat) (args : list PyObj)
  (st : Utilities.Pack_State) :
  Utilities.ut_Pack_loop fuel [] args st = Done st tt.
Proof. destruct fuel; reflexivity. Qed.

Lemma length_firstn_le {A : Type} (n : nat) (l : list A) :
  (n <= length l)%nat -> length (firstn n l) = n.
Proof. intros H. rewrite length_firstn. lia. Qed.

(** The layout of a Pascal-string field of [count] bytes holding [s]. *)
Lemma ut_Pack_p (ds : list digit) (s : list Z) :
  repeatCount ds < 2 ^ 63 ->
  let count := repeatCount ds in
  let n := Z.min (Utilities.strlen s) (count - 1) in
  let field := Z.min n 255 :: firstn (Z.to_nat n) s
               ++ List.repeat 0 (Z.to_nat (count - 1 - n)) in
  Utilities.ut_Pack (render [Field ds Tp]) [PyBytes s]
  = Done (PyBytes field) tt /\
  Z.of_nat (length field) = count.
Proof.
  intros Hlt count n field.
  pose proof (repeatCount_pos ds) as Hpos. fold count in Hpos, Hlt.
  pose proof (strlen_bounds s) as Hs.
  assert (Hn : 0 <= n <= count - 1) by (unfold n; lia).
  assert (Hcv : count_value ds < 2 ^ 64).
  { unfold count, repeatCount in Hlt.
    destruct (Z.eqb_spec (count_value ds) 0); lia. }
  assert (Hlen : Z.of_nat (length field) = count).
  { unfold field. cbn [length].
    rewrite length_app, repeat_length, length_firstn_le by lia. lia. }
  split; [|exact Hlen].
  unfold Utilities.ut_Pack, Utilities.CalcSizeFromFormat.
  rewrite CalcSizeFromFormat_loop_render
    by (cbn [byteSize_with fold_right unitSize]; fold count; lia).
  cbn [byteSize_with itemCount_with fold_right unitSize itemsOf length].
  fold count.
  replace (0 + (1 + 0) =? Z.of_nat 1) with true by reflexivity. cbn [negb].
  cbn [render flat_map render_token]. rewrite app_nil_r.
  rewrite length_app. cbn [length]. rewrite Nat.add_1_r.
  change [code_char Tp] with (code_char Tp :: []).
  rewrite ut_Pack_loop_field by exact Hcv. fold count.
  cbn [code_char Utilities.ut_Pack_switch Utilities.pack_repeat
       Utilities.next_arg Utilities.written nth_error].
  rewrite pack_p_spec by lia. fold n. fold field.
  rewrite ut_Pack_loop_nil. cbn [Utilities.written app].
  rewrite Hlen. replace (count =? 0 + (1 * count + 0)) with true
    by (symmetry; apply Z.eqb_eq; lia).
  reflexivity.
Qed.

Lemma fp_bytes_in_range (b : list Z) (t : list (option PyObj))
  (off index n : Z) :
  0 <= off -> 0 <= n -> off + n <= Z.of_nat (length b) ->
  fp_bytes b (mkFP t off index) n
  = Some (firstn (Z.to_nat n) (skipn (Z.to_nat off) b)).
Proof.
  intros Hoff Hn Hfit. unfold fp_bytes. cbn [fp_b].
  replace (0 <=? off) with true by (symmetry; now apply Z.leb_le).
  replace (0 <=? n) with true by (symmetry; now apply Z.leb_le).
  replace (off + n <=? _) with true by (symmetry; now apply Z.leb_le).
  reflexivity.
Qed.

(** Decoding a Pascal-string field: the length byte says how many of the
    bytes after it are the string. *)
Lemma FormatProcess_p (rob isBigEndian : bool) (ds : list digit)
  (lengthByte : Z) (body : list Z) :
  count_value ds < 2 ^ 64 ->
  0 <= lengthByte <= Z.of_nat (length body) ->
  FormatProcess rob (PyTuple_New 1) (lengthByte :: body)
                (render [Field ds Tp]) 0 isBigEndian
  = Done tt [Some (PyBytes (firstn (Z.to_nat lengthByte) body))].
Proof.
  intros Hcv Hlen. unfold FormatProcess.
  cbn [render flat_map render_token]. rewrite app_nil_r.
  rewrite FormatProcess_loop_digits by (fold (count_value ds); lia).
  fold (count_value ds).
  cbn [FormatProcess_loop code_char].
  replace (is_digit "p") with false by reflexivity.
  fold (repeatCount ds).
  cbn [FormatProcess_switch].
  rewrite fp_bytes_in_range by (cbn [length]; lia).
  change (firstn (Z.to_nat 1) (skipn (Z.to_nat 0) (lengthByte :: body)))
    with [lengthByte].
  cbv iota beta. cbn [fp_t fp_b fp_index]. change (0 + 1) with 1.
  rewrite fp_bytes_in_range by (cbn [length]; lia).
  change (skipn (Z.to_nat 1) (lengthByte :: body)) with body.
  reflexivity.
Qed.

(** C9 as stated fails: a three-byte string with a zero byte in the middle
    fits a field of capacity 4, but [ut_Pack] measures it with [strlen],
    stores only the byte before the zero, and decoding returns that one
    byte. *)
Lemma C9_counterexample :
  let s := [0x41; 0x00; 0x43] in
  let format := render [Field [D4] Tp] in
  format = list_ascii_of_string "4p" /\
  Z.of_nat (length s) <= 255 /\ Z.of_nat (length s) <= 4 - 1 /\
  Utilities.ut_Pack format [PyBytes s]
  = Done (PyBytes [0x01; 0x41; 0x00; 0x00]) tt /\
  FormatProcess false (PyTuple_New 1) [0x01; 0x41; 0x00; 0x00] format 0 true
  = Done tt [Some (PyBytes [0x41])] /\
  [0x41] <> s.
Proof.
  cbv zeta.
  repeat split; try reflexivity; try (cbn [length Z.of_nat]; lia).
  discriminate.
Qed.

(** C9 (amended). Encoding a byte string into a Pascal-string field of
    declared capacity [count] writes [count] bytes: a length byte, then the
    first [n] bytes of the string, then zero padding, where [n] is the
    smaller of [count - 1] and the length of the string up to its first zero
    byte, and the length byte is [n] capped at 255.  For every string
    without a zero byte, of length at most 255 and at most [count - 1],
    decoding the encoded field returns the original string. *)
Theorem C9_pascal_string :
  forall (ds : list digit) (s : list Z),
    repeatCount ds < 2 ^ 63 ->
    let count := repeatCount ds in
    let n := Z.min (Utilities.strlen s) (count - 1) in
    let field := Z.min n 255 :: firstn (Z.to_nat n) s
                 ++ List.repeat 0 (Z.to_nat (count - 1 - n)) in
    Utilities.ut_Pack (render [Field ds Tp]) [PyBytes s]
    = Done (PyBytes field) tt /\
    Z.of_nat (length field) = count /\
    0 <= n <= count - 1 /\
    (~ In 0 s -> Z.of_nat (length s) <= 255 ->
     Z.of_nat (length s) <= count - 1 ->
     forall rob isBigEndian,
       FormatProcess rob (PyTuple_New 1) field (render [Field ds Tp])
                     0 isBigEndian
       = Done tt [Some (PyBytes s)]).
Proof.
  intros ds s Hlt count n field.
  destruct (ut_Pack_p ds s Hlt) as [Hpack Hlen].
  pose proof (repeatCount_pos ds) as Hpos. fold count in Hpos, Hlt.
  pose proof (strlen_bounds s) as Hs.
  assert (Hn : 0 <= n <= count - 1) by (unfold n; lia).
  split; [exact Hpack|]. split; [exact Hlen|]. split; [exact Hn|].
  intros Hnz H255 Hfits rob isBigEndian.
  assert (Hcv : count_value ds < 2 ^ 64).
  { unfold count, repeatCount in Hlt.
    destruct (Z.eqb_spec (count_value ds) 0); lia. }
  assert (En : n = Z.of_nat (length s)).
  { unfold n. rewrite (strlen_no_zero s Hnz). lia. }
  unfold field. rewrite FormatProcess_p.
  - rewrite Z.min_l by lia. rewrite En, Nat2Z.id.
    rewrite firstn_all. rewrite firstn_app, firstn_all.
    rewrite Nat.sub_diag. cbn [firstn]. now rewrite app_nil_r.
  - exact Hcv.
  - rewrite length_app, repeat_length, length_firstn_le by lia. lia.
Qed.

Lemma C9_pascal_string_witness :
  Utilities.ut_Pack (render [Field [D6] Tp]) [PyBytes [0x66; 0x6F; 0x6F]]
  = Done (PyBytes [0x03; 0x66; 0x6F; 0x6F; 0x00; 0x00]) tt /\
  FormatProcess false (PyTuple_New 1) [0x03; 0x66; 0x6F; 0x6F; 0x00; 0x00]
                (render [Field [D6] Tp]) 0 true
  = Done tt [Some (PyBytes [0x66; 0x6F; 0x6F])].
Proof.
  destruct (C9_pascal_string [D6] [0x66; 0x6F; 0x6F])
    as (Hpack & _ & _ & Hback); [reflexivity|].
  split; [exact Hpack|].
  apply Hback; cbn; [intros [H|[H|[H|[]]]]; discriminate | lia | lia].
Defined.

(** ** C7: reading the rest

    First, the tuple that a run of [PyTuple_SetItem] calls leaves. *)

Lemma PyTuple_SetItem_set_items (t : list (option PyObj)) (index : Z)
  (obj : PyObj) :
  0 <= index < Z.of_nat (length t) ->
  PyTuple_SetItem t index obj = Some (set_items t index [obj]).
Proof.
  intros Hi. unfold PyTuple_SetItem, set_items.
  replace (0 <=? index) with true by (symmetry; apply Z.leb_le; lia).
  replace (index <? _) with true by (symmetry; apply Z.ltb_lt; lia).
  cbn [andb map app length]. now rewrite Nat.add_1_r.
Qed.

Lemma set_items_nil (t : list (option PyObj)) (index : Z) :
  set_items t index [] = t.
Proof.
  unfold set_items. cbn [map app length]. rewrite Nat.add_0_r.
  apply firstn_skipn.
Qed.

Lemma set_items_length (t : list (option PyObj)) (index : Z)
  (objs : list PyObj) :
  0 <= index -> index + Z.of_nat (length objs) <= Z.of_nat (length t) ->
  length (set_items t index objs) = length t.
Proof.
  intros Hi Hfit. unfold set_items.
  rewrite !length_app, length_map, length_firstn, length_skipn. lia.
Qed.

Lemma set_items_app (t : list (option PyObj)) (index : Z)
  (objs1 objs2 : list PyObj) :
  0 <= index -> index + Z.of_nat (length objs1) <= Z.of_nat (length t) ->
  set_items (set_items t index objs1) (index + Z.of_nat (length objs1)) objs2
  = set_items t index (objs1 ++ objs2).
Proof.
  intros Hi Hfit. unfold set_items.
  replace (Z.to_nat (index + Z.of_nat (length objs1)))
    with (Z.to_nat index + length objs1)%nat by lia.
  set (i := Z.to_nat index).
  assert (Hlen : length (firstn i t ++ map Some objs1)
                 = (i + length objs1)%nat).
  { rewrite length_app, length_map, length_firstn. lia. }
  rewrite (app_assoc (firstn i t) (map Some objs1)).
  rewrite <- Hlen at 1.
  rewrite <- (Nat.add_0_r (length (firstn i t ++ map Some objs1))) at 1.
  rewrite firstn_app_2, firstn_O, app_nil_r.
  rewrite skipn_app, Hlen.
  rewrite (skipn_all2 (firstn i t ++ map Some objs1)) by lia.
  rewrite skipn_skipn, map_app, length_app. cbn [app].
  rewrite <- !app_assoc. do 3 f_equal. f_equal. lia.
Qed.



(** [FormatProcess] on a rendered format without Pascal strings consumes
    exactly the bytes and fills exactly the slots that [FormatByteSize]
    announces; the objects it stores depend on the bytes, not on the tuple
    they go to. *)

Lemma fp_set_items (t : list (option PyObj)) (off index u : Z) (obj : PyObj) :
  0 <= index < Z.of_nat (length t) ->
  fp_set (mkFP t off index) u obj
  = Done tt (mkFP (set_items t index [obj]) (off + u) (index + 1)).
Proof.
  intros Hi. unfold fp_set. cbn [fp_t fp_b fp_index].
  now rewrite PyTuple_SetItem_set_items.
Qed.













Lemma FormatByteSize_render (ts : list token) :
  byteSize_with repeatCount ts < 2 ^ 64 ->
  FormatByteSize (render ts)
  = (byteSize_with repeatCount ts, itemCount_with repeatCount ts).
Proof.
  intros Hlt. unfold FormatByteSize.
  rewrite FormatByteSize_loop_render by lia. reflexivity.
Qed.


(** Moving the cursor of a bit walker. *)

Lemma wkb_set_same (c : WalkerBit.WKB_Context) :
  WalkerBit.set_currBitOffset c (WalkerBit.currBitOffset c) = c.
Proof. now destruct c. Qed.

Lemma wkb_set_set (c : WalkerBit.WKB_Context) (v w : Z) :
  WalkerBit.set_currBitOffset (WalkerBit.set_currBitOffset c v) w
  = WalkerBit.set_currBitOffset c w.
Proof. reflexivity. Qed.

Lemma wkb_valid_set (c : WalkerBit.WKB_Context) (v : Z) :
  WalkerBit.valid c = true -> 0 <= v ->
  WalkerBit.valid (WalkerBit.set_currBitOffset c v) = true.
Proof.
  intros Hv Hpos. apply wkb_valid_elim in Hv.
  destruct Hv as (Hok & _ & Hlim & Hbuf).
  unfold WalkerBit.valid, WalkerBit.set_currBitOffset.
  cbn [WalkerBit.liveBuffer WalkerBit.currBitOffset WalkerBit.bitLimit].
  rewrite Hok. cbn [andb].
  rewrite !andb_true_iff, Z.leb_le, Z.ltb_lt, Z.leb_le. tauto.
Qed.

Lemma bitSlice_whole_length (buf : list Z) (start size : Z) :
  0 <= size -> Z.of_nat (length (bitSlice buf start (8 * size))) = size.
Proof.
  intros Hs. rewrite bitSlice_length. unfold byteLength.
  replace ((8 * size + 7) / 8) with size; [lia|].
  apply (Z.div_unique _ 8 size 7); lia.
Qed.








(** * Further properties of the code

    ** utilities.c: [ut_Checksum] *)

Lemma list_ind4 (P : list Z -> Prop) :
  P [] -> (forall a, P [a]) -> (forall a b, P [a; b]) ->
  (forall a b c, P [a; b; c]) ->
  (forall a b c d l, P l -> P (a :: b :: c :: d :: l)) ->
  forall l, P l.
Proof.
  intros H0 H1 H2 H3 H4 l.
  assert (H : P l /\ (forall a, P (a :: l)) /\ (forall a b, P (a :: b :: l))
              /\ (forall a b c, P (a :: b :: c :: l))).
  { induction l as [|x l (IH0 & IH1 & IH2 & IH3)]; auto. }
  exact (proj1 H).
Qed.

Lemma sint_congruent (x : Z) : exists k, sint x = x + 2 ^ 32 * k.
Proof.
  exists (- ((x + 2 ^ 31) / 2 ^ 32)). unfold sint.
  pose proof (Z.div_mod (x + 2 ^ 31) (2 ^ 32) ltac:(lia)). lia.
Qed.

Lemma checksum_word_congruent (d0 d1 d2 d3 : Z) :
  exists k, Utilities.checksum_word d0 d1 d2 d3 = be32 d0 d1 d2 d3 + 2 ^ 32 * k.
Proof.
  unfold Utilities.checksum_word, be32.
  rewrite !Z.shiftl_mul_pow2 by lia.
  destruct (sint_congruent (d0 * 2 ^ 24)) as [k1 ->].
  destruct (sint_congruent (d0 * 2 ^ 24 + 2 ^ 32 * k1 + d1 * 2 ^ 16))
    as [k2 ->].
  destruct (sint_congruent
              (d0 * 2 ^ 24 + 2 ^ 32 * k1 + d1 * 2 ^ 16 + 2 ^ 32 * k2
               + d2 * 2 ^ 8)) as [k3 ->].
  destruct (sint_congruent
              (d0 * 2 ^ 24 + 2 ^ 32 * k1 + d1 * 2 ^ 16 + 2 ^ 32 * k2
               + d2 * 2 ^ 8 + 2 ^ 32 * k3 + d3)) as [k4 ->].
  exists (k1 + k2 + k3 + k4). lia.
Qed.

Lemma ulong_mod32 (x : Z) : ulong x mod 2 ^ 32 = x mod 2 ^ 32.
Proof.
  unfold ulong. pose proof (Z.div_mod x (2 ^ 64) ltac:(lia)) as H.
  replace (x mod 2 ^ 64) with (x + (- (x / 2 ^ 64) * 2 ^ 32) * 2 ^ 32)
    by (pow2_numerals; lia).
  apply Z.mod_add. lia.
Qed.

Lemma checksum_step (checksum d0 d1 d2 d3 rest : Z) :
  (ulong (checksum + Utilities.checksum_word d0 d1 d2 d3) + rest) mod 2 ^ 32
  = (checksum + (be32 d0 d1 d2 d3 + rest)) mod 2 ^ 32.
Proof.
  rewrite Z.add_mod, ulong_mod32, <- Z.add_mod by lia.
  destruct (checksum_word_congruent d0 d1 d2 d3) as [k ->].
  replace (checksum + (be32 d0 d1 d2 d3 + 2 ^ 32 * k) + rest)
    with (checksum + (be32 d0 d1 d2 d3 + rest) + k * 2 ^ 32) by lia.
  apply Z.mod_add. lia.
Qed.

Lemma Checksum_loop_word_sum (s : list Z) :
  forall checksum,
    Utilities.Checksum_loop s checksum mod 2 ^ 32
    = (checksum + word_sum s) mod 2 ^ 32.
Proof.
  induction s as [|a|a b|a b c|a b c d l IH] using list_ind4;
    intros checksum; cbn [Utilities.Checksum_loop word_sum].
  - now rewrite Z.add_0_r.
  - rewrite <- (Z.add_0_r (ulong _)), checksum_step. now rewrite Z.add_0_r.
  - rewrite <- (Z.add_0_r (ulong _)), checksum_step. now rewrite Z.add_0_r.
  - rewrite <- (Z.add_0_r (ulong _)), checksum_step. now rewrite Z.add_0_r.
  - rewrite IH. apply checksum_step.
Qed.

(** X1. The checksum of a byte string is the sum of its big-endian 32-bit
    words, the last one filled up with zero bytes, modulo [2 ^ 32]. *)
Theorem ut_Checksum_word_sum (s : list Z) :
  Utilities.ut_Checksum (PyBytes s)
  = Done (PyLong (word_sum s mod 2 ^ 32)) tt.
Proof.
  unfold Utilities.ut_Checksum. do 2 f_equal.
  change 0xFFFFFFFF with (Z.ones 32). rewrite Z.land_ones by lia.
  now rewrite Checksum_loop_word_sum.
Qed.

Lemma ulong_range (x : Z) : 0 <= ulong x < 2 ^ 64.
Proof. unfold ulong. apply Z.mod_pos_bound. lia. Qed.

Lemma checksum_word_zero : Utilities.checksum_word 0 0 0 0 = 0.
Proof. reflexivity. Qed.

Lemma Checksum_loop_zeros (k : nat) (checksum : Z) :
  0 <= checksum < 2 ^ 64 ->
  Utilities.Checksum_loop (List.repeat 0 k) checksum = checksum.
Proof.
  intros Hc.
  assert (H : forall k,
             Utilities.Checksum_loop (List.repeat 0 k) checksum = checksum /\
             Utilities.Checksum_loop (List.repeat 0 (1 + k)) checksum
             = checksum /\
             Utilities.Checksum_loop (List.repeat 0 (2 + k)) checksum
             = checksum /\
             Utilities.Checksum_loop (List.repeat 0 (3 + k)) checksum
             = checksum).
  { assert (Hz : ulong (checksum + 0) = checksum)
      by (rewrite Z.add_0_r; now apply ulong_small).
    induction k0 as [|k0 (IH0 & IH1 & IH2 & IH3)].
    - cbn [List.repeat Nat.add Utilities.Checksum_loop].
      rewrite checksum_word_zero. auto.
    - repeat split; try assumption.
      cbn [List.repeat Nat.add Utilities.Checksum_loop].
      rewrite checksum_word_zero, Hz. exact IH0. }
  apply H.
Qed.

Lemma Checksum_loop_range (s : list Z) :
  forall checksum,
    0 <= checksum < 2 ^ 64 ->
    0 <= Utilities.Checksum_loop s checksum < 2 ^ 64.
Proof.
  induction s as [|a|a b|a b c|a b c d l IH] using list_ind4;
    intros checksum Hc; cbn [Utilities.Checksum_loop];
    auto using ulong_range.
Qed.

Lemma repeat_zero_cases (k : nat) :
  k = 0%nat \/ k = 1%nat \/ k = 2%nat \/
  exists k', k = (3 + k')%nat.
Proof.
  destruct k as [|[|[|k]]]; auto. right. right. right. now exists k.
Qed.

Lemma Checksum_loop_trailing_zeros (s : list Z) (k : nat) :
  forall checksum,
    0 <= checksum < 2 ^ 64 ->
    Utilities.Checksum_loop (s ++ List.repeat 0 k) checksum
    = Utilities.Checksum_loop s checksum.
Proof.
  induction s as [|a|a b|a b c|a b c d l IH] using list_ind4;
    intros checksum Hc.
  - cbn [app Utilities.Checksum_loop]. now apply Checksum_loop_zeros.
  - destruct (repeat_zero_cases k) as [->|[->|[->|[k' ->]]]];
      cbn [app List.repeat Nat.add Utilities.Checksum_loop];
      try reflexivity.
    apply Checksum_loop_zeros, ulong_range.
  - destruct k as [|[|k]];
      cbn [app List.repeat Utilities.Checksum_loop]; try reflexivity.
    apply Checksum_loop_zeros, ulong_range.
  - destruct k as [|k];
      cbn [app List.repeat Utilities.Checksum_loop]; try reflexivity.
    apply Checksum_loop_zeros, ulong_range.
  - cbn [app Utilities.Checksum_loop]. apply IH, ulong_range.
Qed.

(** X2. Zero bytes appended to the data never change its checksum. *)
Theorem ut_Checksum_trailing_zeros (s : list Z) (k : nat) :
  Utilities.ut_Checksum (PyBytes (s ++ List.repeat 0 k))
  = Utilities.ut_Checksum (PyBytes s).
Proof.
  unfold Utilities.ut_Checksum.
  rewrite Checksum_loop_trailing_zeros by lia. reflexivity.
Qed.

(** ** utilities.c: [ut_Explode] and [ut_Implode] *)









(** ** walkerbit.c: pieces, Pascal strings, alignment *)

Lemma shiftr3_div (x : Z) : Z.shiftr x 3 = x / 8.
Proof. now rewrite Z.shiftr_div_pow2 by lia. Qed.

Lemma wkb_bytes_of_bitSlice (buf : list Z) (start n : Z) :
  0 <= n -> n + 7 < 2 ^ 64 ->
  WalkerBit.bytes_of_buffer (bitSlice buf start n)
                            (Z.shiftr (ulong (n + 7)) 3)
  = Some (PyBytes (bitSlice buf start n)).
Proof.
  intros Hn Hlt. unfold WalkerBit.bytes_of_buffer.
  rewrite ulong_small, shiftr3_div, bitSlice_length by lia.
  fold (byteLength n).
  assert (0 <= byteLength n) by (unfold byteLength; apply Z.div_pos; lia).
  replace (Z.max 0 (byteLength n) =? byteLength n) with true
    by (symmetry; apply Z.eqb_eq; lia).
  reflexivity.
Qed.

Lemma wkb_curr_set (c : WalkerBit.WKB_Context) (v : Z) :
  WalkerBit.currBitOffset (WalkerBit.set_currBitOffset c v) = v.
Proof. reflexivity. Qed.

Lemma wkb_buffer_set (c : WalkerBit.WKB_Context) (v : Z) :
  WalkerBit.liveBuffer (WalkerBit.set_currBitOffset c v)
  = WalkerBit.liveBuffer c.
Proof. reflexivity. Qed.

Lemma wkb_limit_set (c : WalkerBit.WKB_Context) (v : Z) :
  WalkerBit.bitLimit (WalkerBit.set_currBitOffset c v) = WalkerBit.bitLimit c.
Proof. reflexivity. Qed.

(** X5. [wkb_Piece] on a valid walker whose origin is not negative, for an
    offset and a length that are not negative and a request that ends below
    [2 ^ 64 - 7], so that none of the unsigned sums wraps: the call returns
    the requested bits, taken where the request says, when they end at or
    before the limit, and raises [IndexError] when they do not; either way
    the cursor is where it was. *)
Theorem wkb_Piece_keeps_cursor (c : WalkerBit.WKB_Context)
  (bitLength bitOffset : Z) (relative : bool) :
  WalkerBit.valid c = true ->
  0 <= WalkerBit.origBitStart c ->
  0 <= bitLength -> 0 <= bitOffset ->
  let start :=
    bitOffset + (if relative then WalkerBit.currBitOffset c
                 else WalkerBit.origBitStart c) in
  start + bitLength + 7 < 2 ^ 64 ->
  WalkerBit.wkb_Piece c bitLength bitOffset relative
  = if start + bitLength <=? WalkerBit.bitLimit c
    then Done (PyBytes (bitSlice (WalkerBit.liveBuffer c) start bitLength)) c
    else Raised IndexError c.
Proof.
  intros Hv Ho Hl Hb start Hlt.
  pose proof (wkb_valid_elim c Hv) as (_ & Hcurr & _ & _).
  assert (Hs : 0 <= start) by (unfold start; destruct relative; lia).
  unfold WalkerBit.wkb_Piece. fold start.
  rewrite (ulong_small start) by lia.
  rewrite (ulong_small (start + bitLength)) by lia.
  destruct (Z.leb_spec (start + bitLength) (WalkerBit.bitLimit c))
    as [Hfit|Hpast]; cbn [negb]; [|reflexivity].
  rewrite wkb_extract
    by (try apply wkb_valid_set; try assumption;
        rewrite ?wkb_curr_set, ?wkb_limit_set; lia).
  rewrite wkb_curr_set, wkb_buffer_set.
  rewrite wkb_bytes_of_bitSlice by lia.
  rewrite !wkb_set_set, wkb_set_same. reflexivity.
Qed.

Lemma wkb_Piece_keeps_cursor_witness :
  WalkerBit.wkb_Piece (WalkerBit.mkWKB [0x12; 0x34; 0x56] 0 4 24 true)
                      8 12 false
  = Done (PyBytes [0x45]) (WalkerBit.mkWKB [0x12; 0x34; 0x56] 0 4 24 true).
Proof.
  apply (wkb_Piece_keeps_cursor
           (WalkerBit.mkWKB [0x12; 0x34; 0x56] 0 4 24 true) 8 12 false);
    [reflexivity | simpl; lia | lia | lia | simpl; lia].
Defined.

Lemma bitSlice_byte (buf : list Z) (start : Z) :
  exists x, bitSlice buf start 8 = [x] /\ 0 <= x < 256.
Proof.
  exists (sliceByte buf start 8 0). split; [reflexivity|].
  unfold sliceByte. apply byteOfBits_range.
Qed.

(** X6. [wkb_PascalString] reads the length byte at the cursor and returns
    the bytes after it, leaving the cursor after them; when the string
    runs past the limit it raises [IndexError] with the cursor already
    moved past the length byte. *)
Theorem wkb_PascalString_reads (c : WalkerBit.WKB_Context) :
  WalkerBit.valid c = true ->
  WalkerBit.bitLimit c < 2 ^ 63 ->
  WalkerBit.currBitOffset c + 8 <= WalkerBit.bitLimit c ->
  exists lengthByte,
    bitSlice (WalkerBit.liveBuffer c) (WalkerBit.currBitOffset c) 8
    = [lengthByte] /\
    0 <= lengthByte < 256 /\
    WalkerBit.wkb_PascalString c
    = if WalkerBit.currBitOffset c + 8 + 8 * lengthByte
         <=? WalkerBit.bitLimit c
      then Done (PyBytes (bitSlice (WalkerBit.liveBuffer c)
                                   (WalkerBit.currBitOffset c + 8)
                                   (8 * lengthByte)))
                (WalkerBit.set_currBitOffset c
                   (WalkerBit.currBitOffset c + 8 + 8 * lengthByte))
      else Raised IndexError
                  (WalkerBit.set_currBitOffset c
                     (WalkerBit.currBitOffset c + 8)).
Proof.
  intros Hv Hsmall Hfit.
  pose proof (wkb_valid_elim c Hv) as (_ & Hcurr & Hlim & _).
  destruct (bitSlice_byte (WalkerBit.liveBuffer c)
                          (WalkerBit.currBitOffset c))
    as (lengthByte & Hslice & Hrange).
  exists lengthByte. split; [exact Hslice|]. split; [exact Hrange|].
  unfold WalkerBit.wkb_PascalString.
  rewrite wkb_extract, Hslice by (assumption || lia).
  rewrite ulong_small by lia.
  set (c1 := WalkerBit.set_currBitOffset c (WalkerBit.currBitOffset c + 8)).
  assert (Hv1 : WalkerBit.valid c1 = true)
    by (apply wkb_valid_set; [exact Hv | lia]).
  destruct (Z.leb_spec (WalkerBit.currBitOffset c + 8 + 8 * lengthByte)
                       (WalkerBit.bitLimit c)) as [Hin|Hout].
  - rewrite wkb_extract
      by (try assumption; unfold c1;
          rewrite ?wkb_curr_set, ?wkb_limit_set; lia).
    unfold c1 at 1 2. rewrite wkb_curr_set, wkb_buffer_set.
    unfold WalkerBit.bytes_of_buffer.
    rewrite bitSlice_whole_length by lia. rewrite Z.eqb_refl.
    unfold c1. rewrite wkb_set_set. reflexivity.
  - rewrite wkb_extract_past_limit
      by (unfold c1; rewrite ?wkb_curr_set, ?wkb_limit_set; lia).
    reflexivity.
Qed.

Lemma wkb_PascalString_reads_witness :
  WalkerBit.wkb_PascalString
    (WalkerBit.mkWKB [0x02; 0x41; 0x42; 0x43] 0 0 32 true)
  = Done (PyBytes [0x41; 0x42])
         (WalkerBit.mkWKB [0x02; 0x41; 0x42; 0x43] 0 24 32 true).
Proof.
  destruct (wkb_PascalString_reads
              (WalkerBit.mkWKB [0x02; 0x41; 0x42; 0x43] 0 0 32 true))
    as (lengthByte & Hslice & _ & Hrun);
    [reflexivity | simpl; lia | simpl; lia |].
  vm_compute in Hslice. injection Hslice as <-. exact Hrun.
Defined.

(** X7. [wkb_Align] for a multiple of at least 1 and a cursor that stands at
    or after the point it is aligned from (the origin, which is not
    negative, or bit 0 when absolute) and less than [2 ^ 64 - bitMultiple]:
    the call moves the cursor forward to the next position whose distance
    from that point is a multiple of [bitMultiple], by less than
    [bitMultiple] bits and not at all when it is aligned already; when that
    position is past the limit the call raises [IndexError] and the cursor
    stays at the new position. *)
Theorem wkb_Align_next_multiple (c : WalkerBit.WKB_Context)
  (bitMultiple : Z) (absolute : bool) :
  0 < bitMultiple ->
  let adjust := if absolute then 0 else WalkerBit.origBitStart c in
  0 <= adjust <= WalkerBit.currBitOffset c ->
  WalkerBit.currBitOffset c + bitMultiple < 2 ^ 64 ->
  exists aligned,
    WalkerBit.wkb_Align c bitMultiple absolute
    = (if aligned <=? WalkerBit.bitLimit c
       then Done PyNone (WalkerBit.set_currBitOffset c aligned)
       else Raised IndexError (WalkerBit.set_currBitOffset c aligned)) /\
    (aligned - adjust) mod bitMultiple = 0 /\
    WalkerBit.currBitOffset c <= aligned
    < WalkerBit.currBitOffset c + bitMultiple /\
    ((WalkerBit.currBitOffset c - adjust) mod bitMultiple = 0 ->
     aligned = WalkerBit.currBitOffset c).
Proof.
  intros Hm adjust Hadj Hlt.
  set (adjOff := WalkerBit.currBitOffset c - adjust).
  set (q := (adjOff + bitMultiple - 1) / bitMultiple).
  assert (Hq : bitMultiple * q <= adjOff + bitMultiple - 1
               < bitMultiple * q + bitMultiple).
  { pose proof (Z.div_mod (adjOff + bitMultiple - 1) bitMultiple
                  ltac:(lia)) as Hdm.
    pose proof (Z.mod_pos_bound (adjOff + bitMultiple - 1) bitMultiple Hm).
    fold q in Hdm. lia. }
  assert (Hq0 : 0 <= q) by (apply Z.div_pos; unfold adjOff; lia).
  exists (q * bitMultiple + adjust).
  split; [|split; [|split]].
  - unfold WalkerBit.wkb_Align. fold adjust. fold adjOff.
    replace (bitMultiple =? 0) with false by (symmetry; apply Z.eqb_neq; lia).
    rewrite (ulong_small adjOff) by (unfold adjOff; lia).
    rewrite (ulong_small (adjOff + bitMultiple)) by (unfold adjOff; lia).
    rewrite (ulong_small (adjOff + bitMultiple - 1))
      by (unfold adjOff; lia).
    fold q.
    rewrite (ulong_small (q * bitMultiple)) by (unfold adjOff in *; nia).
    rewrite (ulong_small (q * bitMultiple + adjust))
      by (unfold adjOff in *; nia).
    reflexivity.
  - replace (q * bitMultiple + adjust - adjust) with (q * bitMultiple)
      by lia.
    apply Z.mod_mul. lia.
  - unfold adjOff in *. nia.
  - intros Hal. fold adjOff in Hal.
    apply Z.mod_divide in Hal; [|lia]. destruct Hal as [k Hk].
    assert (q = k); [|unfold adjOff in *; nia].
    unfold q. rewrite Hk.
    replace (k * bitMultiple + bitMultiple - 1)
      with (bitMultiple - 1 + k * bitMultiple) by lia.
    rewrite Z.div_add, Z.div_small by lia. lia.
Qed.

Lemma wkb_Align_next_multiple_witness :
  WalkerBit.wkb_Align (WalkerBit.mkWKB [1; 2; 3] 0 17 24 true) 16 true
  = Raised IndexError (WalkerBit.mkWKB [1; 2; 3] 0 32 24 true).
Proof.
  destruct (wkb_Align_next_multiple
              (WalkerBit.mkWKB [1; 2; 3] 0 17 24 true) 16 true)
    as (aligned & Hrun & Hmod & Hrange & _);
    [lia | simpl; lia | simpl; lia |].
  simpl in Hmod, Hrange.
  assert (aligned = 32).
  { rewrite Z.sub_0_r in Hmod. apply Z.mod_divide in Hmod; [|lia].
    destruct Hmod as [k Hk]. lia. }
  subst aligned. exact Hrun.
Defined.

(** ** walkerbit.c: the absolute rest, sub-walkers, seek and tell *)

Lemma shiftl3_mul (x : Z) : Z.shiftl x 3 = 8 * x.
Proof. rewrite Z.shiftl_mul_pow2 by lia. change (2 ^ 3) with 8. lia. Qed.

(** X8. [wkb_AbsRest], which is to return everything from an absolute
    offset to the end of the whole buffer, does so only for a walker whose
    limit is the end of the buffer: the read goes through the walker's own
    limit, so for a walker with a smaller limit, as for an offset at or
    past the end, it raises [IndexError].  The cursor is never moved. *)
Theorem wkb_AbsRest_needs_full_limit (c : WalkerBit.WKB_Context)
  (bitOffset : Z) :
  WalkerBit.valid c = true ->
  0 <= WalkerBit.origBitStart c -> 0 <= bitOffset ->
  WalkerBit.origBitStart c + bitOffset < 2 ^ 64 ->
  8 * Z.of_nat (length (WalkerBit.liveBuffer c)) + 7 < 2 ^ 64 ->
  let full := 8 * Z.of_nat (length (WalkerBit.liveBuffer c)) in
  let start := WalkerBit.origBitStart c + bitOffset in
  WalkerBit.wkb_AbsRest c bitOffset
  = if (start <? full) && (full <=? WalkerBit.bitLimit c)
    then Done (PyBytes (bitSlice (WalkerBit.liveBuffer c) start
                                 (full - start))) c
    else Raised IndexError c.
Proof.
  intros Hv Ho Hb Hlt Hfull full start.
  pose proof (wkb_valid_elim c Hv) as (Hok & Hcurr & Hlim & Hbuf).
  unfold WalkerBit.wkb_AbsRest. rewrite shiftl3_mul. fold full start.
  rewrite (ulong_small full), (ulong_small start) by (unfold full; lia).
  destruct (Z.ltb_spec start full) as [Hin|Hout]; cbn [negb andb];
    [|reflexivity].
  rewrite (ulong_small (full - start)) by lia.
  set (temp := WalkerBit.mkWKB (WalkerBit.liveBuffer c) 0 start
                 (WalkerBit.bitLimit c) (WalkerBit.isBigEndian c)).
  assert (Hvt : WalkerBit.valid temp = true).
  { unfold WalkerBit.valid, temp.
    cbn [WalkerBit.liveBuffer WalkerBit.currBitOffset WalkerBit.bitLimit].
    rewrite Hok. cbn [andb].
    rewrite !andb_true_iff, Z.leb_le, Z.ltb_lt, Z.leb_le.
    unfold start. lia. }
  destruct (Z.leb_spec full (WalkerBit.bitLimit c)) as [Hend|Hshort].
  - rewrite wkb_extract
      by (try exact Hvt; unfold temp;
          cbn [WalkerBit.currBitOffset WalkerBit.bitLimit]; lia).
    unfold temp at 1 2.
    cbn [WalkerBit.liveBuffer WalkerBit.currBitOffset].
    rewrite wkb_bytes_of_bitSlice by lia. reflexivity.
  - rewrite wkb_extract_past_limit
      by (unfold temp; cbn [WalkerBit.currBitOffset WalkerBit.bitLimit];
          lia).
    reflexivity.
Qed.

Lemma wkb_AbsRest_needs_full_limit_witness :
  WalkerBit.wkb_AbsRest (WalkerBit.mkWKB [0x12; 0x34; 0x56] 8 8 16 true) 0
  = Raised IndexError (WalkerBit.mkWKB [0x12; 0x34; 0x56] 8 8 16 true).
Proof.
  apply (wkb_AbsRest_needs_full_limit
           (WalkerBit.mkWKB [0x12; 0x34; 0x56] 8 8 16 true) 0);
    [reflexivity | simpl; lia | lia | simpl; lia | simpl; lia].
Defined.

(** X9. [wkb_SubWalkerSetup] on a valid walker with an offset that is an
    [unsigned long]: when the requested limit is [None] or fits a [long],
    the call returns a start and a limit for the new walker that are
    ordered and lie within the buffer, [0 <= start <= limit <= 8 * len],
    and unless the new walker is anchored to the whole buffer the limit is
    at most the limit of the parent; when the requested limit does not fit
    a [long], the error of the conversion stays pending and the call ends
    in [SystemError].  The parent is not changed either way. *)
Theorem wkb_SubWalkerSetup_bounds (c : WalkerBit.WKB_Context) (bitOffset : Z)
  (relative anchor : bool) (newPyLimit : option Z) :
  WalkerBit.valid c = true ->
  0 <= WalkerBit.bitLimit c ->
  0 <= bitOffset < 2 ^ 64 ->
  8 * Z.of_nat (length (WalkerBit.liveBuffer c)) < 2 ^ 64 ->
  exists start limit,
    WalkerBit.wkb_SubWalkerSetup c bitOffset relative anchor newPyLimit
    = (if match newPyLimit with
          | None => true
          | Some l => (- 2 ^ 63 <=? l) && (l <? 2 ^ 63)
          end
       then Done (slong start, limit,
                  if WalkerBit.isBigEndian c then ">"%char else "<"%char) c
       else Raised SystemError c) /\
    0 <= start <= limit /\
    limit <= 8 * Z.of_nat (length (WalkerBit.liveBuffer c)) /\
    (anchor = false -> limit <= WalkerBit.bitLimit c).
Proof.
  intros Hv Hlim0 Hb Hfull.
  pose proof (wkb_valid_elim c Hv) as (_ & Hcurr & Hlim & Hbuf).
  unfold WalkerBit.wkb_SubWalkerSetup.
  set (off := if negb anchor then _ else bitOffset).
  assert (Hoff : 0 <= off < 2 ^ 64)
    by (unfold off; destruct anchor; cbn [negb];
        [lia | apply ulong_range]).
  rewrite shiftl3_mul.
  rewrite (ulong_small (8 * Z.of_nat (length (WalkerBit.liveBuffer c))))
    by lia.
  set (full := 8 * Z.of_nat (length (WalkerBit.liveBuffer c))) in *.
  pose proof (ulong_range (bitOffset
                           + (if relative then WalkerBit.currBitOffset c
                              else WalkerBit.origBitStart c))) as Hr0.
  destruct newPyLimit as [n|].
  - unfold WalkerBit.PyLong_AsLong.
    destruct ((- 2 ^ 63 <=? n) && (n <? 2 ^ 63)).
    + cbv zeta. cbn [snd]. rewrite andb_false_r.
      pose proof (ulong_range n) as Hv0.
      pose proof (ulong_range (ulong n + off)) as Hv1.
      destruct anchor; [|destruct relative]; cbv iota beta;
        (eexists _, _; split; [reflexivity|]);
        repeat match goal with
          | |- context [?a <? ?b] => destruct (Z.ltb_spec a b)
          | |- context [?a =? ?b] => destruct (Z.eqb_spec a b)
          end;
        repeat split; try discriminate; try lia.
    + cbv zeta. cbn [snd].
      replace (ulong (-1) =? 0xFFFFFFFF) with false by reflexivity.
      cbn [andb].
      exists 0, 0.
      destruct anchor; [|destruct relative]; cbv iota beta;
        (split; [reflexivity|]); repeat split; try lia.
  - cbv iota beta. eexists _, _. split; [reflexivity|].
    destruct (Z.ltb_spec (WalkerBit.bitLimit c) off);
      repeat split; unfold full in *; lia.
Qed.

Lemma wkb_SubWalkerSetup_bounds_witness :
  (exists start limit,
     WalkerBit.wkb_SubWalkerSetup
       (WalkerBit.mkWKB [1; 2; 3; 4] 8 16 24 true) 8 true false (Some 100)
     = Done (slong start, limit, ">"%char)
            (WalkerBit.mkWKB [1; 2; 3; 4] 8 16 24 true) /\
     0 <= start <= limit /\ limit <= 32 /\ (false = false -> limit <= 24)) /\
  WalkerBit.wkb_SubWalkerSetup
    (WalkerBit.mkWKB [1; 2; 3; 4] 8 16 24 true) 8 true false (Some (2 ^ 70))
  = Raised SystemError (WalkerBit.mkWKB [1; 2; 3; 4] 8 16 24 true).
Proof.
  split.
  - apply (wkb_SubWalkerSetup_bounds
             (WalkerBit.mkWKB [1; 2; 3; 4] 8 16 24 true) 8 true false
             (Some 100));
      [reflexivity | simpl; lia | lia | simpl; lia].
  - destruct (wkb_SubWalkerSetup_bounds
                (WalkerBit.mkWKB [1; 2; 3; 4] 8 16 24 true) 8 true false
                (Some (2 ^ 70)))
      as (start & limit & Hrun & _);
      [reflexivity | simpl; lia | lia | simpl; lia |].
    exact Hrun.
Defined.

(** X10. Seek and tell: after a seek to an offset from the origin, a
    [long], negative or not, whose position lies at or after bit 0 and
    before the limit, the
    absolute offset reported is origin plus offset and the relative one is
    the offset as an [unsigned long]: the offset itself when it is not
    negative, the offset plus [2 ^ 64] when it is; the walker is not at its
    end and the bits left are those between the new position and the limit;
    [wkb_Reset] brings the relative offset back to zero. *)
Theorem wkb_seek_tell (c : WalkerBit.WKB_Context) (offset : Z) :
  0 <= WalkerBit.origBitStart c ->
  - 2 ^ 63 <= offset ->
  0 <= WalkerBit.origBitStart c + offset < WalkerBit.bitLimit c ->
  WalkerBit.bitLimit c < 2 ^ 63 ->
  exists c',
    WalkerBit.wkb_SetOffset c offset false false = Done PyNone c' /\
    WalkerBit.wkb_GetOffset c' true
    = (if 0 <=? offset then offset else offset + 2 ^ 64) /\
    WalkerBit.wkb_GetOffset c' false = WalkerBit.origBitStart c + offset /\
    WalkerBit.wkb_AtEnd c' = false /\
    WalkerBit.wkb_BitLength c'
    = WalkerBit.bitLimit c - (WalkerBit.origBitStart c + offset) /\
    WalkerBit.wkb_GetOffset (WalkerBit.wkb_Reset c') true = 0.
Proof.
  intros Ho Hlong Hin Hlim.
  exists (WalkerBit.set_currBitOffset c (WalkerBit.origBitStart c + offset)).
  split.
  - pose proof (wkb_SetOffset_spec c offset false false) as H.
    cbv zeta in H. rewrite H.
    rewrite slong_small by lia.
    replace (offset + WalkerBit.origBitStart c)
      with (WalkerBit.origBitStart c + offset) by lia.
    replace (0 <=? _) with true by (symmetry; apply Z.leb_le; lia).
    replace (_ <? _) with true by (symmetry; apply Z.ltb_lt; lia).
    cbn [orb andb]. rewrite ulong_small by lia. reflexivity.
  - unfold WalkerBit.wkb_GetOffset, WalkerBit.wkb_AtEnd,
      WalkerBit.wkb_BitLength, WalkerBit.wkb_Reset,
      WalkerBit.set_currBitOffset.
    cbn [WalkerBit.currBitOffset WalkerBit.origBitStart WalkerBit.bitLimit].
    repeat split.
    + replace (WalkerBit.origBitStart c + offset - WalkerBit.origBitStart c)
        with offset by lia.
      destruct (Z.leb_spec 0 offset).
      * apply ulong_small. lia.
      * unfold ulong. symmetry. apply Z.mod_unique with (-1); lia.
    + apply Z.leb_gt. lia.
    + rewrite ulong_small; lia.
    + rewrite Z.sub_diag. reflexivity.
Qed.

Lemma wkb_seek_tell_witness :
  (exists c',
     WalkerBit.wkb_SetOffset (WalkerBit.mkWKB [1; 2; 3; 4] 8 16 32 true)
                             5 false false
     = Done PyNone c' /\
     WalkerBit.wkb_GetOffset c' true = 5) /\
  (exists c',
     WalkerBit.wkb_SetOffset (WalkerBit.mkWKB [1; 2; 3; 4] 8 16 32 true)
                             (-8) false false
     = Done PyNone c' /\
     WalkerBit.wkb_GetOffset c' true = 2 ^ 64 - 8).
Proof.
  split.
  - destruct (wkb_seek_tell (WalkerBit.mkWKB [1; 2; 3; 4] 8 16 32 true) 5)
      as (c' & Hseek & Htell & _);
      [simpl; lia | lia | simpl; lia | simpl; lia |].
    exists c'. split; [exact Hseek | exact Htell].
  - destruct (wkb_seek_tell (WalkerBit.mkWKB [1; 2; 3; 4] 8 16 32 true) (-8))
      as (c' & Hseek & Htell & _);
      [simpl; lia | lia | simpl; lia | simpl; lia |].
    exists c'. split; [exact Hseek | exact Htell].
Defined.

(** ** walkerbit.c: [wkb_Group] *)








(** ** walkerbit.c: [wkb_UnpackBitsGroup] *)

Lemma land_pow2_testbit (x j : Z) :
  0 <= j -> negb (Z.land x (2 ^ j) =? 0) = Z.testbit x j.
Proof.
  intros Hj. destruct (Z.testbit x j) eqn:Hbit.
  - apply negb_true_iff, Z.eqb_neq. intros Hzero.
    assert (Hb : Z.testbit (Z.land x (2 ^ j)) j = true)
      by (rewrite Z.land_spec, Hbit, Z.pow2_bits_true; auto).
    rewrite Hzero, Z.bits_0 in Hb. discriminate.
  - apply negb_false_iff, Z.eqb_eq. apply Z.bits_inj'. intros i Hi.
    rewrite Z.land_spec, Z.bits_0, Z.pow2_bits_eqb by lia.
    destruct (Z.eqb_spec j i) as [->|]; [now rewrite Hbit | apply andb_false_r].
Qed.

Lemma next_bit_position (p : Z) :
  0 <= p ->
  (if 2 ^ (7 - p mod 8) =? 1
   then (128, S (Z.to_nat (p / 8)))
   else (Z.shiftr (2 ^ (7 - p mod 8)) 1, Z.to_nat (p / 8)))
  = (2 ^ (7 - (p + 1) mod 8), Z.to_nat ((p + 1) / 8)).
Proof.
  intros Hp.
  pose proof (Z.div_mod p 8 ltac:(lia)) as Hdm.
  pose proof (Z.mod_pos_bound p 8 ltac:(lia)) as Hr.
  assert (Hq : 0 <= p / 8) by (apply Z.div_pos; lia).
  set (q := p / 8) in *. set (r := p mod 8) in *.
  destruct (below8_cases r Hr) as [E|[E|[E|[E|[E|[E|[E|E]]]]]]];
    rewrite E in *;
    [ replace ((p + 1) mod 8) with 1 by (apply (Z.mod_unique _ _ q); lia)
    | replace ((p + 1) mod 8) with 2 by (apply (Z.mod_unique _ _ q); lia)
    | replace ((p + 1) mod 8) with 3 by (apply (Z.mod_unique _ _ q); lia)
    | replace ((p + 1) mod 8) with 4 by (apply (Z.mod_unique _ _ q); lia)
    | replace ((p + 1) mod 8) with 5 by (apply (Z.mod_unique _ _ q); lia)
    | replace ((p + 1) mod 8) with 6 by (apply (Z.mod_unique _ _ q); lia)
    | replace ((p + 1) mod 8) with 7 by (apply (Z.mod_unique _ _ q); lia)
    | replace ((p + 1) mod 8) with 0
        by (apply (Z.mod_unique _ _ (q + 1)); lia) ];
    try (replace ((p + 1) / 8) with q
           by (apply (Z.div_unique _ 8 q (Z.succ r)); rewrite E; lia);
         reflexivity).
  replace ((p + 1) / 8) with (q + 1)
    by (apply (Z.div_unique _ 8 (q + 1) 0); lia).
  cbn [Z.sub Z.opp Z.add Z.pos_sub Z.pow Z.pow_pos Pos.iter Z.mul Pos.mul
       Z.eqb Pos.eqb Z.succ_double Z.pred_double Z.double Pos.pred_double].
  f_equal. lia.
Qed.

Lemma BitsGroup_item_run (b : list Z) (w : nat) :
  forall (p top t : Z),
    0 <= p -> p + Z.of_nat w <= 8 * Z.of_nat (length b) ->
    (top = -1 -> t = 0) ->
    WalkerBit.BitsGroup_item w b (Z.to_nat (p / 8)) (2 ^ (7 - p mod 8)) top t
    = Some (bits_value b p w t,
            match w with
            | O => top
            | S _ => if top =? -1 then Z.b2z (bitAt b p) else top
            end,
            Z.to_nat ((p + Z.of_nat w) / 8),
            2 ^ (7 - (p + Z.of_nat w) mod 8)).
Proof.
  induction w as [|w IH]; intros p top t Hp Hfit Htop.
  - cbn [WalkerBit.BitsGroup_item bits_value Z.of_nat].
    now rewrite Z.add_0_r.
  - cbn [WalkerBit.BitsGroup_item bits_value].
    pose proof (Z.mod_pos_bound p 8 ltac:(lia)) as Hr.
    assert (Hq : (Z.to_nat (p / 8) < length b)%nat).
    { apply Nat2Z.inj_lt. rewrite Z2Nat.id by (apply Z.div_pos; lia).
      apply Z.div_lt_upper_bound; lia. }
    rewrite (nth_error_nth_lt b _ Hq).
    rewrite land_pow2_testbit by lia. fold (bitAt b p).
    rewrite next_bit_position by exact Hp.
    set (on := bitAt b p).
    assert (Hstep :
      (let '(topBitOn, t0) :=
         if top =? -1 then (Z.b2z on, t) else (top, t * 2) in
       WalkerBit.BitsGroup_item w b (Z.to_nat ((p + 1) / 8))
         (2 ^ (7 - (p + 1) mod 8)) topBitOn (if on then t0 + 1 else t0))
      = WalkerBit.BitsGroup_item w b (Z.to_nat ((p + 1) / 8))
          (2 ^ (7 - (p + 1) mod 8))
          (if top =? -1 then Z.b2z on else top)
          (2 * t + Z.b2z on)).
    { destruct (Z.eqb_spec top (-1)) as [E|E].
      - rewrite (Htop E). destruct on; reflexivity.
      - destruct on; cbn [Z.b2z]; f_equal; lia. }
    rewrite Hstep.
    rewrite IH; try lia.
    + replace (p + 1 + Z.of_nat w) with (p + Z.of_nat (S w)) by lia.
      do 3 f_equal.
      destruct w; [reflexivity|].
      destruct (Z.eqb_spec top (-1)); [|now apply Z.eqb_neq in n; rewrite n].
      now destruct on.
    + destruct (Z.eqb_spec top (-1)); [destruct on; discriminate | tauto].
Qed.

Lemma field_value_top (b : list Z) (p n : Z) (wantSigned : bool) :
  1 <= n ->
  (let t := bits_value b p (Z.to_nat n) 0 in
   if negb (Z.b2z (bitAt b p) =? 0) && wantSigned
   then t - Z.shiftl 1 n else t)
  = field_value b p n wantSigned.
Proof.
  intros Hn. unfold field_value. cbv zeta.
  rewrite Z.shiftl_1_l.
  destruct (bitAt b p), wantSigned; reflexivity.
Qed.

Lemma BitsGroup_items_run (b : list Z) (n : Z) (wantSigned : bool)
  (m : nat) :
  1 <= n ->
  forall (p walkIndex : Z) (retVal : list (option PyObj)),
    0 <= p -> p + Z.of_nat m * n <= 8 * Z.of_nat (length b) ->
    0 <= walkIndex ->
    walkIndex + Z.of_nat m <= Z.of_nat (length retVal) ->
    WalkerBit.BitsGroup_items m n wantSigned b (Z.to_nat (p / 8))
                              (2 ^ (7 - p mod 8)) retVal walkIndex
    = Some (Some (set_items retVal walkIndex
                    (map (fun i => PyLong (field_value b
                                             (p + Z.of_nat i * n) n
                                             wantSigned))
                         (seq 0 m)))).
Proof.
  intros Hn. induction m as [|m IH];
    intros p walkIndex retVal Hp Hfit Hw Hroom.
  - cbn [WalkerBit.BitsGroup_items seq map]. now rewrite set_items_nil.
  - cbn [WalkerBit.BitsGroup_items].
    rewrite BitsGroup_item_run by (try rewrite Z2Nat.id; nia || tauto).
    rewrite Z2Nat.id by lia.
    destruct (Z.to_nat n) as [|w] eqn:Hw0; [lia|].
    replace (if -1 =? -1 then Z.b2z (bitAt b p) else -1)
      with (Z.b2z (bitAt b p)) by reflexivity.
    rewrite <- Hw0.
    pose proof (field_value_top b p n wantSigned Hn) as Htop.
    cbv zeta in Htop. rewrite Htop.
    rewrite PyTuple_SetItem_set_items by lia.
    rewrite IH; try lia; try (rewrite set_items_length; cbn [length]; lia).
    do 2 f_equal.
    pose proof (set_items_app retVal walkIndex
                  [PyLong (field_value b p n wantSigned)]
                  (map (fun i => PyLong (field_value b
                                           (p + n + Z.of_nat i * n) n
                                           wantSigned))
                       (seq 0 m)) Hw) as E.
    cbn [length app] in E. change (Z.of_nat 1) with 1 in E.
    rewrite E by lia. f_equal.
    cbn [seq map]. f_equal.
    + f_equal. f_equal. lia.
    + rewrite <- seq_shift, map_map. apply map_ext. intros i.
      do 2 f_equal. lia.
Qed.

Lemma set_items_whole (t : list (option PyObj)) (vals : list PyObj) :
  length vals = length t -> set_items t 0 vals = map Some vals.
Proof.
  intros Hlen. unfold set_items. change (Z.to_nat 0) with 0%nat.
  cbn [firstn app Nat.add]. rewrite Hlen, skipn_all. apply app_nil_r.
Qed.

Lemma bits_value_slice (buf : list Z) (start total : Z) (w : nat) :
  forall p acc,
    0 <= p -> p + Z.of_nat w <= total ->
    bits_value (bitSlice buf start total) p w acc
    = bits_value buf (start + p) w acc.
Proof.
  induction w as [|w IH]; intros p acc Hp Hfit; [reflexivity|].
  cbn [bits_value].
  assert (Hlen : total <= 8 * byteLength total).
  { unfold byteLength.
    pose proof (Z.div_mod (total + 7) 8 ltac:(lia)).
    pose proof (Z.mod_pos_bound (total + 7) 8 ltac:(lia)). lia. }
  rewrite bitSlice_bitAt by lia.
  replace (p <? total) with true by (symmetry; apply Z.ltb_lt; lia).
  cbn [andb]. rewrite IH by lia. f_equal. lia.
Qed.

Lemma field_value_slice (buf : list Z) (start total p n : Z)
  (wantSigned : bool) :
  0 <= p -> 1 <= n -> p + n <= total ->
  field_value (bitSlice buf start total) p n wantSigned
  = field_value buf (start + p) n wantSigned.
Proof.
  intros Hp Hn Hfit. unfold field_value.
  rewrite bits_value_slice by (try rewrite Z2Nat.id; lia).
  assert (Hlen : total <= 8 * byteLength total).
  { unfold byteLength.
    pose proof (Z.div_mod (total + 7) 8 ltac:(lia)).
    pose proof (Z.mod_pos_bound (total + 7) 8 ltac:(lia)). lia. }
  rewrite bitSlice_bitAt by lia.
  replace (p <? total) with true by (symmetry; apply Z.ltb_lt; lia).
  reflexivity.
Qed.

Lemma bits_value_range (buf : list Z) (w : nat) :
  forall p acc,
    acc * 2 ^ Z.of_nat w <= bits_value buf p w acc
    < (acc + 1) * 2 ^ Z.of_nat w.
Proof.
  induction w as [|w IH]; intros p acc.
  - cbn [bits_value Z.of_nat]. change (2 ^ 0) with 1. lia.
  - cbn [bits_value].
    specialize (IH (p + 1) (2 * acc + Z.b2z (bitAt buf p))).
    rewrite Nat2Z.inj_succ, Z.pow_succ_r by lia.
    assert (0 < 2 ^ Z.of_nat w) by (apply Z.pow_pos_nonneg; lia).
    set (P := 2 ^ Z.of_nat w) in *.
    destruct (bitAt buf p); cbn [Z.b2z] in *; nia.
Qed.

Lemma field_value_range (buf : list Z) (p n : Z) (wantSigned : bool) :
  1 <= n ->
  if wantSigned
  then - 2 ^ (n - 1) <= field_value buf p n wantSigned < 2 ^ (n - 1)
  else 0 <= field_value buf p n wantSigned < 2 ^ n.
Proof.
  intros Hn. unfold field_value.
  destruct (Z.to_nat n) as [|w] eqn:Hw; [lia|].
  assert (Hnw : n = Z.of_nat w + 1) by lia.
  cbn [bits_value].
  pose proof (bits_value_range buf w (p + 1) (2 * 0 + Z.b2z (bitAt buf p)))
    as Hr.
  replace (n - 1) with (Z.of_nat w) by lia.
  replace (2 ^ n) with (2 * 2 ^ Z.of_nat w)
    by (rewrite Hnw, Z.pow_add_r by lia; change (2 ^ 1) with 2; lia).
  assert (0 < 2 ^ Z.of_nat w) by (apply Z.pow_pos_nonneg; lia).
  destruct wantSigned, (bitAt buf p); cbn [andb Z.b2z] in *; lia.
Qed.

(** X13. [wkb_UnpackBitsGroup] with [itemCount] fields of [bitCountPerItem]
    bits that end at or before the limit returns the tuple of the fields
    read as integers, most significant bit first: unsigned, in
    [0 .. 2^n - 1], or two's complement, in [-2^(n-1) .. 2^(n-1) - 1], when
    signed values are wanted; the cursor ends after the last field. *)
Theorem wkb_UnpackBitsGroup_fields (c : WalkerBit.WKB_Context)
  (bitCountPerItem itemCount : Z) (wantSigned : bool) :
  WalkerBit.valid c = true ->
  1 <= bitCountPerItem -> 1 <= itemCount ->
  WalkerBit.currBitOffset c + bitCountPerItem * itemCount
  <= WalkerBit.bitLimit c ->
  let field i :=
    field_value (WalkerBit.liveBuffer c)
                (WalkerBit.currBitOffset c + Z.of_nat i * bitCountPerItem)
                bitCountPerItem wantSigned in
  WalkerBit.wkb_UnpackBitsGroup c bitCountPerItem itemCount wantSigned
  = Done (PyTuple (map (fun i => Some (PyLong (field i)))
                       (seq 0 (Z.to_nat itemCount))))
         (WalkerBit.set_currBitOffset c
            (WalkerBit.currBitOffset c + bitCountPerItem * itemCount)) /\
  forall i,
    if wantSigned
    then - 2 ^ (bitCountPerItem - 1) <= field i < 2 ^ (bitCountPerItem - 1)
    else 0 <= field i < 2 ^ bitCountPerItem.
Proof.
  intros Hv Hn Hk Hfit field.
  split; [|intros i; now apply field_value_range].
  pose proof (wkb_valid_elim c Hv) as (_ & Hcurr & Hlim & _).
  set (total := bitCountPerItem * itemCount) in *.
  assert (Htot : 1 <= total < 2 ^ 64) by (unfold total; nia).
  unfold WalkerBit.wkb_UnpackBitsGroup. fold total.
  rewrite (ulong_small total) by lia.
  replace (total =? 0) with false by (symmetry; apply Z.eqb_neq; lia).
  cbn [negb]. rewrite wkb_extract by (assumption || lia).
  set (b := bitSlice (WalkerBit.liveBuffer c) (WalkerBit.currBitOffset c)
                     total).
  assert (Hb : total <= 8 * Z.of_nat (length b)).
  { unfold b. rewrite bitSlice_length. unfold byteLength.
    pose proof (Z.div_mod (total + 7) 8 ltac:(lia)).
    pose proof (Z.mod_pos_bound (total + 7) 8 ltac:(lia)). lia. }
  pose proof (BitsGroup_items_run b bitCountPerItem wantSigned
                (Z.to_nat itemCount) Hn 0 0 (PyTuple_New itemCount))
    as Hrun.
  change (Z.to_nat (0 / 8)) with 0%nat in Hrun.
  change (2 ^ (7 - 0 mod 8)) with 128 in Hrun.
  rewrite Hrun; try lia;
    try (unfold PyTuple_New; rewrite repeat_length; lia);
    try (rewrite Z2Nat.id by lia; subst total; lia).
  rewrite set_items_whole
    by (rewrite length_map, length_seq; unfold PyTuple_New;
        now rewrite repeat_length).
  rewrite map_map. do 2 f_equal. apply map_ext_in. intros i Hi.
  apply in_seq in Hi. do 2 f_equal. unfold field, b.
  rewrite field_value_slice; try lia; [reflexivity|].
  unfold total. nia.
Qed.

Lemma wkb_UnpackBitsGroup_fields_witness :
  WalkerBit.wkb_UnpackBitsGroup
    (WalkerBit.mkWKB [0xA5; 0xF0] 0 0 16 true) 4 3 true
  = Done (PyTuple [Some (PyLong (-6)); Some (PyLong 5); Some (PyLong (-1))])
         (WalkerBit.mkWKB [0xA5; 0xF0] 0 12 16 true).
Proof.
  apply (proj1 (wkb_UnpackBitsGroup_fields
                  (WalkerBit.mkWKB [0xA5; 0xF0] 0 0 16 true) 4 3 true
                  eq_refl ltac:(lia) ltac:(lia) ltac:(simpl; lia))).
Defined.

(** ** walker.c: skipping bits, alignment, pieces, the rest *)

Lemma schar_small (x : Z) : - 128 <= x < 128 -> schar x = x.
Proof. intros H. unfold schar. rewrite Z.mod_small; lia. Qed.

(** X14. [wk_SkipBits] adds the bit count to the bit position
    [8 * currOffset + phase] and keeps the phase within 0 through 7; it
    checks nothing, so it never raises and the position may end past the
    limit. *)
Theorem wk_SkipBits_position (c : Walker.WK_Context) (bitCount : Z) :
  0 <= Walker.currOffset c -> 0 <= Walker.phase c < 8 ->
  0 <= bitCount ->
  Walker.bitPosition c + bitCount < 2 ^ 64 ->
  exists c',
    Walker.wk_SkipBits c bitCount = Done PyNone c' /\
    Walker.bitPosition c' = Walker.bitPosition c + bitCount /\
    0 <= Walker.phase c' < 8 /\
    c' = Walker.set_position c (Walker.currOffset c') (Walker.phase c').
Proof.
  intros Hcurr Hph Hn Hlt. unfold Walker.bitPosition in *.
  destruct c as [buf orig curr lim be ph].
  cbn [Walker.currOffset Walker.phase] in *.
  pose proof (Z.div_mod bitCount 8 ltac:(lia)) as Hdm.
  pose proof (Z.mod_pos_bound bitCount 8 ltac:(lia)) as Hr.
  assert (Hq : 0 <= bitCount / 8) by (apply Z.div_pos; lia).
  unfold Walker.wk_SkipBits, Walker.set_currOffset, Walker.set_phase,
    Walker.set_position.
  cbn [Walker.liveBuffer Walker.origStart Walker.currOffset Walker.limit
       Walker.isBigEndian Walker.phase].
  rewrite shiftr3_div.
  rewrite (schar_small (bitCount mod 8)) by lia.
  rewrite (schar_small (ph + bitCount mod 8)) by lia.
  rewrite (ulong_small (curr + bitCount / 8)) by lia.
  destruct (Z.ltb_spec 7 (ph + bitCount mod 8)) as [Hcarry|Hstay].
  - rewrite (ulong_small (curr + bitCount / 8 + 1)) by lia.
    rewrite schar_small by lia.
    eexists. split; [reflexivity|].
    cbn [Walker.currOffset Walker.phase]. repeat split; lia.
  - eexists. split; [reflexivity|].
    cbn [Walker.currOffset Walker.phase]. repeat split; lia.
Qed.

Lemma wk_SkipBits_position_witness :
  exists c',
    Walker.wk_SkipBits (Walker.mkWK [1; 2; 3] 0 0 3 true 5) 13
    = Done PyNone c' /\
    Walker.bitPosition c'
    = Walker.bitPosition (Walker.mkWK [1; 2; 3] 0 0 3 true 5) + 13.
Proof.
  destruct (wk_SkipBits_position (Walker.mkWK [1; 2; 3] 0 0 3 true 5) 13)
    as (c' & Hrun & Hpos & _);
    [simpl; lia | simpl; lia | lia | vm_compute; reflexivity |].
  exists c'. split; [exact Hrun | exact Hpos].
Defined.

(** X15. [wk_Align] leaves the phase at zero and the offset at the first
    multiple of [multiple] that is at or after the cursor (after its
    current byte when the phase is nonzero); it never raises, whether or
    not the new offset is within the limit. *)
Theorem wk_Align_next_multiple (c : Walker.WK_Context) (multiple : Z) :
  0 <= Walker.currOffset c -> 0 <= Walker.phase c < 8 ->
  0 < multiple ->
  Walker.currOffset c + 1 + multiple < 2 ^ 64 ->
  let start :=
    Walker.currOffset c + (if Walker.phase c =? 0 then 0 else 1) in
  exists aligned,
    Walker.wk_Align c multiple
    = Done PyNone (Walker.set_position c aligned 0) /\
    aligned mod multiple = 0 /\
    start <= aligned < start + multiple.
Proof.
  intros Hcurr Hph Hm Hlt start.
  destruct c as [buf orig curr lim be ph].
  cbn [Walker.currOffset Walker.phase] in *.
  pose proof (Z.div_mod start multiple ltac:(lia)) as Hdm.
  pose proof (Z.mod_pos_bound start multiple Hm) as Hr.
  assert (Hstart : 0 <= start <= curr + 1)
    by (unfold start; destruct (ph =? 0); lia).
  exists (if start mod multiple =? 0 then start
          else start + (multiple - start mod multiple)).
  split; [|split].
  - unfold Walker.wk_Align, Walker.set_currOffset, Walker.set_phase,
      Walker.set_position.
    cbn [Walker.liveBuffer Walker.origStart Walker.currOffset Walker.limit
         Walker.isBigEndian Walker.phase].
    replace (multiple =? 0) with false by (symmetry; apply Z.eqb_neq; lia).
    unfold start in *.
    destruct (Z.eqb_spec ph 0) as [->|Hne]; cbn [negb];
      cbn [Walker.liveBuffer Walker.origStart Walker.currOffset Walker.limit
           Walker.isBigEndian Walker.phase].
    + rewrite Z.add_0_r in *.
      destruct (Z.eqb_spec (curr mod multiple) 0); cbn [negb];
        [reflexivity|].
      rewrite (ulong_small (multiple - curr mod multiple)) by lia.
      rewrite ulong_small by lia. reflexivity.
    + rewrite (ulong_small (curr + 1)) by lia.
      destruct (Z.eqb_spec ((curr + 1) mod multiple) 0); cbn [negb];
        [reflexivity|].
      rewrite (ulong_small (multiple - (curr + 1) mod multiple)) by lia.
      rewrite ulong_small by lia. reflexivity.
  - destruct (Z.eqb_spec (start mod multiple) 0) as [E|E]; [exact E|].
    replace (start + (multiple - start mod multiple))
      with ((start / multiple + 1) * multiple) by lia.
    apply Z.mod_mul. lia.
  - destruct (Z.eqb_spec (start mod multiple) 0); lia.
Qed.

Lemma wk_Align_next_multiple_witness :
  Walker.wk_Align (Walker.mkWK [1; 2; 3] 0 1 3 true 3) 4
  = Done PyNone (Walker.mkWK [1; 2; 3] 0 4 3 true 0).
Proof.
  destruct (wk_Align_next_multiple (Walker.mkWK [1; 2; 3] 0 1 3 true 3) 4)
    as (aligned & Hrun & Hmod & Hrange);
    [simpl; lia | simpl; lia | lia | vm_compute; reflexivity |].
  simpl in Hrange.
  assert (aligned = 4).
  { apply Z.mod_divide in Hmod; [|lia]. destruct Hmod as [k Hk]. lia. }
  subst aligned. exact Hrun.
Defined.




(** X17. [wk_Rest] returns everything from the cursor, phase included, to
    the limit, in [limit - currOffset] bytes, and leaves the walker at its
    end: offset at the limit, phase zero, no bits left. *)
Theorem wk_Rest_reaches_end (c : Walker.WK_Context) :
  Walker.valid c = true ->
  Walker.bitPosition c <= 8 * Walker.limit c ->
  exists c',
    Walker.wk_Rest c
    = Done (PyBytes (bitSlice (Walker.liveBuffer c) (Walker.bitPosition c)
                              (8 * Walker.limit c - Walker.bitPosition c)))
           c' /\
    c' = Walker.set_position c (Walker.limit c) 0 /\
    Walker.wk_AtEnd c' = true /\
    Walker.wk_BitLength c' = 0 /\
    Walker.wk_Length c' false = 0.
Proof.
  intros Hv Hin.
  pose proof (wk_valid_elim c Hv) as (Hok & Hcurr & Hph & Hlim & Hbuf).
  unfold Walker.bitPosition in *.
  set (byteCount := Walker.limit c - Walker.currOffset c).
  assert (Hbc : 0 <= byteCount) by (unfold byteCount; lia).
  assert (Hbits : 0 <= 8 * byteCount - Walker.phase c)
    by (unfold byteCount; lia).
  exists (Walker.set_position c (Walker.limit c) 0).
  split; [|split; [reflexivity|]].
  - unfold Walker.wk_Rest. fold byteCount.
    rewrite (slong_small byteCount) by lia.
    rewrite (ulong_small byteCount) by lia.
    rewrite (ulong_small (8 * byteCount)) by lia.
    rewrite (ulong_small (8 * byteCount - Walker.phase c)) by lia.
    rewrite wk_extract
      by (try exact Hv; unfold Walker.bitPosition, byteCount; lia).
    unfold Walker.bitPosition.
    replace (8 * Walker.currOffset c + Walker.phase c
             + (8 * byteCount - Walker.phase c))
      with (8 * Walker.limit c + 0) by (unfold byteCount; lia).
    rewrite position_div, position_mod by lia.
    replace (8 * Walker.limit c
             - (8 * Walker.currOffset c + Walker.phase c))
      with (8 * byteCount - Walker.phase c) by (unfold byteCount; lia).
    unfold Walker.bytes_of_buffer. rewrite bitSlice_length.
    unfold byteLength.
    replace ((8 * byteCount - Walker.phase c + 7) / 8) with byteCount
      by (apply (Z.div_unique _ 8 _ (7 - Walker.phase c)); lia).
    replace (Z.max 0 byteCount =? byteCount) with true
      by (symmetry; apply Z.eqb_eq; lia).
    reflexivity.
  - unfold Walker.wk_AtEnd, Walker.wk_BitLength, Walker.wk_Length,
      Walker.set_position.
    cbn [Walker.currOffset Walker.limit Walker.phase].
    rewrite Z.eqb_refl, Z.sub_diag. repeat split; reflexivity.
Qed.

Lemma wk_Rest_reaches_end_witness :
  Walker.wk_Rest (Walker.mkWK [0x12; 0x34; 0x56] 0 1 3 true 4)
  = Done (PyBytes [0x45; 0x60]) (Walker.mkWK [0x12; 0x34; 0x56] 0 3 3 true 0).
Proof.
  destruct (wk_Rest_reaches_end
              (Walker.mkWK [0x12; 0x34; 0x56] 0 1 3 true 4))
    as (c' & Hrun & Hc' & _); [reflexivity | vm_compute; discriminate |].
  rewrite Hrun, Hc'. reflexivity.
Defined.

(** ** walker.c: [wk_UnpackBCD] *)











(** ** utilities.c and the walkers: packing and unpacking integers *)

Lemma big_endian_bytes_succ (w : nat) (n : Z) :
  Utilities.big_endian_bytes (S w) n
  = uchar (Z.shiftr n (8 * Z.of_nat w)) :: Utilities.big_endian_bytes w n.
Proof.
  unfold Utilities.big_endian_bytes.
  rewrite seq_S, rev_app_distr. reflexivity.
Qed.

Lemma big_endian_bytes_length (w : nat) (n : Z) :
  length (Utilities.big_endian_bytes w n) = w.
Proof.
  unfold Utilities.big_endian_bytes.
  now rewrite length_map, length_rev, length_seq.
Qed.

(** The bytes hold the value modulo [2 ^ (8 * w)]. *)
Lemma be_value_big_endian_bytes (w : nat) (n : Z) :
  forall acc,
    be_value (Utilities.big_endian_bytes w n) acc
    = acc * 2 ^ (8 * Z.of_nat w) + n mod 2 ^ (8 * Z.of_nat w).
Proof.
  induction w as [|w IH]; intros acc.
  - cbn [Utilities.big_endian_bytes be_value Z.of_nat Z.mul].
    unfold Utilities.big_endian_bytes. cbn [seq rev map be_value].
    change (2 ^ 0) with 1. rewrite Z.mod_1_r. lia.
  - rewrite big_endian_bytes_succ. cbn [be_value]. rewrite IH.
    unfold uchar. rewrite Z.shiftr_div_pow2 by lia.
    replace (8 * Z.of_nat (S w)) with (8 * Z.of_nat w + 8) by lia.
    rewrite Z.pow_add_r by lia.
    assert (Hp : 0 < 2 ^ (8 * Z.of_nat w)) by (apply Z.pow_pos_nonneg; lia).
    rewrite (Z.rem_mul_r n (2 ^ (8 * Z.of_nat w)) (2 ^ 8)) by lia.
    lia.
Qed.

Lemma host_load_big_endian (rob : bool) (bs : list Z) :
  host_load rob (fill_xc rob true bs) = be_value bs 0.
Proof.
  unfold host_load, fill_xc. destruct rob; cbn [Bool.eqb].
  - reflexivity.
  - now rewrite rev_involutive.
Qed.

Lemma host_load_packed (rob : bool) (w : nat) (n : Z) :
  host_load rob (fill_xc rob true (Utilities.big_endian_bytes w n))
  = n mod 2 ^ (8 * Z.of_nat w).
Proof.
  rewrite host_load_big_endian, be_value_big_endian_bytes. lia.
Qed.

Lemma signed_of_mod (k v : Z) :
  0 < k -> - 2 ^ (k - 1) <= v < 2 ^ (k - 1) ->
  (v mod 2 ^ k + 2 ^ (k - 1)) mod 2 ^ k - 2 ^ (k - 1) = v.
Proof.
  intros Hk Hv.
  assert (Hpow : 2 ^ k = 2 * 2 ^ (k - 1)).
  { replace k with (k - 1 + 1) at 1 by lia.
    rewrite Z.pow_add_r by lia. change (2 ^ 1) with 2. lia. }
  rewrite Zplus_mod_idemp_l.
  rewrite Z.mod_small by lia. lia.
Qed.

Lemma big_endian_bytes_explicit (n : Z) :
  Utilities.big_endian_bytes 1 n = [uchar n] /\
  Utilities.big_endian_bytes 2 n = [uchar (Z.shiftr n 8); uchar n] /\
  Utilities.big_endian_bytes 3 n
  = [uchar (Z.shiftr n 16); uchar (Z.shiftr n 8); uchar n] /\
  Utilities.big_endian_bytes 4 n
  = [uchar (Z.shiftr n 24); uchar (Z.shiftr n 16); uchar (Z.shiftr n 8);
     uchar n] /\
  Utilities.big_endian_bytes 8 n
  = [uchar (Z.shiftr n 56); uchar (Z.shiftr n 48); uchar (Z.shiftr n 40);
     uchar (Z.shiftr n 32); uchar (Z.shiftr n 24); uchar (Z.shiftr n 16);
     uchar (Z.shiftr n 8); uchar n].
Proof.
  unfold Utilities.big_endian_bytes. cbn [seq rev app map].
  change (8 * Z.of_nat 0) with 0. change (8 * Z.of_nat 1) with 8.
  change (8 * Z.of_nat 2) with 16. change (8 * Z.of_nat 3) with 24.
  change (8 * Z.of_nat 4) with 32. change (8 * Z.of_nat 5) with 40.
  change (8 * Z.of_nat 6) with 48. change (8 * Z.of_nat 7) with 56.
  rewrite Z.shiftr_0_r. repeat split; reflexivity.
Qed.

Lemma be32_packed (n : Z) :
  be32 (uchar (Z.shiftr n 24)) (uchar (Z.shiftr n 16)) (uchar (Z.shiftr n 8))
       (uchar n)
  = n mod 2 ^ 32.
Proof.
  pose proof (be_value_big_endian_bytes 4 n 0) as H.
  destruct (big_endian_bytes_explicit n) as (_ & _ & _ & -> & _) in H.
  cbn [be_value] in H. change (8 * Z.of_nat 4) with 32 in H.
  unfold be32. pow2_numerals. lia.
Qed.

Lemma be32_packed_high (n : Z) :
  be32 (uchar (Z.shiftr n 56)) (uchar (Z.shiftr n 48))
       (uchar (Z.shiftr n 40)) (uchar (Z.shiftr n 32))
  = Z.shiftr n 32 mod 2 ^ 32.
Proof.
  rewrite <- be32_packed. rewrite !Z.shiftr_shiftr by lia. reflexivity.
Qed.

Lemma split_64 (n : Z) :
  Z.shiftr n 32 mod 2 ^ 32 * 2 ^ 32 + n mod 2 ^ 32 = n mod 2 ^ 64.
Proof.
  rewrite Z.shiftr_div_pow2 by lia.
  change (2 ^ 64) with (2 ^ 32 * 2 ^ 32).
  rewrite (Z.rem_mul_r n (2 ^ 32) (2 ^ 32)) by lia. lia.
Qed.

(** What the decoder makes of the bytes of a value that fits its code. *)

Lemma firstn_skipn_fits (b : list Z) (off : Z) (w : nat) (field : list Z) :
  0 <= off -> (0 < w)%nat ->
  firstn w (skipn (Z.to_nat off) b) = field -> length field = w ->
  off + Z.of_nat w <= Z.of_nat (length b).
Proof.
  intros Ho Hw Hfield Hlen. rewrite <- Hfield in Hlen.
  rewrite length_firstn, length_skipn in Hlen. lia.
Qed.

Lemma decode_B (signed : bool) (v : Z) (b : list Z) (off : Z)
  (t : list (option PyObj)) (index : Z) :
  fits (if signed then Tb else TB) v = true ->
  0 <= off ->
  firstn 1 (skipn (Z.to_nat off) b) = Utilities.big_endian_bytes 1 v ->
  0 <= index < Z.of_nat (length t) ->
  item_B (code_char (if signed then Tb else TB)) b (mkFP t off index)
  = Done tt (mkFP (set_items t index [PyLong v]) (off + 1) (index + 1)).
Proof.
  intros Hfit Ho Hbytes Hi.
  pose proof (firstn_skipn_fits b off 1 _ Ho ltac:(lia) Hbytes
                (big_endian_bytes_length 1 v)) as Hroom.
  unfold item_B. rewrite fp_bytes_in_range by lia.
  change (Z.to_nat 1) with 1%nat. rewrite Hbytes.
  destruct (big_endian_bytes_explicit v) as (-> & _).
  destruct signed; cbn [fits code_char] in *;
    apply andb_true_iff in Hfit; destruct Hfit as [Hlo Hhi];
    apply Z.leb_le in Hlo; apply Z.ltb_lt in Hhi.
  - replace (("b" =? "B")%char) with false by reflexivity.
    replace (schar (uchar v)) with v.
    + now apply fp_set_items.
    + unfold schar, uchar. symmetry.
      apply (signed_of_mod 8 v); cbn; lia.
  - replace (("B" =? "B")%char) with true by reflexivity.
    rewrite uchar_small by (change (2 ^ 8) with 256 in Hhi; lia).
    now apply fp_set_items.
Qed.

Lemma decode_H (rob signed : bool) (v : Z) (b : list Z) (off : Z)
  (t : list (option PyObj)) (index : Z) :
  fits (if signed then Th else TH) v = true ->
  0 <= off ->
  firstn 2 (skipn (Z.to_nat off) b) = Utilities.big_endian_bytes 2 v ->
  0 <= index < Z.of_nat (length t) ->
  item_H rob true (code_char (if signed then Th else TH)) b
         (mkFP t off index)
  = Done tt (mkFP (set_items t index [PyLong v]) (off + 2) (index + 1)).
Proof.
  intros Hfit Ho Hbytes Hi.
  pose proof (firstn_skipn_fits b off 2 _ Ho ltac:(lia) Hbytes
                (big_endian_bytes_length 2 v)) as Hroom.
  unfold item_H. rewrite fp_bytes_in_range by lia.
  change (Z.to_nat 2) with 2%nat. rewrite Hbytes.
  rewrite host_load_packed. change (8 * Z.of_nat 2) with 16.
  destruct signed; cbn [fits code_char] in *;
    apply andb_true_iff in Hfit; destruct Hfit as [Hlo Hhi];
    apply Z.leb_le in Hlo; apply Z.ltb_lt in Hhi.
  - replace (("h" =? "H")%char) with false by reflexivity.
    replace (sshort (v mod 2 ^ 16)) with v.
    + now apply fp_set_items.
    + unfold sshort. symmetry. apply (signed_of_mod 16 v); cbn; lia.
  - replace (("H" =? "H")%char) with true by reflexivity.
    rewrite Z.mod_small by lia. now apply fp_set_items.
Qed.

Lemma decode_I (rob : bool) (code : typeCode) (v : Z) (b : list Z)
  (off : Z) (t : list (option PyObj)) (index : Z) :
  code = TI \/ code = TL \/ code = Ti \/ code = Tl ->
  fits code v = true ->
  0 <= off ->
  firstn 4 (skipn (Z.to_nat off) b) = Utilities.big_endian_bytes 4 v ->
  0 <= index < Z.of_nat (length t) ->
  item_I rob true (code_char code) b (mkFP t off index)
  = Done tt (mkFP (set_items t index [PyLong v]) (off + 4) (index + 1)).
Proof.
  intros Hcode Hfit Ho Hbytes Hi.
  pose proof (firstn_skipn_fits b off 4 _ Ho ltac:(lia) Hbytes
                (big_endian_bytes_length 4 v)) as Hroom.
  unfold item_I. rewrite fp_bytes_in_range by lia.
  change (Z.to_nat 4) with 4%nat. rewrite Hbytes.
  rewrite host_load_packed. change (8 * Z.of_nat 4) with 32.
  destruct Hcode as [ -> | [ -> | [ -> | -> ] ] ]; cbn [fits code_char] in *;
    apply andb_true_iff in Hfit; destruct Hfit as [Hlo Hhi];
    apply Z.leb_le in Hlo; apply Z.ltb_lt in Hhi;
    cbn [Ascii.eqb Bool.eqb andb orb];
    try (rewrite Z.mod_small by lia; now apply fp_set_items);
    (replace (sint (v mod 2 ^ 32)) with v;
     [now apply fp_set_items
     |unfold sint; symmetry; apply (signed_of_mod 32 v); cbn; lia]).
Qed.

Lemma is_byte_uchar (x : Z) : is_byte (uchar x) = true.
Proof.
  pose proof (uchar_range x). unfold is_byte.
  apply andb_true_iff. split; [apply Z.leb_le | apply Z.ltb_lt]; lia.
Qed.

Lemma sint_unique (x v k : Z) :
  - 2 ^ 31 <= v < 2 ^ 31 -> x = v + 2 ^ 32 * k -> sint x = v.
Proof.
  intros Hv ->. unfold sint.
  replace (v + 2 ^ 32 * k + 2 ^ 31) with (v + 2 ^ 31 + k * 2 ^ 32) by lia.
  rewrite Z.mod_add by lia. rewrite Z.mod_small; lia.
Qed.

Lemma mod_of_signed (k v : Z) :
  0 <= k -> - 2 ^ k <= v < 2 ^ k ->
  v mod 2 ^ k = if v <? 0 then v + 2 ^ k else v.
Proof.
  intros Hk Hv. assert (0 < 2 ^ k) by (apply Z.pow_pos_nonneg; lia).
  destruct (Z.ltb_spec v 0).
  - symmetry. apply Z.mod_unique with (-1); lia.
  - apply Z.mod_small. lia.
Qed.

Lemma decode_T (rob signed : bool) (v : Z) (b : list Z) (off : Z)
  (t : list (option PyObj)) (index : Z) :
  fits (if signed then Tt else TT) v = true ->
  0 <= off ->
  firstn 3 (skipn (Z.to_nat off) b) = Utilities.big_endian_bytes 3 v ->
  0 <= index < Z.of_nat (length t) ->
  item_T rob true (code_char (if signed then Tt else TT)) b
         (mkFP t off index)
  = Done tt (mkFP (set_items t index [PyLong v]) (off + 3) (index + 1)).
Proof.
  intros Hfit Ho Hbytes Hi.
  pose proof (firstn_skipn_fits b off 3 _ Ho ltac:(lia) Hbytes
                (big_endian_bytes_length 3 v)) as Hroom.
  unfold item_T. rewrite fp_bytes_in_range by lia.
  change (Z.to_nat 3) with 3%nat. rewrite Hbytes.
  pose proof (be_value_big_endian_bytes 3 v 0) as Hval.
  destruct (big_endian_bytes_explicit v) as (_ & _ & E & _).
  rewrite E in *. clear E.
  pose proof (uchar_range (Z.shiftr v 16)) as H0.
  pose proof (uchar_range (Z.shiftr v 8)) as H1.
  pose proof (uchar_range v) as H2.
  set (x0 := uchar (Z.shiftr v 16)) in *.
  set (x1 := uchar (Z.shiftr v 8)) in *.
  set (x2 := uchar v) in *.
  cbn [be_value] in Hval. change (8 * Z.of_nat 3) with 24 in Hval.
  assert (Hv : - 2 ^ 24 <= v < 2 ^ 24).
  { destruct signed; cbn [fits] in Hfit;
      apply andb_true_iff in Hfit; destruct Hfit as [Hlo Hhi];
      apply Z.leb_le in Hlo; apply Z.ltb_lt in Hhi; lia. }
  rewrite (mod_of_signed 24 v) in Hval by lia.
  match goal with
  | |- fp_set _ _ (PyLong ?e) = _ =>
      replace e with v; [now apply fp_set_items|]
  end.
  symmetry.
  destruct signed; cbn [fits code_char] in *;
    apply andb_true_iff in Hfit; destruct Hfit as [Hlo Hhi];
    apply Z.leb_le in Hlo; apply Z.ltb_lt in Hhi;
    destruct rob; cbn [rev app nth Ascii.eqb Bool.eqb host_load be_value];
    destruct (Z.ltb_spec v 0); try lia;
    pow2_numerals.
  all: try (destruct (Z.ltb_spec x0 128); try lia).
  all: try (apply (sint_unique _ v 0); lia).
  all: apply (sint_unique _ v 1); lia.
Qed.

Lemma decode_Q (signed : bool) (v : Z) (b : list Z) (off : Z)
  (t : list (option PyObj)) (index : Z) :
  fits (if signed then Tq else TQ) v = true ->
  0 <= off ->
  firstn 8 (skipn (Z.to_nat off) b) = Utilities.big_endian_bytes 8 v ->
  0 <= index < Z.of_nat (length t) ->
  item_Q true (code_char (if signed then Tq else TQ)) b (mkFP t off index)
  = Done tt (mkFP (set_items t index [PyLong v]) (off + 8) (index + 1)).
Proof.
  intros Hfit Ho Hbytes Hi.
  pose proof (firstn_skipn_fits b off 8 _ Ho ltac:(lia) Hbytes
                (big_endian_bytes_length 8 v)) as Hroom.
  unfold item_Q. rewrite fp_bytes_in_range by lia.
  change (Z.to_nat 8) with 8%nat. rewrite Hbytes.
  destruct (big_endian_bytes_explicit v) as (_ & _ & _ & _ & ->).
  rewrite Q_halves_spec
    by (unfold bytes_ok; cbn [forallb]; now rewrite !is_byte_uchar).
  cbn [highHalf lowHalf]. rewrite be32_packed, be32_packed_high.
  replace (Q_value (code_char (if signed then Tq else TQ))
                   (Z.shiftr v 32 mod 2 ^ 32) (v mod 2 ^ 32)) with v;
    [now apply fp_set_items|].
  unfold Q_value. rewrite Z.shiftl_mul_pow2 by lia. rewrite split_64.
  change (Z.shiftl 1 64) with (2 ^ 64).
  destruct signed; cbn [fits code_char] in *;
    apply andb_true_iff in Hfit; destruct Hfit as [Hlo Hhi];
    apply Z.leb_le in Hlo; apply Z.ltb_lt in Hhi;
    cbn [Ascii.eqb Bool.eqb andb].
  - rewrite (mod_of_signed 64 v) by lia.
    rewrite Z.shiftr_div_pow2 by lia.
    pose proof (Z.div_mod v (2 ^ 32) ltac:(lia)) as Hdm.
    pose proof (Z.mod_pos_bound v (2 ^ 32) ltac:(lia)) as Hr.
    rewrite (mod_of_signed 32 (v / 2 ^ 32)) by lia.
    destruct (Z.ltb_spec v 0);
      destruct (Z.ltb_spec (v / 2 ^ 32) 0); try lia;
      match goal with
      | |- context [?a <? ?b] => destruct (Z.ltb_spec a b)
      end; lia.
  - rewrite Z.mod_small by lia. reflexivity.
Qed.

(** A run of [n] items that each decode the next value. *)
Lemma fp_repeat_values (item : FP_State -> outcome FP_State unit)
  (b : list Z) (u : nat) (ok : Z -> bool) :
  (0 < u)%nat ->
  (forall v off t index,
     ok v = true -> 0 <= off ->
     firstn u (skipn (Z.to_nat off) b) = Utilities.big_endian_bytes u v ->
     0 <= index < Z.of_nat (length t) ->
     item (mkFP t off index)
     = Done tt (mkFP (set_items t index [PyLong v]) (off + Z.of_nat u)
                     (index + 1))) ->
  forall vs off t index,
    forallb ok vs = true -> 0 <= off ->
    firstn (length vs * u) (skipn (Z.to_nat off) b)
    = flat_map (Utilities.big_endian_bytes u) vs ->
    0 <= index -> index + Z.of_nat (length vs) <= Z.of_nat (length t) ->
    fp_repeat (length vs) item (mkFP t off index)
    = Done tt (mkFP (set_items t index (map PyLong vs))
                    (off + Z.of_nat u * Z.of_nat (length vs))
                    (index + Z.of_nat (length vs))).
Proof.
  intros Hu Hitem vs.
  induction vs as [|v vs IH]; intros off t index Hok Ho Hbytes Hi Ht.
  - cbn [length fp_repeat map]. rewrite set_items_nil.
    do 2 f_equal; cbn [Z.of_nat]; lia.
  - cbn [forallb] in Hok. apply andb_true_iff in Hok.
    destruct Hok as [Hv Hvs].
    cbn [length flat_map] in *.
    assert (Hhead : firstn u (skipn (Z.to_nat off) b)
                    = Utilities.big_endian_bytes u v).
    { apply (f_equal (firstn u)) in Hbytes.
      rewrite firstn_firstn in Hbytes.
      replace (Nat.min u (S (length vs) * u)) with u in Hbytes by nia.
      rewrite firstn_app, big_endian_bytes_length, Nat.sub_diag in Hbytes.
      cbn [firstn] in Hbytes. rewrite app_nil_r in Hbytes.
      rewrite firstn_all2 with (l := Utilities.big_endian_bytes u v)
        in Hbytes by (rewrite big_endian_bytes_length; lia).
      exact Hbytes. }
    assert (Htail : firstn (length vs * u)
                      (skipn (Z.to_nat (off + Z.of_nat u)) b)
                    = flat_map (Utilities.big_endian_bytes u) vs).
    { apply (f_equal (skipn u)) in Hbytes.
      rewrite skipn_app, big_endian_bytes_length, Nat.sub_diag in Hbytes.
      rewrite skipn_all2 with (l := Utilities.big_endian_bytes u v)
        in Hbytes by (rewrite big_endian_bytes_length; lia).
      cbn [skipn app] in Hbytes. rewrite <- Hbytes.
      rewrite skipn_firstn_comm, skipn_skipn.
      f_equal; [lia | f_equal; lia]. }
    cbn [fp_repeat]. rewrite (Hitem v) by (try assumption; lia).
    rewrite IH
      by (try assumption; try rewrite set_items_length; cbn [length]; lia).
    pose proof (set_items_app t index [PyLong v] (map PyLong vs)) as E.
    cbn [length app] in E. change (Z.of_nat 1) with 1 in E.
    rewrite E by lia. cbn [map]. do 2 f_equal; lia.
Qed.

(** ** A packed format read back *)

Lemma fits_run_code (code : typeCode) (vs : list Z) :
  vs <> [] -> forallb (fits code) vs = true -> fits code 0 = true.
Proof.
  intros Hne Hok. destruct vs as [|v vs]; [congruence|].
  cbn [forallb] in Hok. apply andb_true_iff in Hok. destruct Hok as [Hv _].
  destruct code; try discriminate Hv; reflexivity.
Qed.

Lemma packable_field (count : list digit) (code : typeCode)
  (ts : list token) (vs : list Z) :
  code <> Tx -> packable (Field count code :: ts) vs = true ->
  let n := Z.to_nat (repeatCount count) in
  (n <= length vs)%nat /\
  forallb (fits code) (firstn n vs) = true /\
  packable ts (skipn n vs) = true /\
  firstn n vs <> [] /\
  fits code 0 = true.
Proof.
  intros Hx H n.
  assert (H' : ((n <=? length vs)%nat && forallb (fits code) (firstn n vs)
                && packable ts (skipn n vs)) = true)
    by (destruct code; try congruence; exact H).
  apply andb_true_iff in H'. destruct H' as [H' H3].
  apply andb_true_iff in H'. destruct H' as [H1 H2].
  apply Nat.leb_le in H1.
  assert (Hne : firstn n vs <> []).
  { pose proof (repeatCount_pos count).
    intros E. apply (f_equal (@length Z)) in E.
    rewrite length_firstn in E. cbn [length] in E. lia. }
  repeat split; try assumption.
  now apply (fits_run_code code (firstn n vs)).
Qed.

Lemma packed_field (count : list digit) (code : typeCode)
  (ts : list token) (vs : list Z) :
  code <> Tx ->
  packed (Field count code :: ts) vs
  = flat_map (Utilities.big_endian_bytes (Z.to_nat (unitSize code)))
             (firstn (Z.to_nat (repeatCount count)) vs)
    ++ packed ts (skipn (Z.to_nat (repeatCount count)) vs).
Proof. intros Hx. destruct code; try congruence; reflexivity. Qed.

Lemma typeCode_pad (code : typeCode) : code = Tx \/ code <> Tx.
Proof. destruct code; (now left) || (right; discriminate). Qed.

Lemma flat_map_length_const {A B : Type} (f : A -> list B) (k : nat)
  (l : list A) :
  (forall x, length (f x) = k) ->
  length (flat_map f l) = (length l * k)%nat.
Proof.
  intros Hf. induction l as [|x l IH]; [reflexivity|].
  cbn [flat_map length]. rewrite length_app, Hf, IH. lia.
Qed.

(** The packed bytes are as many as the format announces, and the values as
    many as its items. *)
Lemma packable_sizes (ts : list token) :
  forall vs,
    packable ts vs = true ->
    Z.of_nat (length (packed ts vs)) = byteSize_with repeatCount ts /\
    Z.of_nat (length vs) = itemCount_with repeatCount ts.
Proof.
  induction ts as [|[count code|mark] ts IH]; intros vs Hp.
  - destruct vs; [split; reflexivity | discriminate].
  - pose proof (repeatCount_pos count) as Hrc.
    cbn [byteSize_with itemCount_with fold_right].
    fold (byteSize_with repeatCount ts). fold (itemCount_with repeatCount ts).
    destruct (typeCode_pad code) as [-> | Hx].
    + cbn [packable packed unitSize itemsOf] in *.
      destruct (IH vs Hp) as [Hb Hi].
      rewrite length_app, repeat_length. lia.
    + destruct (packable_field count code ts vs Hx Hp)
        as (Hn & Hfits & Hrest & _ & Hcode).
      destruct (IH _ Hrest) as [Hb Hi].
      rewrite packed_field by exact Hx.
      rewrite length_app,
        (flat_map_length_const _ (Z.to_nat (unitSize code)))
        by (intros; apply big_endian_bytes_length).
      rewrite length_firstn_le by exact Hn.
      rewrite length_skipn in Hi.
      assert (Hu : 1 <= unitSize code) by (destruct code; cbn [unitSize]; lia).
      split; [nia|].
      destruct code; try discriminate Hcode; cbn [itemsOf]; lia.
  - discriminate.
Qed.

Lemma packed_bytes_ok (ts : list token) :
  forall vs, bytes_ok (packed ts vs) = true.
Proof.
  assert (Hfield : forall w vs,
            bytes_ok (flat_map (Utilities.big_endian_bytes w) vs) = true).
  { intros w vs. unfold bytes_ok. apply forallb_forall. intros x Hx.
    apply in_flat_map in Hx. destruct Hx as (v & _ & Hx).
    unfold Utilities.big_endian_bytes in Hx. apply in_map_iff in Hx.
    destruct Hx as (k & <- & _). apply is_byte_uchar. }
  induction ts as [|[count code|mark] ts IH]; intros vs; [reflexivity| |].
  - destruct (typeCode_pad code) as [-> | Hx].
    + cbn [packed]. unfold bytes_ok in *. rewrite forallb_app, IH.
      rewrite andb_true_r. apply forallb_forall. intros x Hx.
      apply repeat_spec in Hx. now subst x.
    + rewrite packed_field by exact Hx. unfold bytes_ok in *.
      rewrite forallb_app, IH. rewrite andb_true_r. apply Hfield.
  - cbn [packed]. apply IH.
Qed.

Lemma FormatProcess_switch_values (rob : bool) (code : typeCode)
  (vs : list Z) (b : list Z) (off : Z) (t : list (option PyObj))
  (index : Z) :
  fits code 0 = true ->
  forallb (fits code) vs = true -> 0 <= off ->
  firstn (length vs * Z.to_nat (unitSize code)) (skipn (Z.to_nat off) b)
  = flat_map (Utilities.big_endian_bytes (Z.to_nat (unitSize code))) vs ->
  0 <= index -> index + Z.of_nat (length vs) <= Z.of_nat (length t) ->
  FormatProcess_switch rob true (code_char code) (Z.of_nat (length vs)) b
                       (mkFP t off index)
  = Done tt (mkFP (set_items t index (map PyLong vs))
                  (off + unitSize code * Z.of_nat (length vs))
                  (index + Z.of_nat (length vs))).
Proof.
  intros Hcode Hok Ho Hb Hi Ht.
  destruct code; try discriminate Hcode;
    cbn [code_char FormatProcess_switch unitSize] in *;
    rewrite Nat2Z.id.
  - exact (fp_repeat_values _ b 1 (fits TB) ltac:(lia)
             (fun v => decode_B false v b) vs off t index Hok Ho Hb Hi Ht).
  - exact (fp_repeat_values _ b 1 (fits Tb) ltac:(lia)
             (fun v => decode_B true v b) vs off t index Hok Ho Hb Hi Ht).
  - exact (fp_repeat_values _ b 2 (fits TH) ltac:(lia)
             (fun v => decode_H rob false v b) vs off t index Hok Ho Hb Hi Ht).
  - exact (fp_repeat_values _ b 2 (fits Th) ltac:(lia)
             (fun v => decode_H rob true v b) vs off t index Hok Ho Hb Hi Ht).
  - exact (fp_repeat_values _ b 3 (fits TT) ltac:(lia)
             (fun v => decode_T rob false v b) vs off t index Hok Ho Hb Hi Ht).
  - exact (fp_repeat_values _ b 3 (fits Tt) ltac:(lia)
             (fun v => decode_T rob true v b) vs off t index Hok Ho Hb Hi Ht).
  - exact (fp_repeat_values _ b 4 (fits TI) ltac:(lia)
             (fun v off t index =>
                decode_I rob TI v b off t index ltac:(tauto))
             vs off t index Hok Ho Hb Hi Ht).
  - exact (fp_repeat_values _ b 4 (fits Ti) ltac:(lia)
             (fun v off t index =>
                decode_I rob Ti v b off t index ltac:(tauto))
             vs off t index Hok Ho Hb Hi Ht).
  - exact (fp_repeat_values _ b 4 (fits TL) ltac:(lia)
             (fun v off t index =>
                decode_I rob TL v b off t index ltac:(tauto))
             vs off t index Hok Ho Hb Hi Ht).
  - exact (fp_repeat_values _ b 4 (fits Tl) ltac:(lia)
             (fun v off t index =>
                decode_I rob Tl v b off t index ltac:(tauto))
             vs off t index Hok Ho Hb Hi Ht).
  - exact (fp_repeat_values _ b 8 (fits TQ) ltac:(lia)
             (fun v => decode_Q false v b) vs off t index Hok Ho Hb Hi Ht).
  - exact (fp_repeat_values _ b 8 (fits Tq) ltac:(lia)
             (fun v => decode_Q true v b) vs off t index Hok Ho Hb Hi Ht).
Qed.

Lemma firstn_app_length {A : Type} (l1 l2 : list A) (n : nat) :
  n = length l1 -> firstn n (l1 ++ l2) = l1.
Proof.
  intros ->. rewrite firstn_app, Nat.sub_diag, firstn_all.
  cbn [firstn]. apply app_nil_r.
Qed.

Lemma skipn_app_length {A : Type} (l1 l2 : list A) (n : nat) :
  n = length l1 -> skipn n (l1 ++ l2) = l2.
Proof.
  intros ->. rewrite skipn_app, Nat.sub_diag, skipn_all. reflexivity.
Qed.

Lemma FormatProcess_loop_field (rob : bool) (b : list Z) (count : list digit)
  (code : typeCode) (rest : list ascii) (isBE : bool) (st : FP_State) :
  count_value count < 2 ^ 64 ->
  FormatProcess_loop rob b (map digit_char count ++ code_char code :: rest)
                     isBE 0 st
  = match FormatProcess_switch rob isBE (code_char code) (repeatCount count)
            b st with
    | Done _ st' => FormatProcess_loop rob b rest isBE 0 st'
    | Raised e st' => Raised e st'
    | Undefined => Undefined
    end.
Proof.
  intros Hcount.
  rewrite FormatProcess_loop_digits by (fold (count_value count); lia).
  fold (count_value count).
  cbn [FormatProcess_loop]. rewrite code_char_not_digit.
  fold (repeatCount count). destruct code; reflexivity.
Qed.

(** Reading back the packed bytes of a format stores the values that were
    packed. *)
Lemma FormatProcess_loop_packed (rob : bool) (b : list Z) (ts : list token) :
  forall vs off t index,
    packable ts vs = true ->
    byteSize_with repeatCount ts < 2 ^ 64 ->
    0 <= off ->
    skipn (Z.to_nat off) b = packed ts vs ->
    0 <= index -> index + Z.of_nat (length vs) <= Z.of_nat (length t) ->
    FormatProcess_loop rob b (render ts) true 0 (mkFP t off index)
    = Done tt (mkFP (set_items t index (map PyLong vs))
                    (off + byteSize_with repeatCount ts)
                    (index + Z.of_nat (length vs))).
Proof.
  induction ts as [|[count code|mark] ts IH];
    intros vs off t index Hp Hlt Ho Hb Hi Ht.
  - destruct vs; [|discriminate].
    cbn [render flat_map FormatProcess_loop byteSize_with fold_right
         map length].
    rewrite set_items_nil. do 2 f_equal; cbn [Z.of_nat]; lia.
  - pose proof (byteSize_with_nonneg ts) as Hts.
    pose proof (repeatCount_pos count) as Hrc.
    pose proof (count_value_nonneg count) as Hcv.
    assert (Hu : 1 <= unitSize code) by (destruct code; cbn [unitSize]; lia).
    cbn [byteSize_with fold_right] in *.
    fold (byteSize_with repeatCount ts) in *.
    assert (Hcount : count_value count < 2 ^ 64).
    { unfold repeatCount in *.
      destruct (Z.eqb_spec (count_value count) 0); nia. }
    cbn [render flat_map render_token]. rewrite <- app_assoc.
    cbn [app]. fold (render ts).
    rewrite FormatProcess_loop_field by exact Hcount.
    destruct (typeCode_pad code) as [-> | Hx].
    + cbn [packable packed code_char FormatProcess_switch unitSize
           fp_t fp_b fp_index] in *.
      rewrite (IH vs); try assumption; try nia.
      * do 2 f_equal; lia.
      * replace (Z.to_nat (off + repeatCount count))
          with (Z.to_nat (repeatCount count) + Z.to_nat off)%nat by lia.
        rewrite <- skipn_skipn, Hb.
        apply skipn_app_length. now rewrite repeat_length.
    + destruct (packable_field count code ts vs Hx Hp)
        as (Hn & Hfits & Hrest & _ & Hcode).
      rewrite packed_field in Hb by exact Hx.
      set (n := Z.to_nat (repeatCount count)) in *.
      assert (Hlen : length (firstn n vs) = n)
        by (now apply length_firstn_le).
      assert (Hrep : repeatCount count = Z.of_nat (length (firstn n vs)))
        by (rewrite Hlen; unfold n; lia).
      assert (Hflat :
        length (flat_map
                  (Utilities.big_endian_bytes (Z.to_nat (unitSize code)))
                  (firstn n vs))
        = (length (firstn n vs) * Z.to_nat (unitSize code))%nat)
        by (apply flat_map_length_const; intros;
            apply big_endian_bytes_length).
      rewrite Hrep.
      rewrite FormatProcess_switch_values;
        [ | exact Hcode | exact Hfits | exact Ho
          | rewrite Hb; apply firstn_app_length; now rewrite Hflat
          | exact Hi | rewrite Hlen; lia ].
      rewrite (IH (skipn n vs)); try assumption; try nia.
      * pose proof (set_items_app t index (map PyLong (firstn n vs))
                      (map PyLong (skipn n vs))) as E.
        rewrite length_map in E. rewrite E by (try rewrite Hlen; lia).
        rewrite <- map_app, firstn_skipn.
        do 2 f_equal; [lia|].
        rewrite Hlen, length_skipn. lia.
      * replace (Z.to_nat (off + unitSize code
                                 * Z.of_nat (length (firstn n vs))))
          with (length (firstn n vs) * Z.to_nat (unitSize code)
                + Z.to_nat off)%nat by nia.
        rewrite <- skipn_skipn, Hb.
        apply skipn_app_length. now rewrite Hflat.
      * rewrite set_items_length by (rewrite ?length_map, ?Hlen; lia).
        rewrite Hlen, length_skipn. lia.
  - discriminate.
Qed.

(** The other direction: the loop of [ut_Pack] writes the packed bytes. *)
Lemma pack_repeat_values (item : PyObj -> outcome unit (list Z))
  (enc : Z -> list Z) (ok : Z -> bool) :
  (forall v, ok v = true -> item (PyLong v) = Done (enc v) tt) ->
  forall vs pre post w,
    forallb ok vs = true ->
    Utilities.pack_repeat (length vs) item (map PyLong (pre ++ vs ++ post))
                          (Utilities.mkPack w (length pre))
    = Done (Utilities.mkPack (w ++ flat_map enc vs)
                             (length pre + length vs)) tt.
Proof.
  intros Hitem vs. induction vs as [|v vs IH]; intros pre post w Hok.
  - cbn [length Utilities.pack_repeat flat_map].
    now rewrite app_nil_r, Nat.add_0_r.
  - cbn [forallb] in Hok. apply andb_true_iff in Hok.
    destruct Hok as [Hv Hvs].
    cbn [length Utilities.pack_repeat Utilities.next_arg Utilities.written
         flat_map].
    rewrite nth_error_map, nth_error_app2, Nat.sub_diag by lia.
    cbn [app nth_error option_map]. rewrite (Hitem v Hv).
    pose proof (IH (pre ++ [v]) post (w ++ enc v) Hvs) as E.
    rewrite <- app_assoc, length_app in E. cbn [app length] in E.
    rewrite Nat.add_1_r in E. rewrite E.
    rewrite <- app_assoc. do 2 f_equal. lia.
Qed.

Lemma ut_Pack_switch_values (code : typeCode) (vs pre post : list Z)
  (w : list Z) :
  fits code 0 = true -> forallb (fits code) vs = true ->
  Utilities.ut_Pack_switch (code_char code) (Z.of_nat (length vs))
    (map PyLong (pre ++ vs ++ post)) (Utilities.mkPack w (length pre))
  = Done (Utilities.mkPack
            (w ++ flat_map
                    (Utilities.big_endian_bytes (Z.to_nat (unitSize code)))
                    vs)
            (length pre + length vs)) tt.
Proof.
  intros Hcode Hok.
  destruct code; try discriminate Hcode;
    cbn [code_char Utilities.ut_Pack_switch unitSize];
    rewrite Nat2Z.id;
    match goal with
    | |- Utilities.pack_repeat _ _ _ _
         = Done (Utilities.mkPack (_ ++ flat_map (_ (Z.to_nat ?u)) _) _) _ =>
        let k := eval cbv in (Z.to_nat u) in
        change (Z.to_nat u) with k
    end;
    match type of Hok with
    | forallb ?f _ = true =>
        apply pack_repeat_values with (ok := f); [|exact Hok]
    end;
    intros v Hv; cbn [fits] in Hv;
    apply andb_true_iff in Hv; destruct Hv as [Hlo Hhi];
    apply Z.leb_le in Hlo; apply Z.ltb_lt in Hhi;
    unfold Utilities.pack_checked, Utilities.pack_converted,
      Utilities.PyLong_AsLong, Utilities.PyLong_AsUnsignedLong;
    repeat first
      [ progress cbn [andb]
      | match goal with
        | |- context [?a <=? ?b] =>
            replace (a <=? b) with true by (symmetry; apply Z.leb_le; lia)
        | |- context [?a <? ?b] =>
            replace (a <? b) with true by (symmetry; apply Z.ltb_lt; lia)
        end ];
    reflexivity.
Qed.

Lemma ut_Pack_loop_packed (ts : list token) :
  forall vs pre w fuel,
    packable ts vs = true ->
    byteSize_with repeatCount ts < 2 ^ 64 ->
    (length (render ts) <= fuel)%nat ->
    Utilities.ut_Pack_loop fuel (render ts) (map PyLong (pre ++ vs))
                           (Utilities.mkPack w (length pre))
    = Done (Utilities.mkPack (w ++ packed ts vs) (length pre + length vs))
           tt.
Proof.
  induction ts as [|[count code|mark] ts IH];
    intros vs pre w fuel Hp Hlt Hfuel.
  - destruct vs; [|discriminate].
    cbn [render flat_map packed length]. rewrite ut_Pack_loop_nil.
    now rewrite app_nil_r, Nat.add_0_r.
  - pose proof (byteSize_with_nonneg ts) as Hts.
    pose proof (repeatCount_pos count) as Hrc.
    pose proof (count_value_nonneg count) as Hcv.
    assert (Hu : 1 <= unitSize code) by (destruct code; cbn [unitSize]; lia).
    cbn [byteSize_with fold_right] in *.
    fold (byteSize_with repeatCount ts) in *.
    assert (Hcount : count_value count < 2 ^ 64).
    { unfold repeatCount in *.
      destruct (Z.eqb_spec (count_value count) 0); nia. }
    cbn [render flat_map render_token] in *. rewrite <- app_assoc in *.
    cbn [app] in *. fold (render ts) in *.
    rewrite length_app in Hfuel. cbn [length] in Hfuel.
    destruct fuel as [|fuel]; [lia|].
    rewrite ut_Pack_loop_field by exact Hcount.
    destruct (typeCode_pad code) as [-> | Hx].
    + cbn [packable packed code_char Utilities.ut_Pack_switch
           Utilities.written Utilities.next_arg] in *.
      rewrite (IH vs) by (try assumption; lia).
      now rewrite <- app_assoc.
    + destruct (packable_field count code ts vs Hx Hp)
        as (Hn & Hfits & Hrest & _ & Hcode).
      rewrite packed_field by exact Hx.
      set (n := Z.to_nat (repeatCount count)) in *.
      assert (Hlen : length (firstn n vs) = n)
        by (now apply length_firstn_le).
      assert (Hrep : repeatCount count = Z.of_nat (length (firstn n vs)))
        by (rewrite Hlen; unfold n; lia).
      rewrite Hrep.
      replace (pre ++ vs) with (pre ++ firstn n vs ++ skipn n vs)
        by (now rewrite firstn_skipn).
      rewrite ut_Pack_switch_values by assumption.
      rewrite app_assoc, <- length_app.
      rewrite (IH (skipn n vs)) by (try assumption; lia).
      rewrite <- app_assoc. do 2 f_equal.
      rewrite !length_app, length_firstn, length_skipn. lia.
  - discriminate.
Qed.

(** Bytes that start at a byte boundary are the bytes of the buffer. *)
Lemma aligned_slice (buf : list Z) (q w : nat) :
  bytes_ok buf = true -> (q + w <= length buf)%nat ->
  bitSlice buf (8 * Z.of_nat q) (8 * Z.of_nat w) = firstn w (skipn q buf).
Proof.
  intros Hok Hfit. rewrite bitSlice_whole.
  apply nth_ext with (d := 0) (d' := 0).
  - rewrite length_map, length_seq, length_firstn, length_skipn. lia.
  - intros j Hj. rewrite length_map, length_seq in Hj.
    rewrite (nth_indep _ 0
               (sliceByte buf (8 * Z.of_nat q) (8 * Z.of_nat w) 0%nat))
      by (now rewrite length_map, length_seq).
    rewrite map_nth, seq_nth by exact Hj. cbn [Nat.add].
    rewrite nth_firstn. apply Nat.ltb_lt in Hj. rewrite Hj.
    apply Nat.ltb_lt in Hj. rewrite nth_skipn.
    replace (8 * Z.of_nat w) with (8 * Z.of_nat w + 0) by lia.
    symmetry. apply whole_byte_aligned; [exact Hok | lia | exact Hj].
Qed.


(** A big-endian byte walker at a byte boundary in front of packed bytes
    reads the packed values. *)
Lemma wk_Unpack_packed (rob : bool) (ts : list token) (vs : list Z)
  (c : Walker.WK_Context) :
  packable ts vs = true ->
  Walker.valid c = true ->
  Walker.phase c = 0 ->
  Walker.isBigEndian c = true ->
  Walker.currOffset c + byteSize_with repeatCount ts <= Walker.limit c ->
  firstn (Z.to_nat (byteSize_with repeatCount ts))
         (skipn (Z.to_nat (Walker.currOffset c)) (Walker.liveBuffer c))
  = packed ts vs ->
  Walker.wk_Unpack rob c (render ts) false true
  = Done (PyTuple (map (fun v => Some (PyLong v)) vs))
         (Walker.set_position c
            (Walker.currOffset c + byteSize_with repeatCount ts) 0).
Proof.
  intros Hp Hv Hph Hbe Hfit Hbytes.
  destruct (wk_valid_elim c Hv) as (Hok & Hcurr & _ & Hlim & Hbuf).
  destruct (packable_sizes ts vs Hp) as [Hsize Hitems].
  pose proof (byteSize_with_nonneg ts) as Hnn.
  set (size := byteSize_with repeatCount ts) in *.
  set (items := itemCount_with repeatCount ts) in *.
  assert (Hlt : size < 2 ^ 64) by lia.
  unfold Walker.wk_Unpack.
  rewrite FormatByteSize_render by (fold size; lia).
  fold size items. cbv beta iota zeta.
  rewrite (ulong_small (8 * size)) by lia.
  rewrite wk_extract
    by (try assumption; unfold Walker.bitPosition; lia).
  unfold Walker.bitPosition. rewrite Hph.
  replace ((8 * Walker.currOffset c + 0 + 8 * size) / 8)
    with (Walker.currOffset c + size)
    by (apply (Z.div_unique _ 8 _ 0); lia).
  replace ((8 * Walker.currOffset c + 0 + 8 * size) mod 8) with 0
    by (apply (Z.mod_unique _ 8 (Walker.currOffset c + size)); lia).
  replace (8 * Walker.currOffset c + 0)
    with (8 * Z.of_nat (Z.to_nat (Walker.currOffset c))) by lia.
  replace (8 * size) with (8 * Z.of_nat (Z.to_nat size)) by lia.
  rewrite aligned_slice by (try assumption; lia).
  rewrite Hbytes.
  replace (Walker.isBigEndian
             (Walker.set_position c (Walker.currOffset c + size) 0))
    with true by (symmetry; exact Hbe).
  unfold FormatProcess.
  rewrite (FormatProcess_loop_packed rob (packed ts vs) ts vs 0
             (PyTuple_New items) 0 Hp Hlt)
    by (try reflexivity; unfold PyTuple_New;
        try rewrite repeat_length; lia).
  cbn [fp_t negb andb].
  rewrite set_items_whole
    by (unfold PyTuple_New; rewrite length_map, repeat_length; lia).
  now rewrite map_map.
Qed.

(** X19. Packing and reading back.  For a format of integer and pad fields
    and integers that each fit the code they are packed with, [ut_Pack]
    returns the bytes [packed] (most significant byte first, zero bytes for
    the pad fields), as many as the format announces; and a big-endian
    byte walker that stands at a byte boundary in front of these bytes
    returns, from [wk_Unpack] with the same format, the tuple of the
    integers that were packed, on a host of either byte order, and ends
    after the bytes. *)
Theorem ut_Pack_wk_Unpack (rob : bool) (ts : list token) (vs : list Z)
  (c : Walker.WK_Context) :
  packable ts vs = true ->
  Walker.valid c = true ->
  Walker.phase c = 0 ->
  Walker.isBigEndian c = true ->
  Walker.currOffset c + byteSize_with repeatCount ts <= Walker.limit c ->
  firstn (Z.to_nat (byteSize_with repeatCount ts))
         (skipn (Z.to_nat (Walker.currOffset c)) (Walker.liveBuffer c))
  = packed ts vs ->
  Utilities.ut_Pack (render ts) (map PyLong vs)
  = Done (PyBytes (packed ts vs)) tt /\
  Z.of_nat (length (packed ts vs)) = byteSize_with repeatCount ts /\
  Walker.wk_Unpack rob c (render ts) false true
  = Done (PyTuple (map (fun v => Some (PyLong v)) vs))
         (Walker.set_position c
            (Walker.currOffset c + byteSize_with repeatCount ts) 0).
Proof.
  intros Hp Hv Hph Hbe Hfit Hbytes.
  destruct (wk_valid_elim c Hv) as (Hok & Hcurr & _ & Hlim & Hbuf).
  destruct (packable_sizes ts vs Hp) as [Hsize Hitems].
  pose proof (byteSize_with_nonneg ts) as Hnn.
  set (size := byteSize_with repeatCount ts) in *.
  set (items := itemCount_with repeatCount ts) in *.
  assert (Hlt : size < 2 ^ 64) by lia.
  split; [|split; [exact Hsize|]].
  - unfold Utilities.ut_Pack, Utilities.CalcSizeFromFormat.
    rewrite CalcSizeFromFormat_loop_render by (fold size; lia).
    fold size items. rewrite !Z.add_0_l.
    rewrite length_map, <- Hitems, Z.eqb_refl. cbn [negb].
    pose proof (ut_Pack_loop_packed ts vs [] [] (length (render ts)) Hp Hlt
                  (le_n _)) as Hrun.
    cbn [app length Nat.add] in Hrun. rewrite Hrun.
    cbn [Utilities.written]. rewrite Hsize, Z.eqb_refl. reflexivity.
  - now apply wk_Unpack_packed.
Qed.

Lemma ut_Pack_wk_Unpack_witness :
  Utilities.ut_Pack
    (render [Field [D2] Th; Field [] Tx; Field [] TQ; Field [] Tt])
    (map PyLong [-2; 300; 2 ^ 40 + 5; -70000])
  = Done (PyBytes
            (packed [Field [D2] Th; Field [] Tx; Field [] TQ; Field [] Tt]
                    [-2; 300; 2 ^ 40 + 5; -70000])) tt /\
  Z.of_nat
    (length (packed [Field [D2] Th; Field [] Tx; Field [] TQ; Field [] Tt]
                    [-2; 300; 2 ^ 40 + 5; -70000]))
  = byteSize_with repeatCount
      [Field [D2] Th; Field [] Tx; Field [] TQ; Field [] Tt] /\
  Walker.wk_Unpack false
    (Walker.mkWK
       (packed [Field [D2] Th; Field [] Tx; Field [] TQ; Field [] Tt]
               [-2; 300; 2 ^ 40 + 5; -70000]) 0 0 16 true 0)
    (render [Field [D2] Th; Field [] Tx; Field [] TQ; Field [] Tt])
    false true
  = Done (PyTuple (map (fun v => Some (PyLong v))
                       [-2; 300; 2 ^ 40 + 5; -70000]))
         (Walker.set_position
            (Walker.mkWK
               (packed [Field [D2] Th; Field [] Tx; Field [] TQ; Field [] Tt]
                       [-2; 300; 2 ^ 40 + 5; -70000]) 0 0 16 true 0)
            (0 + byteSize_with repeatCount
                   [Field [D2] Th; Field [] Tx; Field [] TQ; Field [] Tt])
            0).
Proof.
  apply (ut_Pack_wk_Unpack false
           [Field [D2] Th; Field [] Tx; Field [] TQ; Field [] Tt]
           [-2; 300; 2 ^ 40 + 5; -70000]
           (Walker.mkWK
              (packed [Field [D2] Th; Field [] Tx; Field [] TQ; Field [] Tt]
                      [-2; 300; 2 ^ 40 + 5; -70000]) 0 0 16 true 0));
    [ vm_compute; reflexivity | vm_compute; reflexivity | reflexivity
    | reflexivity | vm_compute; discriminate | vm_compute; reflexivity ].
Defined.

(** ** Reading without advancing *)

Lemma ulong_times_8 (size : Z) : Z.land (ulong (8 * size)) 7 = 0.
Proof.
  change 7 with (Z.ones 3). rewrite Z.land_ones by lia.
  change (2 ^ 3) with 8. unfold ulong.
  pose proof (Z.div_mod (8 * size) (2 ^ 64) ltac:(lia)) as E.
  replace ((8 * size) mod 2 ^ 64)
    with ((size - 2 ^ 61 * ((8 * size) / 2 ^ 64)) * 8) by lia.
  apply Z.mod_mul. lia.
Qed.

(** Whatever [BytesFromBits] returns, it changes nothing of the context but
    the cursor. *)
Lemma wkb_BytesFromBits_context (c c1 : WalkerBit.WKB_Context) (n : Z)
  (b : list Z) :
  WalkerBit.BytesFromBits c n = Done b c1 ->
  WalkerBit.set_currBitOffset c1 (WalkerBit.currBitOffset c) = c.
Proof.
  unfold WalkerBit.BytesFromBits. cbv zeta.
  repeat match goal with
    | |- context [if ?x then _ else _] => destruct x
    | |- context [match ?x with _ => _ end] => destruct x
    end;
    intros H; try discriminate H;
    injection H as _ <-; now rewrite wkb_set_set, wkb_set_same.
Qed.

(** After a whole number of bytes the phase is what it was. *)
Lemma wk_BytesFromBits_context (c c1 : Walker.WK_Context) (n : Z)
  (b : list Z) :
  Z.land n 7 = 0 ->
  Walker.BytesFromBits c n = Done b c1 ->
  Walker.set_currOffset c1 (Walker.currOffset c) = c.
Proof.
  intros Hn. unfold Walker.BytesFromBits. cbv zeta. rewrite Hn.
  change (0 =? 0) with true. cbn [negb].
  repeat match goal with
    | |- context [if ?x then _ else _] => destruct x
    | |- context [match ?x with _ => _ end] => destruct x
    end;
    intros H; try discriminate H;
    injection H as _ <-; now destruct c.
Qed.

(** X20. Peeking.  Whenever [wkb_Unpack] or [wk_Unpack] succeeds with
    [advance] on, the same call with [advance] off returns the same object
    and leaves the walker exactly as it was: for the byte walker the stored
    offset is put back and the phase, which the call does not put back, is
    the old one because a format covers a whole number of bytes. *)
Theorem Unpack_peek :
  (forall rob c format coerce obj c',
     WalkerBit.wkb_Unpack rob c format coerce true = Done obj c' ->
     WalkerBit.wkb_Unpack rob c format coerce false = Done obj c) /\
  (forall rob c format coerce obj c',
     Walker.wk_Unpack rob c format coerce true = Done obj c' ->
     Walker.wk_Unpack rob c format coerce false = Done obj c).
Proof.
  split; intros rob c format coerce obj c' H.
  - unfold WalkerBit.wkb_Unpack in *.
    destruct (FormatByteSize format) as [size items].
    destruct (WalkerBit.BytesFromBits c (ulong (8 * size)))
      as [b c1 | e c1 |] eqn:EB; try discriminate H.
    apply wkb_BytesFromBits_context in EB.
    destruct (FormatProcess rob (PyTuple_New items) b format 0
                (WalkerBit.isBigEndian c1)) as [u t' | e t' |];
      try discriminate H.
    cbn [negb] in *. rewrite EB.
    destruct (coerce && (items =? 1));
      [destruct (PySequence_GetItem0 t'); try discriminate H|];
      injection H as <- _; reflexivity.
  - unfold Walker.wk_Unpack in *.
    destruct (FormatByteSize format) as [size items].
    destruct (Walker.BytesFromBits c (ulong (8 * size)))
      as [b c1 | e c1 |] eqn:EB; try discriminate H.
    apply wk_BytesFromBits_context in EB; [|apply ulong_times_8].
    destruct (FormatProcess rob (PyTuple_New items) b format 0
                (Walker.isBigEndian c1)) as [u t' | e t' |];
      try discriminate H.
    cbn [negb] in *. rewrite EB.
    destruct (coerce && (items =? 1));
      [destruct (PySequence_GetItem0 t'); try discriminate H|];
      injection H as <- _; reflexivity.
Qed.

Lemma Unpack_peek_witness :
  WalkerBit.wkb_Unpack false (WalkerBit.mkWKB [0x12; 0x34; 0x56] 0 4 24 true)
                       ["H"%char] true false
  = Done (PyLong 0x2345) (WalkerBit.mkWKB [0x12; 0x34; 0x56] 0 4 24 true) /\
  Walker.wk_Unpack false (Walker.mkWK [0x12; 0x34; 0x56] 0 0 3 true 4)
                   ["H"%char] true false
  = Done (PyLong 0x2345) (Walker.mkWK [0x12; 0x34; 0x56] 0 0 3 true 4).
Proof.
  split.
  - apply (proj1 Unpack_peek false
             (WalkerBit.mkWKB [0x12; 0x34; 0x56] 0 4 24 true) ["H"%char] true
             (PyLong 0x2345)
             (WalkerBit.mkWKB [0x12; 0x34; 0x56] 0 20 24 true)).
    vm_compute. reflexivity.
  - apply (proj2 Unpack_peek false
             (Walker.mkWK [0x12; 0x34; 0x56] 0 0 3 true 4) ["H"%char] true
             (PyLong 0x2345)
             (Walker.mkWK [0x12; 0x34; 0x56] 0 2 3 true 4)).
    vm_compute. reflexivity.
Defined.

(** ** A format without a type code *)

Lemma CalcSizeFromFormat_switch_no_code (c : ascii) (repeat size items : Z) :
  Utilities.is_code c = false ->
  Utilities.CalcSizeFromFormat_switch c repeat size items
  = (repeat, size, items).
Proof.
  intros H. destruct c as [[] [] [] [] [] [] [] []];
    cbv in H; try discriminate H; reflexivity.
Qed.

Lemma CalcSizeFromFormat_loop_no_code (format : list ascii) :
  forall repeat size items,
    forallb (fun c => negb (Utilities.is_code c)) format = true ->
    Utilities.CalcSizeFromFormat_loop format repeat size items
    = (size, items).
Proof.
  induction format as [|c format IH]; intros repeat size items H;
    [reflexivity|].
  cbn [forallb] in H. apply andb_true_iff in H. destruct H as [Hc H].
  apply negb_true_iff in Hc.
  cbn [Utilities.CalcSizeFromFormat_loop].
  destruct (c =? "000")%char; [reflexivity|].
  destruct (is_digit c); [now apply IH|].
  rewrite CalcSizeFromFormat_switch_no_code by exact Hc. now apply IH.
Qed.

Lemma skip_to_code_no_code (format : list ascii) :
  forallb (fun c => negb (Utilities.is_code c)) format = true ->
  Utilities.skip_to_code format = None.
Proof.
  induction format as [|c format IH]; intros H; [reflexivity|].
  cbn [forallb] in H. apply andb_true_iff in H. destruct H as [Hc H].
  apply negb_true_iff in Hc.
  cbn [Utilities.skip_to_code]. rewrite Hc. now apply IH.
Qed.

Lemma read_count_no_code (format : list ascii) :
  forall repeat,
    forallb (fun c => negb (Utilities.is_code c)) format = true ->
    forallb (fun c => negb (Utilities.is_code c))
            (snd (Utilities.read_count format repeat)) = true.
Proof.
  induction format as [|c format IH]; intros repeat H; [reflexivity|].
  cbn [Utilities.read_count]. destruct (is_digit c); [|exact H].
  cbn [forallb] in H. apply andb_true_iff in H. destruct H as [_ H].
  now apply IH.
Qed.

Lemma skip_to_count_no_code (format : list ascii) :
  forallb (fun c => negb (Utilities.is_code c)) format = true ->
  match Utilities.skip_to_count format with
  | Some format1 =>
      forallb (fun c => negb (Utilities.is_code c)) format1 = true
  | None => True
  end.
Proof.
  induction format as [|c format IH]; intros H; [exact I|].
  cbn [Utilities.skip_to_count].
  destruct (is_digit c || Utilities.is_code c); [exact H|].
  cbn [forallb] in H. apply andb_true_iff in H. destruct H as [_ H].
  now apply IH.
Qed.

Lemma GetNextRepeat_no_code (format : list ascii) :
  forallb (fun c => negb (Utilities.is_code c)) format = true ->
  Utilities.GetNextRepeat format = None.
Proof.
  intros H. unfold Utilities.GetNextRepeat.
  pose proof (skip_to_count_no_code format H) as H1.
  destruct (Utilities.skip_to_count format) as [format1|]; [|reflexivity].
  pose proof (read_count_no_code format1 0 H1) as H2.
  destruct (Utilities.read_count format1 0) as [repeat format2].
  cbn [snd] in H2. now rewrite skip_to_code_no_code.
Qed.

(** X21. A format that is not empty and holds no type code (a lone endian
    mark, a lone repeat count, white space): [CalcSizeFromFormat] counts no
    item, so any argument is refused with [ValueError]; without arguments
    the main loop of [ut_Pack] calls [GetNextRepeat], which looks for a
    type code and walks past the terminating NUL of the format string: the
    call has no defined result. *)
Theorem ut_Pack_no_code (c0 : ascii) (rest : list ascii)
  (args : list PyObj) :
  c0 <> "000"%char ->
  forallb (fun c => negb (Utilities.is_code c)) (c0 :: rest) = true ->
  Utilities.ut_Pack (c0 :: rest) args
  = match args with
    | [] => Undefined
    | _ :: _ => Raised ValueError tt
    end.
Proof.
  intros Hnul Hcode.
  unfold Utilities.ut_Pack, Utilities.CalcSizeFromFormat.
  rewrite CalcSizeFromFormat_loop_no_code by exact Hcode.
  destruct args as [|arg args].
  - cbn [length Z.of_nat Z.eqb negb Utilities.ut_Pack_loop].
    apply Ascii.eqb_neq in Hnul. rewrite Hnul.
    now rewrite GetNextRepeat_no_code.
  - replace (0 =? Z.of_nat (length (arg :: args))) with false
      by (symmetry; apply Z.eqb_neq; cbn [length]; lia).
    reflexivity.
Qed.

Lemma ut_Pack_no_code_witness :
  Utilities.ut_Pack [">"; "3"]%char [] = Undefined /\
  Utilities.ut_Pack [">"; "3"]%char [PyLong 1] = Raised ValueError tt.
Proof.
  split.
  - apply (ut_Pack_no_code ">"%char ["3"%char] []);
      [discriminate | reflexivity].
  - apply (ut_Pack_no_code ">"%char ["3"%char] [PyLong 1]);
      [discriminate | reflexivity].
Defined.

(** ** Four-byte codes are not range-checked *)

Lemma big_endian_bytes_congruent (w : nat) (v v' : Z) :
  v mod 2 ^ (8 * Z.of_nat w) = v' mod 2 ^ (8 * Z.of_nat w) ->
  Utilities.big_endian_bytes w v = Utilities.big_endian_bytes w v'.
Proof.
  intros E. unfold Utilities.big_endian_bytes.
  apply map_ext_in. intros k Hk.
  apply in_rev, in_seq in Hk.
  apply Z.bits_inj'. intros i Hi.
  destruct (Z_lt_ge_dec i 8) as [Hlow | Hhigh].
  - rewrite !uchar_testbit, !Z.shiftr_spec by lia.
    rewrite <- (Z.mod_pow2_bits_low v (8 * Z.of_nat w)) by lia.
    rewrite <- (Z.mod_pow2_bits_low v' (8 * Z.of_nat w)) by lia.
    now rewrite E.
  - now rewrite !uchar_testbit_high by lia.
Qed.

Lemma sint_mod (v : Z) : sint v mod 2 ^ 32 = v mod 2 ^ 32.
Proof.
  destruct (sint_congruent v) as (k & ->).
  rewrite Z.mul_comm. apply Z.mod_add. lia.
Qed.

Lemma sint_range (v : Z) : - 2 ^ 31 <= sint v < 2 ^ 31.
Proof.
  unfold sint. pose proof (Z.mod_pos_bound (v + 2 ^ 31) (2 ^ 32)). lia.
Qed.

(** X22. The four-byte codes take any integer the C conversion accepts:
    [I] and [L] any value below [2 ^ 64], [i] and [l] any value of a
    [long].  [ut_Pack] stores the low four bytes without an error, and a
    walker reads back the value reduced modulo [2 ^ 32] ([I], [L]) or its
    signed 32-bit representative ([i], [l]), not the value that was
    packed. *)
Theorem ut_Pack_four_bytes (rob : bool) (code : typeCode) (v : Z)
  (c : Walker.WK_Context) :
  match code with
  | TI | TL => 0 <= v < 2 ^ 64
  | Ti | Tl => - 2 ^ 63 <= v < 2 ^ 63
  | _ => False
  end ->
  Walker.valid c = true ->
  Walker.phase c = 0 ->
  Walker.isBigEndian c = true ->
  Walker.currOffset c + 4 <= Walker.limit c ->
  firstn 4 (skipn (Z.to_nat (Walker.currOffset c)) (Walker.liveBuffer c))
  = Utilities.big_endian_bytes 4 v ->
  Utilities.ut_Pack [code_char code] [PyLong v]
  = Done (PyBytes (Utilities.big_endian_bytes 4 v)) tt /\
  Walker.wk_Unpack rob c [code_char code] false true
  = Done (PyTuple [Some (PyLong match code with
                                | TI | TL => v mod 2 ^ 32
                                | _ => sint v
                                end)])
         (Walker.set_position c (Walker.currOffset c + 4) 0).
Proof.
  intros Hrange Hv Hph Hbe Hfit Hbytes.
  set (v' := match code with TI | TL => v mod 2 ^ 32 | _ => sint v end).
  assert (Hcong : v mod 2 ^ 32 = v' mod 2 ^ 32).
  { unfold v'. destruct code; try contradiction;
      try (now rewrite Z.mod_mod by lia); now rewrite sint_mod. }
  assert (Hfits : fits code v' = true).
  { pose proof (Z.mod_pos_bound v (2 ^ 32) ltac:(lia)).
    pose proof (sint_range v).
    unfold v'. destruct code; try contradiction; cbn [fits];
      apply andb_true_iff; split;
      (apply Z.leb_le || apply Z.ltb_lt); lia. }
  assert (Hcode : code = TI \/ code = TL \/ code = Ti \/ code = Tl)
    by (destruct code; try contradiction; tauto).
  split.
  - unfold Utilities.ut_Pack, Utilities.CalcSizeFromFormat.
    pose proof (CalcSizeFromFormat_loop_render [Field [] code] 0 0) as Esize.
    pose proof (ut_Pack_loop_field 0 [] code [] [PyLong v]
                  (Utilities.mkPack [] 0)) as Eloop.
    cbn [render flat_map render_token map app byteSize_with itemCount_with
         fold_right length] in Esize, Eloop |- *.
    change (repeatCount []) with 1 in *.
    change (count_value []) with 0 in *.
    destruct Hcode as [ -> | [ -> | [ -> | -> ] ] ];
      cbn [unitSize itemsOf code_char Utilities.ut_Pack_switch] in *;
      rewrite Esize, Eloop by lia;
      cbn [length Z.of_nat Z.add Pos.of_succ_nat Z.eqb Pos.eqb negb];
      change (Z.to_nat 1) with 1%nat;
      cbn [Utilities.pack_repeat Utilities.next_arg Utilities.written
           nth_error app];
      unfold Utilities.pack_converted, Utilities.PyLong_AsUnsignedLong,
        Utilities.PyLong_AsLong;
      repeat first
        [ progress cbn [andb]
        | match goal with
          | |- context [?a <=? ?b] =>
              replace (a <=? b) with true by (symmetry; apply Z.leb_le; lia)
          | |- context [?a <? ?b] =>
              replace (a <? b) with true by (symmetry; apply Z.ltb_lt; lia)
          end ];
      rewrite ut_Pack_loop_nil; cbn [Utilities.written];
      rewrite big_endian_bytes_length; reflexivity.
  - assert (Hsame : Utilities.big_endian_bytes 4 v
                    = Utilities.big_endian_bytes 4 v')
      by (apply big_endian_bytes_congruent; exact Hcong).
    assert (Hpacked : packed [Field [] code] [v']
                      = Utilities.big_endian_bytes 4 v').
    { destruct Hcode as [ -> | [ -> | [ -> | -> ] ] ];
        cbn [packed unitSize]; change (Z.to_nat (repeatCount [])) with 1%nat;
        change (Z.to_nat 4) with 4%nat;
        cbn [firstn skipn flat_map packed]; now rewrite !app_nil_r. }
    assert (Hsz : byteSize_with repeatCount [Field [] code] = 4)
      by (destruct Hcode as [ -> | [ -> | [ -> | -> ] ] ]; reflexivity).
    pose proof (wk_Unpack_packed rob [Field [] code] [v'] c) as E.
    rewrite Hsz, Hpacked, <- Hsame in E.
    apply E; try assumption.
    destruct Hcode as [ -> | [ -> | [ -> | -> ] ] ];
      cbn [packable]; change (Z.to_nat (repeatCount [])) with 1%nat;
      cbn [length Nat.leb firstn skipn forallb packable andb];
      now rewrite Hfits.
Qed.

Lemma ut_Pack_four_bytes_witness :
  Utilities.ut_Pack ["I"%char] [PyLong (2 ^ 32 + 7)]
  = Done (PyBytes [0; 0; 0; 7]) tt /\
  Walker.wk_Unpack false (Walker.mkWK [0; 0; 0; 7] 0 0 4 true 0)
                   ["I"%char] false true
  = Done (PyTuple [Some (PyLong 7)])
         (Walker.mkWK [0; 0; 0; 7] 0 4 4 true 0).
Proof.
  apply (ut_Pack_four_bytes false TI (2 ^ 32 + 7)
           (Walker.mkWK [0; 0; 0; 7] 0 0 4 true 0));
    [ vm_compute; split; [discriminate | reflexivity]
    | reflexivity | reflexivity | reflexivity
    | vm_compute; discriminate | reflexivity ].
Defined.

(** ** The two size computations *)

Lemma CalcSizeFromFormat_render (ts : list token) :
  byteSize_with repeatCount ts < 2 ^ 64 ->
  Utilities.CalcSizeFromFormat (render ts)
  = (byteSize_with repeatCount ts, itemCount_with repeatCount ts).
Proof.
  intros Hlt. unfold Utilities.CalcSizeFromFormat.
  rewrite CalcSizeFromFormat_loop_render by lia. reflexivity.
Qed.

(** X23. [CalcSizeFromFormat], which sizes the buffer of [ut_Pack], and
    [FormatByteSize], which sizes the reads of the walkers, return the same
    byte size and item count on every format made of fields (an optional
    count and a type code) and endian marks.  They part when an endian mark
    stands between a count and its code: [FormatByteSize] forgets the count
    at the mark and sizes one unit, [CalcSizeFromFormat] keeps it and sizes
    [count] units. *)
Theorem CalcSizeFromFormat_FormatByteSize (ts : list token)
  (ds : list digit) (m : endianMark) (code : typeCode) :
  byteSize_with repeatCount ts < 2 ^ 64 ->
  0 < count_value ds -> unitSize code * count_value ds < 2 ^ 64 ->
  Utilities.CalcSizeFromFormat (render ts) = FormatByteSize (render ts) /\
  FormatByteSize (map digit_char ds ++ [mark_char m; code_char code])
  = (unitSize code, itemsOf 1 code) /\
  Utilities.CalcSizeFromFormat
    (map digit_char ds ++ [mark_char m; code_char code])
  = (unitSize code * count_value ds, itemsOf (count_value ds) code).
Proof.
  intros Hts Hpos Hlt.
  assert (Hu : 1 <= unitSize code) by (destruct code; cbn [unitSize]; lia).
  assert (Hcount : count_from 0 ds < 2 ^ 64)
    by (fold (count_value ds); nia).
  split; [|split].
  - now rewrite CalcSizeFromFormat_render, FormatByteSize_render.
  - unfold FormatByteSize.
    rewrite FormatByteSize_loop_digits by (try exact Hcount; lia).
    cbn [FormatByteSize_loop]. rewrite mark_char_not_digit.
    replace (FormatByteSize_switch (mark_char m) _ 0 0) with (0, 0)
      by (now destruct m).
    rewrite code_char_not_digit. change (0 =? 0) with true. cbv iota.
    rewrite FormatByteSize_switch_code by lia.
    f_equal; lia.
  - unfold Utilities.CalcSizeFromFormat.
    rewrite CalcSizeFromFormat_loop_digits by (try exact Hcount; lia).
    fold (count_value ds).
    cbn [Utilities.CalcSizeFromFormat_loop].
    replace (mark_char m =? "000")%char with false by (now destruct m).
    rewrite mark_char_not_digit.
    replace (Utilities.CalcSizeFromFormat_switch (mark_char m)
               (count_value ds) 0 0)
      with (count_value ds, 0, 0) by (now destruct m).
    replace (code_char code =? "000")%char with false by (now destruct code).
    rewrite code_char_not_digit.
    rewrite CalcSizeFromFormat_switch_code
      by (destruct (Z.eqb_spec (count_value ds) 0); lia).
    destruct (Z.eqb_spec (count_value ds) 0); [lia|].
    f_equal; lia.
Qed.

Lemma CalcSizeFromFormat_FormatByteSize_witness :
  Utilities.CalcSizeFromFormat ["3"; "H"; "<"; "q"]%char
  = FormatByteSize ["3"; "H"; "<"; "q"]%char /\
  FormatByteSize ["3"; ">"; "H"]%char = (2, 1) /\
  Utilities.CalcSizeFromFormat ["3"; ">"; "H"]%char = (6, 3).
Proof.
  apply (CalcSizeFromFormat_FormatByteSize
           [Field [D3] TH; Endian MLess; Field [] Tq] [D3] MGreater TH);
    vm_compute; reflexivity.
Defined.

(** ** The bit shift of the file walker *)

Lemma BitShiftLeftBuffer_loop_step (s : Z) (n : nat) (a b : Z)
  (rest : list Z) :
  FileWalker.BitShiftLeftBuffer_loop (a :: b :: rest) s (S n)
  = match FileWalker.BitShiftLeftBuffer_loop (b :: rest) s n with
    | Some rest' =>
        Some (uchar (Z.lor (Z.shiftl a s) (Z.shiftr b (8 - s))) :: rest')
    | None => None
    end.
Proof. reflexivity. Qed.

Lemma BitShiftLeftBuffer_loop_bytes (s : Z) (n : nat) :
  forall p,
    (n < length p)%nat ->
    FileWalker.BitShiftLeftBuffer_loop p s n
    = Some (map (fun j =>
                   uchar (Z.lor (Z.shiftl (nth j p 0) s)
                                (Z.shiftr (nth (S j) (firstn (S n) p) 0)
                                          (8 - s))))
                (seq 0 (S n))
            ++ skipn (S n) p).
Proof.
  induction n as [|n IH]; intros p Hlen.
  - destruct p as [|a rest]; [cbn [length] in Hlen; lia|].
    cbn [FileWalker.BitShiftLeftBuffer_loop seq map firstn nth skipn app].
    now rewrite Z.shiftr_0_l, Z.lor_0_r.
  - destruct p as [|a [|b rest]]; cbn [length] in Hlen; try lia.
    rewrite BitShiftLeftBuffer_loop_step.
    rewrite IH by (cbn [length]; lia).
    change (seq 0 (S (S n))) with (0%nat :: seq 1 (S n)).
    rewrite <- seq_shift, map_cons, map_map.
    reflexivity.
Qed.

Lemma bytes_ok_firstn (l : list Z) (n : nat) :
  bytes_ok l = true -> bytes_ok (firstn n l) = true.
Proof.
  unfold bytes_ok. intros H. rewrite <- (firstn_skipn n l) in H.
  rewrite forallb_app in H. now apply andb_true_iff in H.
Qed.

Lemma bitAt_firstn (p : list Z) (n : nat) (k : Z) :
  0 <= k ->
  bitAt (firstn n p) k = (k <? 8 * Z.of_nat n) && bitAt p k.
Proof.
  intros Hk. unfold bitAt. rewrite nth_firstn.
  pose proof (Z.div_mod k 8 ltac:(lia)) as E.
  pose proof (Z.mod_pos_bound k 8 ltac:(lia)) as Hr.
  destruct (Z.ltb_spec k (8 * Z.of_nat n)).
  - replace (Z.to_nat (k / 8) <? n)%nat with true
      by (symmetry; apply Nat.ltb_lt; lia).
    reflexivity.
  - replace (Z.to_nat (k / 8) <? n)%nat with false
      by (symmetry; apply Nat.ltb_ge; lia).
    apply Z.testbit_0_l.
Qed.

(** X24. [BitShiftLeftBuffer] shifts the first [byteCount] bytes of the
    buffer left by [bitsToShift] bits, as one string of bits: bit [i] of the
    result is bit [i + bitsToShift] of the bytes it was given, zero bits
    come in at the end, and the bytes after the first [byteCount] are left
    as they are. *)
Theorem BitShiftLeftBuffer_bits (p : list Z) (bitsToShift byteCount : Z) :
  bytes_ok p = true ->
  1 <= bitsToShift <= 7 ->
  1 <= byteCount <= Z.of_nat (length p) ->
  exists out,
    FileWalker.BitShiftLeftBuffer p bitsToShift byteCount
    = Some (out ++ skipn (Z.to_nat byteCount) p) /\
    Z.of_nat (length out) = byteCount /\
    bytes_ok out = true /\
    forall i,
      0 <= i < 8 * byteCount ->
      bitAt out i
      = (i + bitsToShift <? 8 * byteCount) && bitAt p (i + bitsToShift).
Proof.
  intros Hok Hs Hn.
  set (n := Z.to_nat byteCount).
  assert (En : byteCount = Z.of_nat n) by (unfold n; lia).
  exists (bitSlice (firstn n p) bitsToShift (8 * Z.of_nat n)).
  split; [|split; [|split]].
  - unfold FileWalker.BitShiftLeftBuffer.
    replace (0 <=? bitsToShift) with true by (symmetry; apply Z.leb_le; lia).
    replace (bitsToShift <=? 8) with true by (symmetry; apply Z.leb_le; lia).
    replace (1 <=? byteCount) with true by (symmetry; apply Z.leb_le; lia).
    cbn [andb].
    destruct n as [|m] eqn:Em; [lia|].
    replace (Z.to_nat (byteCount - 1)) with m by lia.
    rewrite BitShiftLeftBuffer_loop_bytes by lia.
    do 2 f_equal. rewrite bitSlice_whole.
    apply map_ext_in. intros j Hj. apply in_seq in Hj.
    pose proof (whole_byte_shifted (firstn (S m) p) 0 (S m) j bitsToShift 0
                  (bytes_ok_firstn p (S m) Hok) Hs ltac:(lia) ltac:(lia))
      as E.
    cbn [Nat.add] in E.
    replace (8 * Z.of_nat 0 + bitsToShift) with bitsToShift in E by lia.
    replace (8 * Z.of_nat (S m) + 0) with (8 * Z.of_nat (S m)) in E by lia.
    rewrite <- E. unfold uchar.
    rewrite (nth_firstn (S m) p j 0).
    replace (j <? S m)%nat with true by (symmetry; apply Nat.ltb_lt; lia).
    reflexivity.
  - rewrite bitSlice_whole_length; lia.
  - apply bitSlice_bytes_ok.
  - intros i Hi.
    rewrite bitSlice_bitAt
      by (rewrite byteLength_whole; lia).
    replace (i <? 8 * Z.of_nat n) with true
      by (symmetry; apply Z.ltb_lt; lia).
    cbn [andb]. rewrite bitAt_firstn by lia.
    rewrite <- En. now rewrite (Z.add_comm bitsToShift i).
Qed.

Lemma BitShiftLeftBuffer_bits_witness :
  exists out,
    FileWalker.BitShiftLeftBuffer [0x12; 0x34; 0x56] 4 2
    = Some (out ++ skipn (Z.to_nat 2) [0x12; 0x34; 0x56]) /\
    Z.of_nat (length out) = 2 /\
    bytes_ok out = true /\
    forall i,
      0 <= i < 8 * 2 ->
      bitAt out i = (i + 4 <? 8 * 2) && bitAt [0x12; 0x34; 0x56] (i + 4).
Proof.
  apply (BitShiftLeftBuffer_bits [0x12; 0x34; 0x56] 4 2);
    [reflexivity | lia | simpl; lia].
Defined.

(** ** The byte order of the host *)

Lemma host_load_order (rob isBE : bool) (bs : list Z) :
  host_load rob (fill_xc rob isBE bs)
  = be_value (if isBE then bs else rev bs) 0.
Proof.
  unfold host_load, fill_xc.
  destruct rob, isBE; cbn [Bool.eqb]; try reflexivity;
    now rewrite rev_involutive.
Qed.

Lemma fp_bytes_length (b : list Z) (st : FP_State) (n : Z) (bs : list Z) :
  fp_bytes b st n = Some bs -> length bs = Z.to_nat n.
Proof.
  unfold fp_bytes.
  destruct ((0 <=? fp_b st) && (0 <=? n)
            && (fp_b st + n <=? Z.of_nat (length b))) eqn:E;
    [|discriminate].
  apply andb_true_iff in E. destruct E as [E H3].
  apply andb_true_iff in E. destruct E as [H1 H2].
  apply Z.leb_le in H1, H2, H3.
  intros H. injection H as <-.
  rewrite length_firstn, length_skipn. lia.
Qed.

Lemma fp_repeat_ext (item item' : FP_State -> outcome FP_State unit)
  (n : nat) :
  (forall st, item st = item' st) ->
  forall st, fp_repeat n item st = fp_repeat n item' st.
Proof.
  intros H. induction n as [|n IH]; intros st; [reflexivity|].
  cbn [fp_repeat]. rewrite H. destruct (item' st); auto.
Qed.

Lemma item_H_order (isBE : bool) (c : ascii) (b : list Z) (st : FP_State) :
  item_H true isBE c b st = item_H false isBE c b st.
Proof.
  unfold item_H. destruct (fp_bytes b st 2); [|reflexivity].
  now rewrite !host_load_order.
Qed.

Lemma item_I_order (isBE : bool) (c : ascii) (b : list Z) (st : FP_State) :
  item_I true isBE c b st = item_I false isBE c b st.
Proof.
  unfold item_I. destruct (fp_bytes b st 4); [|reflexivity].
  now rewrite !host_load_order.
Qed.

Lemma item_d_order (isBE : bool) (b : list Z) (st : FP_State) :
  item_d true isBE b st = item_d false isBE b st.
Proof.
  unfold item_d. destruct (fp_bytes b st 8); [|reflexivity].
  now rewrite !host_load_order.
Qed.

Lemma item_T_order (isBE : bool) (c : ascii) (b : list Z) (st : FP_State) :
  item_T true isBE c b st = item_T false isBE c b st.
Proof.
  unfold item_T. destruct (fp_bytes b st 3) as [bs|] eqn:E; [|reflexivity].
  apply fp_bytes_length in E. change (Z.to_nat 3) with 3%nat in E.
  destruct bs as [|x0 [|x1 [|x2 [|x3 bs]]]]; try discriminate E.
  destruct isBE; reflexivity.
Qed.

Lemma FormatProcess_switch_order (isBE : bool) (c : ascii) (repeat : Z)
  (b : list Z) (st : FP_State) :
  FormatProcess_switch true isBE c repeat b st
  = FormatProcess_switch false isBE c repeat b st.
Proof.
  destruct c as [[] [] [] [] [] [] [] []];
    cbv beta iota delta [FormatProcess_switch];
    try reflexivity;
    apply fp_repeat_ext; intros st';
    first [ apply item_H_order | apply item_I_order
          | apply item_T_order | apply item_d_order ].
Qed.

Lemma FormatProcess_loop_order (b : list Z) (format : list ascii) :
  forallb (fun c => negb ((c =? "@") || (c =? "="))%char) format = true ->
  forall isBE repeat st,
    FormatProcess_loop true b format isBE repeat st
    = FormatProcess_loop false b format isBE repeat st.
Proof.
  induction format as [|c format IH]; intros H isBE repeat st;
    [reflexivity|].
  cbn [forallb] in H. apply andb_true_iff in H. destruct H as [Hc H].
  specialize (IH H).
  cbn [FormatProcess_loop].
  destruct (is_digit c); [apply IH|].
  rewrite FormatProcess_switch_order.
  destruct (FormatProcess_switch false isBE c
              (if repeat =? 0 then 1 else repeat) b st)
    as [u st' | e st' |];
    destruct c as [[] [] [] [] [] [] [] []];
    try discriminate Hc; try reflexivity; apply IH.
Qed.

(** X25. The byte order of the machine the code runs on does not show in
    what is read: for every format without the native-order marks [@] and
    [=], every buffer and every walker, [FormatProcess], [wkb_Unpack] and
    [wk_Unpack] return the same on a big-endian and on a little-endian
    host. *)
Theorem Unpack_host_order (format : list ascii) :
  forallb (fun c => negb ((c =? "@") || (c =? "="))%char) format = true ->
  (forall t b startIndex isBE,
     FormatProcess true t b format startIndex isBE
     = FormatProcess false t b format startIndex isBE) /\
  (forall c coerce advance,
     WalkerBit.wkb_Unpack true c format coerce advance
     = WalkerBit.wkb_Unpack false c format coerce advance) /\
  (forall c coerce advance,
     Walker.wk_Unpack true c format coerce advance
     = Walker.wk_Unpack false c format coerce advance).
Proof.
  intros H.
  assert (HFP : forall t b startIndex isBE,
            FormatProcess true t b format startIndex isBE
            = FormatProcess false t b format startIndex isBE).
  { intros t b startIndex isBE. unfold FormatProcess.
    now rewrite FormatProcess_loop_order. }
  split; [exact HFP|]. split; intros c coerce advance.
  - unfold WalkerBit.wkb_Unpack.
    destruct (FormatByteSize format) as [size items].
    destruct (WalkerBit.BytesFromBits c (ulong (8 * size)));
      try reflexivity.
    now rewrite HFP.
  - unfold Walker.wk_Unpack.
    destruct (FormatByteSize format) as [size items].
    destruct (Walker.BytesFromBits c (ulong (8 * size)));
      try reflexivity.
    now rewrite HFP.
Qed.

Lemma Unpack_host_order_witness :
  Walker.wk_Unpack true (Walker.mkWK [0x12; 0x34; 0x56; 0x78] 0 0 4 true 0)
                   ["H"; "<"; "h"]%char false true
  = Walker.wk_Unpack false (Walker.mkWK [0x12; 0x34; 0x56; 0x78] 0 0 4 true 0)
                     ["H"; "<"; "h"]%char false true.
Proof.
  apply (proj2 (proj2 (Unpack_host_order ["H"; "<"; "h"]%char eq_refl))).
Defined.

(** ** The code [P] *)

(** X26. [FormatByteSize] knows a code [P] of eight bytes ([Py_ssize_t])
    and counts one item for each, but [FormatProcess] has no case for it.
    [wkb_Unpack] with a format of one [P] field therefore reads
    [8 * count] bytes and returns a tuple of [count] slots none of which
    was ever set; with [coerce] on and a single item it takes item 0 of
    that tuple, a null pointer, and has no defined result. *)
Theorem wkb_Unpack_P (rob : bool) (c : WalkerBit.WKB_Context)
  (ds : list digit) (coerce : bool) :
  WalkerBit.valid c = true ->
  WalkerBit.currBitOffset c + 64 * repeatCount ds <= WalkerBit.bitLimit c ->
  FormatByteSize (map digit_char ds ++ ["P"%char])
  = (8 * repeatCount ds, repeatCount ds) /\
  WalkerBit.wkb_Unpack rob c (map digit_char ds ++ ["P"%char]) coerce true
  = if coerce && (repeatCount ds =? 1) then Undefined
    else Done (PyTuple (List.repeat None (Z.to_nat (repeatCount ds))))
              (WalkerBit.set_currBitOffset c
                 (WalkerBit.currBitOffset c + 64 * repeatCount ds)).
Proof.
  intros Hv Hfit.
  destruct (wkb_valid_elim c Hv) as (Hok & Hcurr & Hlim & Hbuf).
  pose proof (repeatCount_pos ds) as Hrc.
  pose proof (count_value_nonneg ds) as Hcv.
  assert (Hcount : count_from 0 ds < 2 ^ 64).
  { fold (count_value ds). unfold repeatCount in *.
    destruct (Z.eqb_spec (count_value ds) 0); lia. }
  assert (Hsize : FormatByteSize (map digit_char ds ++ ["P"%char])
                  = (8 * repeatCount ds, repeatCount ds)).
  { unfold FormatByteSize.
    rewrite FormatByteSize_loop_digits by (try exact Hcount; lia).
    fold (count_value ds).
    cbn [FormatByteSize_loop is_digit]. 
    change (is_digit "P") with false. cbv iota.
    fold (repeatCount ds).
    cbn [FormatByteSize_switch]. unfold sizeof_Py_ssize_t.
    rewrite Z.add_0_l, (ulong_small (8 * repeatCount ds)) by lia.
    rewrite Z.add_0_l, !ulong_small by lia. reflexivity. }
  split; [exact Hsize|].
  unfold WalkerBit.wkb_Unpack. rewrite Hsize.
  rewrite (ulong_small (8 * (8 * repeatCount ds))) by lia.
  rewrite wkb_extract by (try assumption; lia).
  unfold FormatProcess.
  rewrite FormatProcess_loop_digits by (try exact Hcount; lia).
  cbn [FormatProcess_loop]. change (is_digit "P") with false. cbv iota.
  cbn [FormatProcess_switch fp_t negb].
  replace (8 * (8 * repeatCount ds)) with (64 * repeatCount ds) by lia.
  destruct (coerce && (repeatCount ds =? 1)) eqn:Hco; [|reflexivity].
  apply andb_true_iff in Hco. destruct Hco as [_ Hone].
  apply Z.eqb_eq in Hone. rewrite Hone. reflexivity.
Qed.

Lemma wkb_Unpack_P_witness :
  FormatByteSize (map digit_char [D2] ++ ["P"%char])
  = (8 * repeatCount [D2], repeatCount [D2]) /\
  WalkerBit.wkb_Unpack false
    (WalkerBit.mkWKB (List.repeat 0xAB 16) 0 0 128 true)
    (map digit_char [D2] ++ ["P"%char]) false true
  = if false && (repeatCount [D2] =? 1) then Undefined
    else Done (PyTuple (List.repeat None (Z.to_nat (repeatCount [D2]))))
              (WalkerBit.set_currBitOffset
                 (WalkerBit.mkWKB (List.repeat 0xAB 16) 0 0 128 true)
                 (WalkerBit.currBitOffset
                    (WalkerBit.mkWKB (List.repeat 0xAB 16) 0 0 128 true)
                  + 64 * repeatCount [D2])).
Proof.
  apply (wkb_Unpack_P false
           (WalkerBit.mkWKB (List.repeat 0xAB 16) 0 0 128 true) [D2] false);
    [ vm_compute; reflexivity | vm_compute; discriminate ].
Defined.
